(** * A shallow embedding of the ReShade FX SPIR-V code generator and of the
    D3D11 effect linker ([source/d3d11/d3d11_effect_compiler.cpp]). *)

From Stdlib Require Import ZArith List String Bool Btauto Lia.
Import ListNotations.
Open Scope Z_scope.
Set Warnings "-register-all".

(** ** A small state monad, used for the code generator and the linker. *)

Definition M (S A : Type) := S -> A * S.

Definition ret {S A} (a : A) : M S A := fun s => (a, s).
Definition bind {S A B} (m : M S A) (k : A -> M S B) : M S B :=
  fun s => let (a, s') := m s in k a s'.
Definition get {S} : M S S := fun s => (s, s).
Definition put {S} (s : S) : M S unit := fun _ => (tt, s).
Definition modify {S} (f : S -> S) : M S unit := fun s => (tt, f s).

Notation "x <- c ;; k" := (bind c (fun x => k))
  (at level 61, c at next level, right associativity).
Notation "c ;; k" := (bind c (fun _ => k)) (at level 61, right associativity).

(** ** [spirv_instruction] *)

Module Spirv.

Record instruction := mk_instruction {
  op : Z;
  type : Z;
  result : Z;
  operands : list Z }.

(** [explicit spirv_instruction(spv::Op op = spv::OpNop)] *)
Definition instr0 (o : Z) : instruction := mk_instruction o 0 0 [].
(** [spirv_instruction(spv::Op op, spv::Id result)]: note that the source
    stores its second argument into [type], not into [result]. *)
Definition instr1 (o r : Z) : instruction := mk_instruction o r 0 [].
Definition instr2 (o t r : Z) : instruction := mk_instruction o t r [].

Definition add (i : instruction) (w : Z) : instruction :=
  mk_instruction (op i) (type i) (result i) (operands i ++ [w]).
Definition add_range (i : instruction) (ws : list Z) : instruction :=
  mk_instruction (op i) (type i) (result i) (operands i ++ ws).

(** A C string is the list of its bytes; the end of the list, or a 0 byte,
    is the terminating NUL. *)

(** The inner loop [for (i = 0; i < 4 && *string; ++i) byte[i] = *string++;]:
    the bytes copied and the remaining string. *)
Fixpoint fill (i : nat) (s : list Z) : list Z * list Z :=
  match i, s with
  | O, _ => ([], s)
  | S i', b :: s' => if b =? 0 then ([], s) else
      let (c, r) := fill i' s' in (b :: c, r)
  | S _, [] => ([], [])
  end.

(** The bytes [b0, b1, ...] stored at increasing addresses of a zeroed
    [uint32_t] on a little-endian machine. *)
Fixpoint pack_le (bs : list Z) : Z :=
  match bs with
  | [] => 0
  | b :: r => b + 256 * pack_le r
  end.

(** [*string]: the current character is not the NUL. *)
Definition not_at_nul (s : list Z) : bool :=
  match s with
  | b :: _ => negb (b =? 0)
  | [] => false
  end.

(** The [do { ... } while ( *string || word & 0xFF000000);] loop. *)
Fixpoint add_string_loop (fuel : nat) (s : list Z) (i : instruction) : instruction :=
  match fuel with
  | O => i
  | S f =>
      let (bytes, rest) := fill 4 s in
      let word := pack_le bytes in
      let i' := add i word in
      if not_at_nul rest || negb (Z.land word 0xFF000000 =? 0)
      then add_string_loop f rest i'
      else i'
  end.

Definition add_string (i : instruction) (s : list Z) : instruction :=
  add_string_loop (S (List.length s)) s i.

(** The words appended by [add_string] to an instruction without operands. *)
Definition string_words (s : list Z) : list Z :=
  operands (add_string (instr0 0) s).

(** Reading back a word as its four bytes in memory order. *)
Definition word_bytes (w : Z) : list Z :=
  [w mod 256; (w / 256) mod 256; (w / 65536) mod 256; (w / 16777216) mod 256].

Definition bytes_of_words (ws : list Z) : list Z := flat_map word_bytes ws.

End Spirv.

(** ** The SPIR-V code generator [codegen_spirv] *)

Module Codegen.
Import Spirv.

(** SPIR-V enumerants used below (values of the Khronos [spirv.hpp]). *)
Definition MagicNumber := 119734787. (* 0x07230203 *)
(** [spv::Version], the version word of the Khronos header the source
    includes; the statements below only refer to it by name. *)
Definition Version := 66304. (* 0x00010300 *)
Definition WordCountShift := 16.
Definition OpName := 5.
Definition OpMemberName := 6.
Definition OpExtension := 10.
Definition OpExtInstImport := 11.
Definition OpMemoryModel := 14.
Definition OpCapability := 17.
Definition OpTypeVoid := 19.
Definition OpTypeBool := 20.
Definition OpTypeInt := 21.
Definition OpTypeFloat := 22.
Definition OpTypeVector := 23.
Definition OpTypeMatrix := 24.
Definition OpTypeImage := 25.
Definition OpTypeSampledImage := 27.
Definition OpTypeArray := 28.
Definition OpTypeRuntimeArray := 29.
Definition OpTypeStruct := 30.
Definition OpTypePointer := 32.
Definition OpConstantTrue := 41.
Definition OpConstantFalse := 42.
Definition OpConstant := 43.
Definition OpConstantComposite := 44.
Definition OpConstantNull := 46.
Definition OpVariable := 59.
Definition OpDecorate := 71.
Definition OpMemberDecorate := 72.
Definition StorageClassUniformConstant := 0.
Definition StorageClassInput := 1.
Definition StorageClassUniform := 2.
Definition StorageClassOutput := 3.
Definition StorageClassPrivate := 6.
Definition StorageClassFunction := 7.
Definition DecorationBlock := 2.
Definition DecorationBinding := 33.
Definition DecorationDescriptorSet := 34.
Definition DecorationOffset := 35.
Definition CapabilityMatrix := 0.
Definition CapabilityShader := 1.
Definition AddressingModelLogical := 0.
Definition MemoryModelGLSL450 := 1.
Definition Dim2D := 1.
Definition ImageFormatUnknown := 0.

(** *** The IR types ([reshadefx::type], [reshadefx::constant]) *)

Inductive base_t := t_void | t_bool | t_int | t_uint | t_float | t_string
  | t_struct | t_texture | t_sampler.

Definition base_eqb (a b : base_t) : bool :=
  match a, b with
  | t_void, t_void | t_bool, t_bool | t_int, t_int | t_uint, t_uint
  | t_float, t_float | t_string, t_string | t_struct, t_struct
  | t_texture, t_texture | t_sampler, t_sampler => true
  | _, _ => false
  end.

(** Field order of the brace initialisers used in the source, e.g.
    [{ type::t_struct, 0, 0, type::q_uniform, true, false, false, 0, id }]. *)
Record type := mk_type {
  base : base_t;
  rows : Z;
  cols : Z;
  qualifiers : Z;
  is_ptr : bool;
  is_input : bool;
  is_output : bool;
  array_length : Z;
  definition : Z }.

Definition scalar_type (b : base_t) : type := mk_type b 1 1 0 false false false 0 0.

(** Modelled from the spec: the qualifier bits of [reshadefx::type] (the
    header [effect_module.hpp] is not part of the sources); only their
    distinctness matters. *)
Definition q_extern := 1.
Definition q_static := 2.
Definition q_uniform := 4.

(** Modelled from the spec: the type predicates and the equality of
    [reshadefx::type] (declared in [effect_module.hpp], not part of the
    sources).  A vector has [rows > 1] and [cols = 1]; a matrix has
    [cols > 1], including the 1xN matrices that the generator collapses to
    vectors; types are equal when tag, rows, cols, array length, pointer flag
    and struct identity agree. *)
Definition is_numeric (t : type) : bool :=
  match base t with t_bool | t_int | t_uint | t_float => true | _ => false end.
Definition is_array (t : type) : bool := negb (array_length t =? 0).
Definition is_struct (t : type) : bool := base_eqb (base t) t_struct.
Definition is_matrix (t : type) : bool := is_numeric t && (1 <=? rows t) && (1 <? cols t).
Definition is_vector (t : type) : bool := is_numeric t && (1 <? rows t) && (cols t =? 1).
Definition is_boolean (t : type) : bool := base_eqb (base t) t_bool.
Definition is_texture (t : type) : bool := base_eqb (base t) t_texture.
Definition is_sampler (t : type) : bool := base_eqb (base t) t_sampler.
Definition has (t : type) (q : Z) : bool := negb (Z.land (qualifiers t) q =? 0).

Definition type_eqb (a b : type) : bool :=
  base_eqb (base a) (base b) && (rows a =? rows b) && (cols a =? cols b) &&
  (array_length a =? array_length b) && Bool.eqb (is_ptr a) (is_ptr b) &&
  (definition a =? definition b).

Definition with_rows_cols (t : type) (r c : Z) : type :=
  mk_type (base t) r c (qualifiers t) (is_ptr t) (is_input t) (is_output t)
    (array_length t) (definition t).
Definition with_array_length (t : type) (n : Z) : type :=
  mk_type (base t) (rows t) (cols t) (qualifiers t) (is_ptr t) (is_input t)
    (is_output t) n (definition t).
Definition strip_ptr (t : type) : type :=
  mk_type (base t) (rows t) (cols t) (qualifiers t) false false false
    (array_length t) (definition t).

(** [reshadefx::constant]: sixteen 32-bit lanes, a string payload and the
    element data of array constants. *)
Inductive constant := mk_constant {
  as_uint : list Z;
  string_data : string;
  array_data : list constant }.

Definition zero_constant : constant := mk_constant [] EmptyString [].
Definition lane (d : constant) (i : nat) : Z := nth i (as_uint d) 0.

(** [std::memcmp(&a.as_uint[0], &b.as_uint[0], sizeof(uint32_t) * 16) == 0] *)
Definition lanes_eqb (a b : constant) : bool :=
  forallb (fun i => lane a i =? lane b i) (seq 0 16).

Fixpoint elems_eqb (xs ys : list constant) : bool :=
  match xs, ys with
  | [], [] => true
  | x :: xs', y :: ys' => lanes_eqb x y && elems_eqb xs' ys'
  | _, _ => false
  end.

(** The predicate of the [std::find_if] in [emit_constant]. *)
Definition constant_entry_matches (t : type) (d : constant) (e : type * constant * Z) : bool :=
  let '(t', d', _) := e in
  type_eqb t' t && lanes_eqb d' d &&
  Nat.eqb (List.length (array_data d')) (List.length (array_data d)) &&
  elems_eqb (array_data d') (array_data d).

(** The identification of constants as the specification words it: equal
    types, identical sixteen 32-bit lanes, as many array elements, and each
    element with identical sixteen lanes (the elements' own array data are
    not compared). Compared with [constant_entry_matches] below. *)
Definition spec_same_constant (t : type) (d : constant) (t' : type) (d' : constant) : Prop :=
  type_eqb t' t = true /\
  (forall i, (i < 16)%nat -> lane d' i = lane d i) /\
  List.length (array_data d') = List.length (array_data d) /\
  Forall2 (fun x y => forall i, (i < 16)%nat -> lane x i = lane y i) (array_data d') (array_data d).

(** The predicate of the [std::find_if] in [convert_type]. *)
Definition type_entry_matches (info : type) (e : type * Z) : bool :=
  type_eqb (fst e) info &&
  (negb (is_ptr info) ||
   (Z.land (qualifiers (fst e)) (Z.lor q_static q_uniform)
    =? Z.land (qualifiers info) (Z.lor q_static q_uniform))).

Fixpoint find_first {A} (p : A -> bool) (l : list A) : option A :=
  match l with
  | [] => None
  | x :: r => if p x then Some x else find_first p r
  end.

(** *** Generator state *)

(** The six instruction sections written by [write_result] before the
    functions. *)
Record sections := mk_sections {
  entries : list instruction;
  debug_a : list instruction;
  debug_b : list instruction;
  annotations : list instruction;
  types_and_constants : list instruction;
  variables : list instruction }.

Inductive section := SEntries | SDebugA | SDebugB | SAnnotations | STypes | SVariables.

Definition get_section (x : sections) (b : section) : list instruction :=
  match b with
  | SEntries => entries x | SDebugA => debug_a x | SDebugB => debug_b x
  | SAnnotations => annotations x | STypes => types_and_constants x
  | SVariables => variables x
  end.

Definition set_section (x : sections) (b : section) (l : list instruction) : sections :=
  match b with
  | SEntries => mk_sections l (debug_a x) (debug_b x) (annotations x) (types_and_constants x) (variables x)
  | SDebugA => mk_sections (entries x) l (debug_b x) (annotations x) (types_and_constants x) (variables x)
  | SDebugB => mk_sections (entries x) (debug_a x) l (annotations x) (types_and_constants x) (variables x)
  | SAnnotations => mk_sections (entries x) (debug_a x) (debug_b x) l (types_and_constants x) (variables x)
  | STypes => mk_sections (entries x) (debug_a x) (debug_b x) (annotations x) l (variables x)
  | SVariables => mk_sections (entries x) (debug_a x) (debug_b x) (annotations x) (types_and_constants x) l
  end.

Record function_blocks := mk_function_blocks {
  declaration : list instruction;
  fvariables : list instruction;
  fdefinition : list instruction }.

Record uniform_info := mk_uniform_info {
  u_name : string;
  u_type : type;
  u_offset : Z;
  u_member_index : Z;
  u_struct_type_id : Z }.

Record struct_info := mk_struct_info {
  s_unique_name : string;
  s_definition : Z;
  s_member_list : list (type * string) }.

Record state := mk_state {
  next_id : Z;
  secs : sections;
  capabilities : list Z;
  type_lookup : list (type * Z);
  constant_lookup : list (type * constant * Z);
  functions2 : list function_blocks;
  uniforms : list uniform_info;
  structs : list struct_info;
  global_ubo_offset : Z;
  global_ubo_type : Z;
  global_ubo_variable : Z;
  glsl_ext : Z }.

Definition set_next_id (s : state) (v : Z) : state :=
  mk_state v (secs s) (capabilities s) (type_lookup s) (constant_lookup s) (functions2 s)
    (uniforms s) (structs s) (global_ubo_offset s) (global_ubo_type s) (global_ubo_variable s) (glsl_ext s).
Definition set_secs (s : state) (v : sections) : state :=
  mk_state (next_id s) v (capabilities s) (type_lookup s) (constant_lookup s) (functions2 s)
    (uniforms s) (structs s) (global_ubo_offset s) (global_ubo_type s) (global_ubo_variable s) (glsl_ext s).
Definition set_type_lookup (s : state) (v : list (type * Z)) : state :=
  mk_state (next_id s) (secs s) (capabilities s) v (constant_lookup s) (functions2 s)
    (uniforms s) (structs s) (global_ubo_offset s) (global_ubo_type s) (global_ubo_variable s) (glsl_ext s).
Definition set_constant_lookup (s : state) (v : list (type * constant * Z)) : state :=
  mk_state (next_id s) (secs s) (capabilities s) (type_lookup s) v (functions2 s)
    (uniforms s) (structs s) (global_ubo_offset s) (global_ubo_type s) (global_ubo_variable s) (glsl_ext s).
Definition set_uniforms (s : state) (v : list uniform_info) : state :=
  mk_state (next_id s) (secs s) (capabilities s) (type_lookup s) (constant_lookup s) (functions2 s)
    v (structs s) (global_ubo_offset s) (global_ubo_type s) (global_ubo_variable s) (glsl_ext s).
Definition set_structs (s : state) (v : list struct_info) : state :=
  mk_state (next_id s) (secs s) (capabilities s) (type_lookup s) (constant_lookup s) (functions2 s)
    (uniforms s) v (global_ubo_offset s) (global_ubo_type s) (global_ubo_variable s) (glsl_ext s).
Definition set_global_ubo_offset (s : state) (v : Z) : state :=
  mk_state (next_id s) (secs s) (capabilities s) (type_lookup s) (constant_lookup s) (functions2 s)
    (uniforms s) (structs s) v (global_ubo_type s) (global_ubo_variable s) (glsl_ext s).
Definition set_global_ubo_type (s : state) (v : Z) : state :=
  mk_state (next_id s) (secs s) (capabilities s) (type_lookup s) (constant_lookup s) (functions2 s)
    (uniforms s) (structs s) (global_ubo_offset s) v (global_ubo_variable s) (glsl_ext s).
Definition set_global_ubo_variable (s : state) (v : Z) : state :=
  mk_state (next_id s) (secs s) (capabilities s) (type_lookup s) (constant_lookup s) (functions2 s)
    (uniforms s) (structs s) (global_ubo_offset s) (global_ubo_type s) v (glsl_ext s).
Definition set_glsl_ext (s : state) (v : Z) : state :=
  mk_state (next_id s) (secs s) (capabilities s) (type_lookup s) (constant_lookup s) (functions2 s)
    (uniforms s) (structs s) (global_ubo_offset s) (global_ubo_type s) (global_ubo_variable s) v.

Definition CG := M state.

(** Modelled from the spec: [codegen::make_id] of the base class (declared in
    [effect_codegen.hpp], not part of the sources), a monotonically increasing
    counter starting at 1. *)
Definition make_id : CG Z :=
  fun s => (next_id s, set_next_id s (next_id s + 1)).

Definition initial_next_id := 1.

(** [block.instructions.emplace_back(op)] followed by the [.add] calls. *)
Definition append (b : section) (i : instruction) : CG unit :=
  modify (fun s => set_secs s (set_section (secs s) b (get_section (secs s) b ++ [i]))).

(** [add_instruction(op, type, block)]: the instruction is appended, then
    its result id is allocated; the operands are those added afterwards. *)
Definition add_instruction (o ty : Z) (b : section) (ops : list Z) : CG Z :=
  r <- make_id ;;
  append b (mk_instruction o ty r ops) ;;
  ret r.

Definition add_instruction_without_result (o : Z) (b : section) (ops : list Z) : CG unit :=
  append b (mk_instruction o 0 0 ops).

Fixpoint mapM {S A B} (f : A -> M S B) (l : list A) : M S (list B) :=
  match l with
  | [] => ret []
  | x :: r => y <- f x ;; ys <- mapM f r ;; ret (y :: ys)
  end.

Definition push_type (info : type) (id : Z) : CG unit :=
  modify (fun s => set_type_lookup s (type_lookup s ++ [(info, id)])).
Definition push_constant (t : type) (d : constant) (id : Z) : CG unit :=
  modify (fun s => set_constant_lookup s (constant_lookup s ++ [(t, d, id)])).

(** The row data of row [i] of a matrix constant. *)
Definition row_data (t : type) (d : constant) (i : Z) : constant :=
  mk_constant (map (fun k => lane d (Z.to_nat (i * cols t + k))) (map Z.of_nat (seq 0 (Z.to_nat (cols t)))))
    EmptyString [].
Definition scalar_data (d : constant) (i : Z) : constant :=
  mk_constant [lane d (Z.to_nat i)] EmptyString [].
Definition uint_constant (v : Z) : constant := mk_constant [v] EmptyString [].

Definition range (n : Z) : list Z := map Z.of_nat (seq 0 (Z.to_nat n)).

Fixpoint repeatM {S A} (n : nat) (c : M S A) : M S (list A) :=
  match n with
  | O => ret []
  | S n' => x <- c ;; xs <- repeatM n' c ;; ret (x :: xs)
  end.

(** *** [convert_type] and [emit_constant]

    The two are mutually recursive (array types need a [uint] length
    constant); [fuel] bounds the recursion depth, which the type structure
    bounds in the source. *)

(** The part of [convert_type] after a failed lookup, given the functions
    used for its recursive calls. *)
Definition convert_type_new (conv : type -> CG Z) (emit : type -> constant -> CG Z)
    (info : type) : CG Z :=
  if is_ptr info then
    elemtype <- conv (strip_ptr info) ;;
    let storage :=
      if has info q_uniform then
        (if is_texture info || is_sampler info then StorageClassUniformConstant
         else StorageClassUniform)
      else if has info q_static then StorageClassPrivate
      else if is_output info then StorageClassOutput
      else if is_input info then StorageClassInput
      else StorageClassFunction in
    ty <- add_instruction OpTypePointer 0 STypes [storage; elemtype] ;;
    push_type info ty ;; ret ty
  else if is_array info then
    elemtype <- conv (with_array_length info 0) ;;
    ty <- (if 0 <? array_length info then
             length_constant <- emit (scalar_type t_uint) (uint_constant (array_length info)) ;;
             add_instruction OpTypeArray 0 STypes [elemtype; length_constant]
           else add_instruction OpTypeRuntimeArray 0 STypes [elemtype]) ;;
    push_type info ty ;; ret ty
  else if is_matrix info then
    elemtype <- conv (with_rows_cols info (cols info) 1) ;;
    ty <- (if rows info =? 1 then ret elemtype
           else add_instruction OpTypeMatrix 0 STypes [elemtype; rows info]) ;;
    push_type info ty ;; ret ty
  else if is_vector info then
    elemtype <- conv (with_rows_cols info 1 1) ;;
    ty <- add_instruction OpTypeVector 0 STypes [elemtype; rows info] ;;
    push_type info ty ;; ret ty
  else
    match base info with
    | t_void => ty <- add_instruction OpTypeVoid 0 STypes [] ;; push_type info ty ;; ret ty
    | t_bool => ty <- add_instruction OpTypeBool 0 STypes [] ;; push_type info ty ;; ret ty
    | t_float => ty <- add_instruction OpTypeFloat 0 STypes [32] ;; push_type info ty ;; ret ty
    | t_int => ty <- add_instruction OpTypeInt 0 STypes [32; 1] ;; push_type info ty ;; ret ty
    | t_uint => ty <- add_instruction OpTypeInt 0 STypes [32; 0] ;; push_type info ty ;; ret ty
    | t_struct => push_type info (definition info) ;; ret (definition info)
    | t_texture =>
        sampled_type <- conv (scalar_type t_float) ;;
        ty <- add_instruction OpTypeImage 0 STypes
                [sampled_type; Dim2D; 0; 0; 0; 1; ImageFormatUnknown] ;;
        push_type info ty ;; ret ty
    | t_sampler =>
        image_type <- conv (mk_type t_texture 0 0 q_uniform false false false 0 0) ;;
        ty <- add_instruction OpTypeSampledImage 0 STypes [image_type] ;;
        push_type info ty ;; ret ty
    | t_string => ret 0 (* [default: assert(false); return 0;] *)
    end.

(** The part of [emit_constant] after a failed lookup, up to the
    [_constant_lookup.push_back]. *)
Definition emit_constant_new (conv : type -> CG Z) (emit : type -> constant -> CG Z)
    (t : type) (d : constant) : CG Z :=
  if is_array t then
    let elem_type := with_array_length t 0 in
    elements <- mapM (emit elem_type) (array_data d) ;;
    padding <- repeatM (Z.to_nat (array_length t - Z.of_nat (List.length elements)))
                 (emit elem_type zero_constant) ;;
    ty <- conv t ;;
    add_instruction OpConstantComposite ty STypes (elements ++ padding)
  else if is_struct t then
    ty <- conv t ;;
    add_instruction OpConstantNull ty STypes []
  else if is_matrix t then
    row_ids <- mapM (fun i => emit (with_rows_cols t (cols t) 1) (row_data t d i)) (range (rows t)) ;;
    if rows t =? 1 then ret (nth 0 row_ids 0)
    else
      ty <- conv t ;;
      add_instruction OpConstantComposite ty STypes row_ids
  else if is_vector t then
    row_ids <- mapM (fun i => emit (with_rows_cols t 1 (cols t)) (scalar_data d i)) (range (rows t)) ;;
    ty <- conv t ;;
    add_instruction OpConstantComposite ty STypes row_ids
  else if is_boolean t then
    ty <- conv t ;;
    add_instruction (if lane d 0 =? 0 then OpConstantFalse else OpConstantTrue) ty STypes []
  else
    ty <- conv t ;;
    add_instruction OpConstant ty STypes [lane d 0].

Fixpoint convert_type (fuel : nat) (info : type) {struct fuel} : CG Z :=
  match fuel with
  | O => ret 0
  | S f =>
    s <- get ;;
    match find_first (type_entry_matches info) (type_lookup s) with
    | Some (_, id) => ret id
    | None => convert_type_new (convert_type f) (emit_constant f) info
    end
  end

with emit_constant (fuel : nat) (t : type) (d : constant) {struct fuel} : CG Z :=
  match fuel with
  | O => ret 0
  | S f =>
    s <- get ;;
    match find_first (constant_entry_matches t d) (constant_lookup s) with
    | Some (_, id) => ret id
    | None =>
      result <- emit_constant_new (convert_type f) (emit_constant f) t d ;;
      push_constant t d result ;;
      ret result
    end
  end.

(** The recursion depth of both functions is bounded by the nesting of the
    type (array, matrix, vector, scalar, and the types [convert_type] reaches
    from there); ten levels cover every type. *)
Definition type_fuel : nat := 10.

(** *** Names, decorations, structs, variables and uniforms *)

Definition bytes_of_string (str : string) : list Z :=
  map (fun a => Z.of_nat (Ascii.nat_of_ascii a)) (list_ascii_of_string str).

Definition string_operands (str : string) : list Z :=
  operands (add_string (instr0 0) (bytes_of_string str)).

Definition add_name (id : Z) (name : string) : CG unit :=
  add_instruction_without_result OpName SDebugB (id :: string_operands name).

Definition add_member_name (id index : Z) (name : string) : CG unit :=
  add_instruction_without_result OpMemberName SDebugB ([id; index] ++ string_operands name).

Definition add_decoration (id decoration : Z) (values : list Z) : CG unit :=
  add_instruction_without_result OpDecorate SAnnotations ([id; decoration] ++ values).

Definition add_member_decoration (id index decoration : Z) (values : list Z) : CG unit :=
  add_instruction_without_result OpMemberDecorate SAnnotations ([id; index; decoration] ++ values).

(** Replaces the operands of the instruction at position [n] of a section:
    [define_struct] keeps a reference to its [OpTypeStruct] while the member
    types are converted. *)
Definition set_operands_at (b : section) (n : nat) (ops : list Z) : CG unit :=
  modify (fun s =>
    let l := get_section (secs s) b in
    let l' := firstn n l ++
              (match nth_error l n with
               | Some i => [mk_instruction (op i) (Spirv.type i) (result i) ops]
               | None => []
               end) ++ skipn (S n) l in
    set_secs s (set_section (secs s) b l')).

(** [define_struct]; the location of the calls modelled here is always
    empty, so [add_location] does nothing. The source holds
    [spirv_instruction &instruction] into [_types_and_constants] while
    [convert_type] may append to that same vector; after a reallocation the
    reference dangles and [instruction.add] writes to freed memory. The model
    writes the member types into the instruction at its position [pos], which
    is what the source does only when no reallocation happens. *)
Definition define_struct (info : struct_info) : CG Z :=
  modify (fun s => set_structs s (structs s ++ [info])) ;;
  s <- get ;;
  let pos := List.length (types_and_constants (secs s)) in
  append STypes (mk_instruction OpTypeStruct 0 (s_definition info) []) ;;
  member_types <- mapM (fun m => convert_type type_fuel (fst m)) (s_member_list info) ;;
  set_operands_at STypes pos member_types ;;
  (if String.eqb (s_unique_name info) EmptyString then ret tt
   else add_name (s_definition info) (s_unique_name info)) ;;
  mapM (fun p => add_member_name (s_definition info) (Z.of_nat (fst p)) (snd (snd p)))
    (combine (seq 0 (List.length (s_member_list info))) (s_member_list info)) ;;
  ret (s_definition info).

(** [define_variable(id, loc, type, name, storage, initializer_value)] for a
    storage class other than [Function] (the global [_variables] section). *)
Definition define_global_variable (id : Z) (t : type) (name : string) (storage : Z)
    (initializer_value : Z) : CG unit :=
  ty <- convert_type type_fuel t ;;
  append SVariables (mk_instruction OpVariable ty id
    (storage :: (if initializer_value =? 0 then [] else [initializer_value]))) ;;
  (if String.eqb name EmptyString then ret tt else add_name id name).

(** [static inline uint32_t align(uint32_t address, uint32_t alignment)].
    For [alignment = 0] (a uniform of size 0) the source's [%] divides by
    zero, which is undefined; here [Z.mod] gives [address mod 0 = address],
    so the model returns [address]. *)
Definition align (address alignment : Z) : Z :=
  if negb (address mod alignment =? 0)
  then (address + alignment - address mod alignment) mod 2 ^ 32
  else address.

(** [unsigned int size = 4 * (rows == 3 ? 4 : rows) * cols * std::max(1, array_length)] *)
Definition uniform_size (t : type) : Z :=
  (4 * (if rows t =? 3 then 4 else rows t) * cols t * Z.max 1 (array_length t)) mod 2 ^ 32.

Definition define_uniform (info : uniform_info) : CG Z :=
  s <- get ;;
  (if global_ubo_type s =? 0 then id <- make_id ;; modify (fun s => set_global_ubo_type s id)
   else ret tt) ;;
  s <- get ;;
  (if global_ubo_variable s =? 0 then id <- make_id ;; modify (fun s => set_global_ubo_variable s id)
   else ret tt) ;;
  s <- get ;;
  let size := uniform_size (u_type info) in
  let alignment := size in
  let offset := align (global_ubo_offset s) alignment in
  modify (fun s => set_global_ubo_offset s ((offset + size) mod 2 ^ 32)) ;;
  let member_index := Z.of_nat (List.length (uniforms s)) in
  let info' := mk_uniform_info (u_name info) (u_type info) offset member_index (global_ubo_type s) in
  modify (fun s => set_uniforms s (uniforms s ++ [info'])) ;;
  add_member_decoration (global_ubo_type s) member_index DecorationOffset [offset] ;;
  ret (global_ubo_variable s).

Definition globals_name : string := "$Globals".

Definition create_global_ubo : CG unit :=
  s <- get ;;
  let ubo_type := global_ubo_type s in
  let info := mk_struct_info EmptyString ubo_type
                (map (fun u => (u_type u, u_name u)) (uniforms s)) in
  define_struct info ;;
  add_decoration ubo_type DecorationBlock [] ;;
  add_decoration ubo_type DecorationBinding [0] ;;
  add_decoration ubo_type DecorationDescriptorSet [0] ;;
  define_global_variable (global_ubo_variable s)
    (mk_type t_struct 0 0 q_uniform true false false 0 ubo_type)
    globals_name StorageClassUniform 0.

(** The constructor [codegen_spirv() { glsl_ext = make_id(); }]. *)
Definition empty_sections : sections := mk_sections [] [] [] [] [] [].
Definition initial_state : state :=
  let s0 := mk_state initial_next_id empty_sections [] [] [] [] [] [] 0 0 0 0 in
  set_glsl_ext (set_next_id s0 (initial_next_id + 1)) initial_next_id.

(** *** [write_result] *)

(** [static void write(std::vector<uint32_t> &s, const spirv_instruction &ins)].
    The first word is [(num_words << 16) | op] as a [uint32_t]; the model does
    not reduce it modulo [2 ^ 32], so it equals the source's word only when
    [num_words < 2 ^ 16] and [0 <= op < 2 ^ 16]. *)
Definition encode (ins : instruction) : list Z :=
  let num_words := 1 + (if Spirv.type ins =? 0 then 0 else 1) + (if result ins =? 0 then 0 else 1)
                   + Z.of_nat (List.length (operands ins)) in
  [Z.lor (Z.shiftl num_words WordCountShift) (op ins)] ++
  (if Spirv.type ins =? 0 then [] else [Spirv.type ins]) ++
  (if result ins =? 0 then [] else [result ins]) ++
  operands ins.

(** The instructions of one function in the order [write_result] writes
    them; functions without a definition are skipped. *)
Definition function_instructions (fn : function_blocks) : list instruction :=
  match fdefinition fn with
  | [] => []
  | label :: rest => declaration fn ++ [label] ++ fvariables fn ++ rest
  end.

(** Every instruction [write_result] writes after the header, in order. *)
Definition module_instructions (s : state) : list instruction :=
  [add (instr0 OpCapability) CapabilityMatrix;
   add (instr0 OpCapability) CapabilityShader] ++
  map (fun c => add (instr0 OpCapability) c) (capabilities s) ++
  [add_string (instr0 OpExtension) (bytes_of_string "SPV_GOOGLE_hlsl_functionality1");
   add_string (instr1 OpExtInstImport (glsl_ext s)) (bytes_of_string "GLSL.std.450");
   add (add (instr0 OpMemoryModel) AddressingModelLogical) MemoryModelGLSL450] ++
  entries (secs s) ++ debug_a (secs s) ++ debug_b (secs s) ++ annotations (secs s) ++
  types_and_constants (secs s) ++ variables (secs s) ++
  flat_map function_instructions (functions2 s).

Definition header (s : state) : list Z := [MagicNumber; Version; 0; next_id s; 0].

Definition write_result : CG (list Z) :=
  create_global_ubo ;;
  s <- get ;;
  ret (header s ++ flat_map encode (module_instructions s)).

(** The ids that appear in a module: the non-zero type and result fields of
    its instructions. *)
Definition instruction_ids (ins : instruction) : list Z :=
  filter (fun x => negb (x =? 0)) [Spirv.type ins; result ins].
Definition module_ids (s : state) : list Z := flat_map instruction_ids (module_instructions s).
Definition max_id (ids : list Z) : Z := fold_right Z.max 0 ids.

End Codegen.

(** ** The D3D11 effect linker ([reshade::d3d11::d3d11_effect_compiler]) *)

Module Linker.

Definition HRESULT := Z.

(** [FAILED(hr)]: the severity bit is set, i.e. the [HRESULT] is negative. *)
Definition FAILED (hr : HRESULT) : bool := hr <? 0.

(** A COM view ([ID3D11ShaderResourceView] or [ID3D11RenderTargetView]):
    its own identity and the resource [GetResource] returns. A null
    [com_ptr] is [None]. *)
Record view := mk_view { view_id : Z; view_resource : Z }.

(** Two-element arrays indexed by the sRGB flag: [srv[srgb ? 1 : 0]]. *)
Definition pick {A} (srgb : bool) (p : A * A) : A := if srgb then snd p else fst p.
Definition set_pick {A} (srgb : bool) (p : A * A) (x : A) : A * A :=
  if srgb then (fst p, x) else (x, snd p).

(** [d3d11_tex_data]: the 2-D texture (null for the [COLOR] and [DEPTH]
    semantics) and its linear and sRGB views. *)
Record tex_data := mk_tex_data {
  texture : option Z;
  srv : option view * option view;
  rtv : option view * option view }.

(** The runtime's [texture] object (the fields the linker uses). *)
Record runtime_texture := mk_texture {
  t_unique_name : string;
  t_effect_filename : string;
  t_width : Z;
  t_height : Z;
  t_levels : Z;
  t_format : Z;
  t_impl : tex_data }.

Record texture_info := mk_texture_info {
  ti_unique_name : string;
  ti_semantic : string;
  ti_width : Z;
  ti_height : Z;
  ti_levels : Z;
  ti_format : Z }.

(** The float fields [lod_bias], [min_lod] and [max_lod] are given by their
    IEEE-754 single-precision bit patterns. *)
Record sampler_info := mk_sampler_info {
  si_texture_name : string;
  si_binding : nat;
  si_srgb : bool;
  si_filter : Z;
  si_address_u : Z;
  si_address_v : Z;
  si_address_w : Z;
  si_lod_bias : Z;
  si_min_lod : Z;
  si_max_lod : Z }.

(** [pass_info]: the state fields that only feed the depth-stencil and
    blend descriptors are left to the device oracles below. *)
Record pass_info := mk_pass_info {
  pi_vs_entry_point : string;
  pi_ps_entry_point : string;
  pi_render_target_names : list string;
  pi_srgb_write_enable : bool;
  pi_clear_render_targets : bool }.

Record technique_info := mk_technique_info {
  tq_name : string;
  tq_passes : list pass_info }.

(** [d3d11_pass_data]; the viewport is kept as its integer width and height. *)
Record pass := mk_pass {
  vertex_shader : option Z;
  pixel_shader : option Z;
  viewport_width : Z;
  viewport_height : Z;
  shader_resources : list (option view);
  clear_render_targets : bool;
  render_targets : list (option view);
  render_target_resources : list (option view);
  depth_stencil_state : option Z;
  blend_state : option Z }.

Record technique := mk_technique {
  tech_name : string;
  tech_sampler_states : list (option Z);
  tech_passes : list pass }.

(** The device and the compiler library, as oracles: every call returns an
    [HRESULT] and the object it creates. [GetDesc] returns width, height,
    format and sample count of a texture; through a null texture (a [COLOR]
    or [DEPTH] texture used as render target) the call is undefined, and the
    oracle may answer anything. [literal_to_format] maps the [texture_format]
    enumeration (declared outside these sources) to a [DXGI_FORMAT]. *)
Record env := mk_env {
  CreateTexture2D : Z -> Z -> Z -> Z -> HRESULT * Z;
  CreateShaderResourceView : option Z -> Z -> HRESULT * view;
  CreateRenderTargetView : option Z -> Z -> HRESULT * view;
  CreateSamplerState : list Z -> HRESULT * Z;
  CreateDepthStencilState : pass_info -> HRESULT * Z;
  CreateBlendState : pass_info -> HRESULT * Z;
  D3DCompile : string -> bool -> HRESULT * option string;
  CreateShader : string -> bool -> HRESULT * Z;
  GetDesc : option Z -> Z * Z * Z * Z;
  literal_to_format : Z -> Z }.

(** Modelled from the spec: the runtime's texture registry keyed by unique
    name, its sampler-state cache keyed by descriptor hash, its backbuffer
    and depth views and its technique list ([d3d11_runtime], not part of the
    sources). *)
Record runtime := mk_runtime {
  textures : list runtime_texture;
  effect_sampler_states : list (Z * Z);
  backbuffer_rtv : option view * option view;
  backbuffer_texture_srv : option view * option view;
  depthstencil_texture_srv : option view;
  frame_width : Z;
  frame_height : Z;
  techniques : list technique }.

(** Lines appended to [_errors]: [error()] and [warning()] add a prefixed
    line, the compiler's own error blob is appended as it is. *)
Inductive message := Error (text : string) | Warning (text : string) | Raw (text : string).

Record compiler := mk_compiler {
  rt : runtime;
  success : bool;
  errors : list message;
  sampler_bindings : list (option Z);
  texture_bindings : list (option view);
  vs_entry_points : list (string * Z);
  ps_entry_points : list (string * Z) }.

Definition set_rt (c : compiler) (r : runtime) : compiler :=
  mk_compiler r (success c) (errors c) (sampler_bindings c) (texture_bindings c)
    (vs_entry_points c) (ps_entry_points c).
Definition set_success (c : compiler) (b : bool) : compiler :=
  mk_compiler (rt c) b (errors c) (sampler_bindings c) (texture_bindings c)
    (vs_entry_points c) (ps_entry_points c).
Definition set_errors (c : compiler) (m : list message) : compiler :=
  mk_compiler (rt c) (success c) m (sampler_bindings c) (texture_bindings c)
    (vs_entry_points c) (ps_entry_points c).
Definition set_bindings (c : compiler) (sb : list (option Z)) (tb : list (option view)) : compiler :=
  mk_compiler (rt c) (success c) (errors c) sb tb (vs_entry_points c) (ps_entry_points c).
Definition set_entry_points (c : compiler) (vs ps : list (string * Z)) : compiler :=
  mk_compiler (rt c) (success c) (errors c) (sampler_bindings c) (texture_bindings c) vs ps.

Definition set_textures (r : runtime) (l : list runtime_texture) : runtime :=
  mk_runtime l (effect_sampler_states r) (backbuffer_rtv r) (backbuffer_texture_srv r)
    (depthstencil_texture_srv r) (frame_width r) (frame_height r) (techniques r).
Definition set_sampler_states (r : runtime) (l : list (Z * Z)) : runtime :=
  mk_runtime (textures r) l (backbuffer_rtv r) (backbuffer_texture_srv r)
    (depthstencil_texture_srv r) (frame_width r) (frame_height r) (techniques r).
Definition set_techniques (r : runtime) (l : list technique) : runtime :=
  mk_runtime (textures r) (effect_sampler_states r) (backbuffer_rtv r) (backbuffer_texture_srv r)
    (depthstencil_texture_srv r) (frame_width r) (frame_height r) l.

Definition L := M compiler.

(** [std::to_string(static_cast<unsigned long>(hr))]: decimal digits of the
    32-bit unsigned value. *)
Fixpoint digits (fuel : nat) (n : Z) (acc : string) : string :=
  match fuel with
  | O => acc
  | S f =>
    let acc' := String.String (Ascii.ascii_of_nat (48 + Z.to_nat (n mod 10))) acc in
    if n <? 10 then acc' else digits f (n / 10) acc'
  end.
Definition to_string_ul (hr : Z) : string := digits 10 (hr mod 2 ^ 32) EmptyString.

Definition failed_text (call : string) (hr : HRESULT) : string :=
  ("'" ++ call ++ "' failed with error code " ++ to_string_ul hr ++ "!")%string.

(** [d3d11_effect_compiler::error] and [::warning]. *)
Definition error (msg : string) : L unit :=
  modify (fun c => set_errors (set_success c false) (errors c ++ [Error msg])).
Definition warning (msg : string) : L unit :=
  modify (fun c => set_errors c (errors c ++ [Warning msg])).

(** Modelled from the spec: [runtime::find_texture] and [add_texture] on the
    registry keyed by unique name. *)
Definition find_texture (r : runtime) (name : string) : option runtime_texture :=
  Codegen.find_first (fun t => String.eqb (t_unique_name t) name) (textures r).
Definition add_texture (t : runtime_texture) : L unit :=
  modify (fun c => set_rt c (set_textures (rt c) (textures (rt c) ++ [t]))).

(** A write through the pointer [find_texture] returned: the first texture
    of that name gets the new [tex_data]. *)
Fixpoint update_first (name : string) (d : tex_data) (l : list runtime_texture)
    : list runtime_texture :=
  match l with
  | [] => []
  | t :: r =>
    if String.eqb (t_unique_name t) name
    then mk_texture (t_unique_name t) (t_effect_filename t) (t_width t) (t_height t)
           (t_levels t) (t_format t) d :: r
    else t :: update_first name d r
  end.
Definition set_tex_data (name : string) (d : tex_data) : L unit :=
  modify (fun c => set_rt c (set_textures (rt c) (update_first name d (textures (rt c))))).

(** [DXGI_FORMAT] values used by [make_format_srgb] and [make_format_normal]. *)
Definition DXGI_FORMAT_R8G8B8A8_TYPELESS := 27.
Definition DXGI_FORMAT_R8G8B8A8_UNORM := 28.
Definition DXGI_FORMAT_R8G8B8A8_UNORM_SRGB := 29.
Definition DXGI_FORMAT_BC1_TYPELESS := 70.
Definition DXGI_FORMAT_BC1_UNORM := 71.
Definition DXGI_FORMAT_BC1_UNORM_SRGB := 72.
Definition DXGI_FORMAT_BC2_TYPELESS := 73.
Definition DXGI_FORMAT_BC2_UNORM := 74.
Definition DXGI_FORMAT_BC2_UNORM_SRGB := 75.
Definition DXGI_FORMAT_BC3_TYPELESS := 76.
Definition DXGI_FORMAT_BC3_UNORM := 77.
Definition DXGI_FORMAT_BC3_UNORM_SRGB := 78.

Definition make_format_srgb (format : Z) : Z :=
  if (format =? 27) || (format =? 28) then 29
  else if (format =? 70) || (format =? 71) then 72
  else if (format =? 73) || (format =? 74) then 75
  else if (format =? 76) || (format =? 77) then 78
  else format.

Definition make_format_normal (format : Z) : Z :=
  if (format =? 27) || (format =? 29) then 28
  else if (format =? 70) || (format =? 72) then 71
  else if (format =? 73) || (format =? 75) then 74
  else if (format =? 76) || (format =? 78) then 77
  else format.

Definition dimensions_differ (t : runtime_texture) (info : texture_info) : bool :=
  negb ((t_width t =? ti_width info) && (t_height t =? ti_height info) &&
        (t_levels t =? ti_levels info) && (t_format t =? ti_format info)).

Definition dimension_mismatch_text : string :=
  " already created a texture with the same name but different dimensions; textures are shared across all effects, so either rename the variable or adjust the dimensions so they match".

(** [d3d11_effect_compiler::visit_texture]; a texture created here leaves
    [effect_filename] as the default-constructed [obj] has it. *)
Definition visit_texture (e : env) (info : texture_info) : L unit :=
  c <- get ;;
  let r := rt c in
  match find_texture r (ti_unique_name info) with
  | Some existing =>
    if String.eqb (ti_semantic info) EmptyString && dimensions_differ existing info
    then error (t_effect_filename existing ++ dimension_mismatch_text)
    else ret tt
  | None =>
    let name := ti_unique_name info in
    let format := literal_to_format e (ti_format info) in
    let obj (w h : Z) (d : tex_data) :=
      mk_texture name EmptyString w h (ti_levels info) (ti_format info) d in
    if String.eqb (ti_semantic info) "COLOR" then
      add_texture (obj (frame_width r) (frame_height r)
                     (mk_tex_data None (backbuffer_texture_srv r) (None, None)))
    else if String.eqb (ti_semantic info) "DEPTH" then
      add_texture (obj (frame_width r) (frame_height r)
                     (mk_tex_data None (depthstencil_texture_srv r, depthstencil_texture_srv r)
                        (None, None)))
    else if negb (String.eqb (ti_semantic info) EmptyString) then
      error "invalid semantic"
    else
      let (hr, tex) := CreateTexture2D e (ti_width info) (ti_height info) (ti_levels info) format in
      if FAILED hr then error (failed_text "ID3D11Device::CreateTexture2D" hr) else
      let (hr, srv0) := CreateShaderResourceView e (Some tex) (make_format_normal format) in
      if FAILED hr then error (failed_text "ID3D11Device::CreateShaderResourceView" hr) else
      let srgb_format := make_format_srgb format in
      if negb (srgb_format =? format) then
        let (hr, srv1) := CreateShaderResourceView e (Some tex) srgb_format in
        if FAILED hr then error (failed_text "ID3D11Device::CreateShaderResourceView" hr)
        else add_texture (obj (ti_width info) (ti_height info)
                            (mk_tex_data (Some tex) (Some srv0, Some srv1) (None, None)))
      else add_texture (obj (ti_width info) (ti_height info)
                          (mk_tex_data (Some tex) (Some srv0, Some srv0) (None, None)))
  end.

(** [D3D11_COMPARISON_NEVER] *)
Definition D3D11_COMPARISON_NEVER := 1.

(** The 52 bytes of the [D3D11_SAMPLER_DESC] [visit_sampler] fills, in
    memory order: [Filter], [AddressU], [AddressV], [AddressW],
    [MipLODBias], [MaxAnisotropy = 1], [ComparisonFunc], [BorderColor[4]]
    (zero, from [desc = {}]), [MinLOD], [MaxLOD]; each a little-endian 32-bit
    field. *)
Definition sampler_desc_bytes (info : sampler_info) : list Z :=
  flat_map (fun w => Spirv.word_bytes (w mod 2 ^ 32))
    [si_filter info; si_address_u info; si_address_v info; si_address_w info;
     si_lod_bias info; 1; D3D11_COMPARISON_NEVER; 0; 0; 0; 0;
     si_min_lod info; si_max_lod info].

(** [size_t desc_hash = 2166136261;
     for (...) desc_hash = (desc_hash * 16777619) ^ byte;] with a 64-bit
    [size_t]. *)
Definition desc_hash (bytes : list Z) : Z :=
  fold_left (fun h b => Z.lxor ((h * 16777619) mod 2 ^ 64) b) bytes 2166136261.

(** [std::vector::resize] to a size not below the current one, and an
    in-range element assignment. *)
Definition grow {A} (n : nat) (d : A) (l : list A) : list A :=
  l ++ repeat d (n - List.length l).
Definition list_set {A} (l : list A) (n : nat) (x : A) : list A :=
  firstn n l ++ x :: skipn (S n) l.

Definition assoc_find (k : Z) (l : list (Z * Z)) : option Z :=
  match Codegen.find_first (fun p => fst p =? k) l with
  | Some (_, v) => Some v
  | None => None
  end.

(** [d3d11_effect_compiler::visit_sampler] *)
Definition visit_sampler (e : env) (info : sampler_info) : L unit :=
  c <- get ;;
  match find_texture (rt c) (si_texture_name info) with
  | None => ret tt
  | Some existing =>
    let desc := sampler_desc_bytes info in
    let h := desc_hash desc in
    it <- (match assoc_find h (effect_sampler_states (rt c)) with
           | Some smp => ret (Some smp)
           | None =>
             let (hr, smp) := CreateSamplerState e desc in
             if FAILED hr then
               error (failed_text "ID3D11Device::CreateSamplerState" hr) ;; ret None
             else
               modify (fun c => set_rt c (set_sampler_states (rt c)
                                            (effect_sampler_states (rt c) ++ [(h, smp)]))) ;;
               ret (Some smp)
           end) ;;
    match it with
    | None => ret tt
    | Some smp =>
      modify (fun c =>
        let b := si_binding info in
        let sb := grow (Nat.max (List.length (sampler_bindings c)) (S b)) None (sampler_bindings c) in
        let tb := grow (Nat.max (List.length (texture_bindings c)) (S b)) None (texture_bindings c) in
        set_bindings c (list_set sb b (Some smp))
          (list_set tb b (pick (si_srgb info) (srv (t_impl existing)))))
    end
  end.

Definition map_set (k : string) (v : Z) (l : list (string * Z)) : list (string * Z) :=
  (k, v) :: filter (fun p => negb (String.eqb (fst p) k)) l.
Definition map_find (k : string) (l : list (string * Z)) : option Z :=
  match Codegen.find_first (fun p => String.eqb (fst p) k) l with
  | Some (_, v) => Some v
  | None => None
  end.

(** [d3d11_effect_compiler::compile_entry_point]. The output argument
    [&ps_entry_points[entry_point]] (or [vs_]) inserts the entry before
    [CreatePixelShader] / [CreateVertexShader] runs, so the entry exists
    whether or not the call succeeds; it holds what the device wrote through
    the pointer, the second component of [CreateShader]. *)
Definition compile_entry_point (e : env) (entry_point : string) (is_ps : bool) : L unit :=
  let (hr, errs) := D3DCompile e entry_point is_ps in
  (match errs with
   | Some text => modify (fun c => set_errors c (errors c ++ [Raw text]))
   | None => ret tt
   end) ;;
  if FAILED hr then error "internal shader compilation failed" else
  let (hr, shader) := CreateShader e entry_point is_ps in
  modify (fun c =>
    if is_ps then set_entry_points c (vs_entry_points c) (map_set entry_point shader (ps_entry_points c))
    else set_entry_points c (map_set entry_point shader (vs_entry_points c)) (ps_entry_points c)) ;;
  if FAILED hr then error (failed_text "CreateShader" hr) else ret tt.

Definition set_viewport (p : pass) (w h : Z) : pass :=
  mk_pass (vertex_shader p) (pixel_shader p) w h (shader_resources p) (clear_render_targets p)
    (render_targets p) (render_target_resources p) (depth_stencil_state p) (blend_state p).
Definition set_render_target (p : pass) (k : nat) (v r : option view) : pass :=
  mk_pass (vertex_shader p) (pixel_shader p) (viewport_width p) (viewport_height p)
    (shader_resources p) (clear_render_targets p) (list_set (render_targets p) k v)
    (list_set (render_target_resources p) k r) (depth_stencil_state p) (blend_state p).
Definition set_states (p : pass) (ds bs : option Z) : pass :=
  mk_pass (vertex_shader p) (pixel_shader p) (viewport_width p) (viewport_height p)
    (shader_resources p) (clear_render_targets p) (render_targets p)
    (render_target_resources p) ds bs.
Definition set_shader_resources (p : pass) (l : list (option view)) : pass :=
  mk_pass (vertex_shader p) (pixel_shader p) (viewport_width p) (viewport_height p)
    l (clear_render_targets p) (render_targets p)
    (render_target_resources p) (depth_stencil_state p) (blend_state p).

(** The eight render-target slots of a new pass, slot 0 bound to the
    backbuffer views chosen by [target_index]:
    [pass.render_targets[0] = _runtime->_backbuffer_rtv[target_index]]. *)
Definition initial_pass (c : compiler) (pi : pass_info) : pass :=
  let target_index := pi_srgb_write_enable pi in
  mk_pass (map_find (pi_vs_entry_point pi) (vs_entry_points c))
    (map_find (pi_ps_entry_point pi) (ps_entry_points c)) 0 0
    (texture_bindings c) (pi_clear_render_targets pi)
    (list_set (repeat None 8) 0 (pick target_index (backbuffer_rtv (rt c))))
    (list_set (repeat None 8) 0 (pick target_index (backbuffer_texture_srv (rt c))))
    None None.

(** The [for (unsigned int k = 0; k < 8; k++)] loop over the render-target
    names; [None] is the early [return] after [error()]. For a texture with
    the semantic [COLOR] or [DEPTH], [texture_impl->texture] is null and the
    source's [GetDesc] call dereferences a null pointer; the model instead
    applies [GetDesc] to [None] and goes on with whatever it returns. *)
Fixpoint render_target_loop (e : env) (pi : pass_info) (ks : list nat) (p : pass)
    : L (option pass) :=
  match ks with
  | [] => ret (Some p)
  | k :: ks' =>
    let target_index := pi_srgb_write_enable pi in
    let render_target := nth k (pi_render_target_names pi) EmptyString in
    if String.eqb render_target EmptyString then render_target_loop e pi ks' p else
    c <- get ;;
    match find_texture (rt c) render_target with
    | None => error "texture not found" ;; ret None
    | Some tex =>
      let impl := t_impl tex in
      let '(w, h, format, sample_count) := GetDesc e (texture impl) in
      if negb (viewport_width p =? 0) && negb (viewport_height p =? 0) &&
         (negb (w =? viewport_width p) || negb (h =? viewport_height p))
      then error "cannot use multiple rendertargets with different sized textures" ;; ret None
      else
        let p1 := set_viewport p w h in
        let rtv_format := if target_index then make_format_srgb format
                          else make_format_normal format in
        rtv_k <- (match pick target_index (rtv impl) with
                  | Some v => ret (Some v)
                  | None =>
                    let (hr, v) := CreateRenderTargetView e (texture impl) rtv_format in
                    if FAILED hr then
                      warning (failed_text "ID3D11Device::CreateRenderTargetView" hr) ;; ret None
                    else
                      set_tex_data render_target
                        (mk_tex_data (texture impl) (srv impl)
                           (set_pick target_index (rtv impl) (Some v))) ;;
                      ret (Some v)
                  end) ;;
        render_target_loop e pi ks' (set_render_target p1 k rtv_k (pick target_index (srv impl)))
    end
  end.

(** The last loop of a pass: a shader resource whose resource is that of a
    non-null render target of the pass is reset. *)
Definition shares_resource (v : view) (rtv : option view) : bool :=
  match rtv with
  | Some r => view_resource r =? view_resource v
  | None => false
  end.
Definition null_hazards (p : pass) : pass :=
  set_shader_resources p
    (map (fun srv => match srv with
                     | None => None
                     | Some v => if existsb (shares_resource v) (render_targets p) then None else srv
                     end) (shader_resources p)).

(** One iteration of the pass loop of [visit_technique]. *)
Definition visit_pass (e : env) (pi : pass_info) : L (option pass) :=
  c <- get ;;
  o <- render_target_loop e pi (seq 0 8) (initial_pass c pi) ;;
  match o with
  | None => ret None
  | Some p1 =>
    c <- get ;;
    let p2 := if (viewport_width p1 =? 0) && (viewport_height p1 =? 0)
              then set_viewport p1 (frame_width (rt c)) (frame_height (rt c)) else p1 in
    let (hr, ds) := CreateDepthStencilState e pi in
    (if FAILED hr then warning (failed_text "ID3D11Device::CreateDepthStencilState" hr)
     else ret tt) ;;
    let (hr2, bs) := CreateBlendState e pi in
    (if FAILED hr2 then warning (failed_text "ID3D11Device::CreateBlendState" hr2)
     else ret tt) ;;
    ret (Some (null_hazards
                 (set_states p2 (if FAILED hr then None else Some ds)
                    (if FAILED hr2 then None else Some bs))))
  end.

Fixpoint pass_loop (e : env) (l : list pass_info) (acc : list pass) : L (option (list pass)) :=
  match l with
  | [] => ret (Some acc)
  | pi :: r =>
    o <- visit_pass e pi ;;
    match o with
    | None => ret None
    | Some p => pass_loop e r (acc ++ [p])
    end
  end.

(** [d3d11_effect_compiler::visit_technique]; the timing queries, whose
    creation results are not checked, are left out. An early [return] in a
    pass drops the whole technique. *)
Definition visit_technique (e : env) (info : technique_info) : L unit :=
  c <- get ;;
  o <- pass_loop e (tq_passes info) [] ;;
  match o with
  | None => ret tt
  | Some passes =>
    modify (fun c' => set_rt c' (set_techniques (rt c')
      (techniques (rt c') ++ [mk_technique (tq_name info) (sampler_bindings c) passes])))
  end.

End Linker.

(** ** Format, blend and stencil literals, and [roundto16] *)

Module Formats.

(** [DXGI_FORMAT] values [literal_to_format] returns besides those of
    [make_format_srgb] and [make_format_normal]. *)
Definition DXGI_FORMAT_UNKNOWN := 0.
Definition DXGI_FORMAT_R32G32B32A32_FLOAT := 2.
Definition DXGI_FORMAT_R16G16B16A16_FLOAT := 10.
Definition DXGI_FORMAT_R16G16B16A16_UNORM := 11.
Definition DXGI_FORMAT_R32G32_FLOAT := 16.
Definition DXGI_FORMAT_R16G16_FLOAT := 34.
Definition DXGI_FORMAT_R16G16_UNORM := 35.
Definition DXGI_FORMAT_R32_FLOAT := 41.
Definition DXGI_FORMAT_R8G8_UNORM := 49.
Definition DXGI_FORMAT_R16_FLOAT := 54.
Definition DXGI_FORMAT_R8_UNORM := 61.
Definition DXGI_FORMAT_BC4_UNORM := 80.
Definition DXGI_FORMAT_BC5_UNORM := 83.

(** [make_format_typeless] *)
Definition make_format_typeless (format : Z) : Z :=
  if (format =? Linker.DXGI_FORMAT_R8G8B8A8_UNORM) || (format =? Linker.DXGI_FORMAT_R8G8B8A8_UNORM_SRGB)
  then Linker.DXGI_FORMAT_R8G8B8A8_TYPELESS
  else if (format =? Linker.DXGI_FORMAT_BC1_UNORM) || (format =? Linker.DXGI_FORMAT_BC1_UNORM_SRGB)
  then Linker.DXGI_FORMAT_BC1_TYPELESS
  else if (format =? Linker.DXGI_FORMAT_BC2_UNORM) || (format =? Linker.DXGI_FORMAT_BC2_UNORM_SRGB)
  then Linker.DXGI_FORMAT_BC2_TYPELESS
  else if (format =? Linker.DXGI_FORMAT_BC3_UNORM) || (format =? Linker.DXGI_FORMAT_BC3_UNORM_SRGB)
  then Linker.DXGI_FORMAT_BC3_TYPELESS
  else format.

(** [reshadefx::texture_format]: the enumerators [literal_to_format] names;
    [visit_texture] casts an integer to it, so any other value of the
    underlying type can reach the function too ([unnamed]). *)
Inductive texture_format :=
  | r8 | r16f | r32f | rg8 | rg16 | rg16f | rg32f | rgba8 | rgba16 | rgba16f | rgba32f
  | dxt1 | dxt3 | dxt5 | latc1 | latc2
  | unnamed (value : Z).

(** [static DXGI_FORMAT literal_to_format(texture_format value)] *)
Definition literal_to_format (value : texture_format) : Z :=
  match value with
  | r8 => DXGI_FORMAT_R8_UNORM
  | r16f => DXGI_FORMAT_R16_FLOAT
  | r32f => DXGI_FORMAT_R32_FLOAT
  | rg8 => DXGI_FORMAT_R8G8_UNORM
  | rg16 => DXGI_FORMAT_R16G16_UNORM
  | rg16f => DXGI_FORMAT_R16G16_FLOAT
  | rg32f => DXGI_FORMAT_R32G32_FLOAT
  | rgba8 => Linker.DXGI_FORMAT_R8G8B8A8_TYPELESS
  | rgba16 => DXGI_FORMAT_R16G16B16A16_UNORM
  | rgba16f => DXGI_FORMAT_R16G16B16A16_FLOAT
  | rgba32f => DXGI_FORMAT_R32G32B32A32_FLOAT
  | dxt1 => Linker.DXGI_FORMAT_BC1_TYPELESS
  | dxt3 => Linker.DXGI_FORMAT_BC2_TYPELESS
  | dxt5 => Linker.DXGI_FORMAT_BC3_TYPELESS
  | latc1 => DXGI_FORMAT_BC4_UNORM
  | latc2 => DXGI_FORMAT_BC5_UNORM
  | unnamed _ => DXGI_FORMAT_UNKNOWN
  end.

(** [D3D11_BLEND] *)
Definition D3D11_BLEND_ZERO := 1.
Definition D3D11_BLEND_ONE := 2.
Definition D3D11_BLEND_SRC_COLOR := 3.
Definition D3D11_BLEND_INV_SRC_COLOR := 4.
Definition D3D11_BLEND_SRC_ALPHA := 5.
Definition D3D11_BLEND_INV_SRC_ALPHA := 6.
Definition D3D11_BLEND_DEST_ALPHA := 7.
Definition D3D11_BLEND_INV_DEST_ALPHA := 8.
Definition D3D11_BLEND_DEST_COLOR := 9.
Definition D3D11_BLEND_INV_DEST_COLOR := 10.

(** [static D3D11_BLEND literal_to_blend_func(unsigned int value)]; the
    [default] label shares the [case 1] body. *)
Definition literal_to_blend_func (value : Z) : Z :=
  if value =? 0 then D3D11_BLEND_ZERO
  else if value =? 1 then D3D11_BLEND_ONE
  else if value =? 2 then D3D11_BLEND_SRC_COLOR
  else if value =? 4 then D3D11_BLEND_INV_SRC_COLOR
  else if value =? 3 then D3D11_BLEND_SRC_ALPHA
  else if value =? 5 then D3D11_BLEND_INV_SRC_ALPHA
  else if value =? 6 then D3D11_BLEND_DEST_ALPHA
  else if value =? 7 then D3D11_BLEND_INV_DEST_ALPHA
  else if value =? 8 then D3D11_BLEND_DEST_COLOR
  else if value =? 9 then D3D11_BLEND_INV_DEST_COLOR
  else D3D11_BLEND_ONE.

(** [D3D11_STENCIL_OP] *)
Definition D3D11_STENCIL_OP_KEEP := 1.
Definition D3D11_STENCIL_OP_ZERO := 2.
Definition D3D11_STENCIL_OP_REPLACE := 3.
Definition D3D11_STENCIL_OP_INCR_SAT := 4.
Definition D3D11_STENCIL_OP_DECR_SAT := 5.
Definition D3D11_STENCIL_OP_INVERT := 6.
Definition D3D11_STENCIL_OP_INCR := 7.
Definition D3D11_STENCIL_OP_DECR := 8.

(** [static D3D11_STENCIL_OP literal_to_stencil_op(unsigned int value)]; the
    [default] label shares the [case 1] body. *)
Definition literal_to_stencil_op (value : Z) : Z :=
  if value =? 1 then D3D11_STENCIL_OP_KEEP
  else if value =? 0 then D3D11_STENCIL_OP_ZERO
  else if value =? 3 then D3D11_STENCIL_OP_REPLACE
  else if value =? 4 then D3D11_STENCIL_OP_INCR_SAT
  else if value =? 5 then D3D11_STENCIL_OP_DECR_SAT
  else if value =? 6 then D3D11_STENCIL_OP_INVERT
  else if value =? 7 then D3D11_STENCIL_OP_INCR
  else if value =? 8 then D3D11_STENCIL_OP_DECR
  else D3D11_STENCIL_OP_KEEP.

(** [static inline size_t roundto16(size_t size) { return (size + 15) & ~15; }]
    with a 64-bit [size_t]. *)
Definition roundto16 (size : Z) : Z :=
  Z.land ((size + 15) mod 2 ^ 64) (Z.lnot 15 mod 2 ^ 64).

End Formats.


(** ** Reading back a SPIR-V word stream *)

Module Reader.
Import Spirv Codegen.

(** A reader of the instruction stream [write_result] produces: the upper
    16 bits of an instruction's first word give its length in words. *)
Fixpoint split_by_word_count (fuel : nat) (ws : list Z) : option (list (list Z)) :=
  match ws with
  | [] => Some []
  | w :: _ =>
    match fuel with
    | O => None
    | S f =>
      let n := Z.to_nat (Z.shiftr w WordCountShift) in
      if (n =? 0)%nat || (List.length ws <? n)%nat then None
      else match split_by_word_count f (skipn n ws) with
           | Some r => Some (firstn n ws :: r)
           | None => None
           end
    end
  end.

(** The opcode in the lower 16 bits of an instruction's first word. *)
Definition opcode_of (ws : list Z) : Z := Z.land (hd 0 ws) 65535.

End Reader.

(** ** The HLSL code generator [codegen_hlsl]: type names *)

Module Hlsl.
Import Codegen.

(** [std::to_string] of an [unsigned int]. *)
Definition to_string_uint (n : Z) : string := Linker.digits 10 (n mod 2 ^ 32) EmptyString.

(** The character ['x']. *)
Definition x_char : Ascii.ascii := Ascii.ascii_of_nat 120.

(** [codegen_hlsl::write_type] *)
Definition write_type (t : type) : string :=
  let s := match base t with
           | t_void => "void"
           | t_bool => "bool"
           | t_int => "int"
           | t_uint => "uint"
           | t_float => "float"
           | t_sampler => "__sampler"
           | _ => EmptyString
           end%string in
  let s := if 1 <? rows t then (s ++ to_string_uint (rows t))%string else s in
  if 1 <? cols t then (s ++ String.String x_char (to_string_uint (cols t)))%string else s.

End Hlsl.

(** * Example inputs *)

Module Examples.
Import Codegen.

(** [floatRxC]: a float scalar, vector or matrix type. *)
Definition float_t (r c : Z) : type := with_rows_cols (scalar_type t_float) r c.

Definition uniform (n : string) (r c : Z) : uniform_info :=
  mk_uniform_info n (float_t r c) 0 0 0.

(** [uniform float a; uniform float3 b; uniform float c;] *)
Definition abc_block : CG unit :=
  _ <- define_uniform (uniform "a" 1 1) ;;
  _ <- define_uniform (uniform "b" 3 1) ;;
  _ <- define_uniform (uniform "c" 1 1) ;;
  ret tt.

Definition f12 : type := float_t 1 2.
Definition f2 : type := float_t 2 1.
Definition d12 : constant := mk_constant [5; 7] EmptyString [].

(** A device whose calls succeed except those given a failing code: a
    view's resource is the texture it was made from. *)
Definition resource_of (t : option Z) : Z := match t with Some r => r | None => 0 end.
Definition dev (texture_hr srv_hr rtv_hr sampler_hr shader_hr : Z) : Linker.env :=
  Linker.mk_env
    (fun _ _ _ _ => (texture_hr, 100))
    (fun t f => (srv_hr, Linker.mk_view (200 + f) (resource_of t)))
    (fun t f => (rtv_hr, Linker.mk_view (300 + f) (resource_of t)))
    (fun _ => (sampler_hr, 400))
    (fun _ => (0, 500))
    (fun _ => (0, 600))
    (fun _ _ => (0, None))
    (fun _ _ => (shader_hr, 700))
    (fun _ => (64, 64, Linker.DXGI_FORMAT_R8G8B8A8_UNORM, 1))
    (fun f => f).
Definition ok_dev : Linker.env := dev 0 0 0 0 0.

(** A failing [HRESULT]: [E_OUTOFMEMORY]. *)
Definition E_OUTOFMEMORY : Z := -2147024882.

(** A device on which only the sRGB shader-resource view (format 29,
    [R8G8B8A8_UNORM_SRGB]) fails, with [E_OUTOFMEMORY]. *)
Definition srgb_view_fails : Linker.env :=
  Linker.mk_env
    (fun _ _ _ _ => (0, 100))
    (fun t f => (if f =? 29 then E_OUTOFMEMORY else 0, Linker.mk_view (200 + f) (resource_of t)))
    (fun t f => (0, Linker.mk_view (300 + f) (resource_of t)))
    (fun _ => (0, 400))
    (fun _ => (0, 500))
    (fun _ => (0, 600))
    (fun _ _ => (0, None))
    (fun _ _ => (0, 700))
    (fun _ => (64, 64, Linker.DXGI_FORMAT_R8G8B8A8_UNORM, 1))
    (fun f => f).

(** A registered 64x64 texture [T] with a view of its own resource 100. *)
Definition T_view : Linker.view := Linker.mk_view 228 100.
Definition T_tex : Linker.runtime_texture :=
  Linker.mk_texture "T" "a.fx" 64 64 1 28
    (Linker.mk_tex_data (Some 100) (Some T_view, Some T_view) (None, None)).
Definition backbuffer_rtv := (Some (Linker.mk_view 1 10), Some (Linker.mk_view 2 10)).
Definition backbuffer_srv := (Some (Linker.mk_view 3 10), Some (Linker.mk_view 4 10)).
Definition runtime0 : Linker.runtime :=
  Linker.mk_runtime [T_tex] [] backbuffer_rtv backbuffer_srv (Some (Linker.mk_view 5 11))
    800 600 [].
Definition compiler0 : Linker.compiler := Linker.mk_compiler runtime0 true [] [] [] [] [].

Definition sampler_on (tex : string) (binding : nat) : Linker.sampler_info :=
  Linker.mk_sampler_info tex binding false 21 1 1 1 0 0 2139095039.
Definition texture_decl (name semantic : string) (w h : Z) : Linker.texture_info :=
  Linker.mk_texture_info name semantic w h 1 28.
Definition pass_to (names : list string) (srgb : bool) : Linker.pass_info :=
  Linker.mk_pass_info "VS" "PS" names srgb false.

(** The hash the specification names for the sampler cache key, written
    from its words: FNV-1a over 32 bits (XOR the byte in, then multiply). *)
Definition fnv1a_32_spec (bytes : list Z) : Z :=
  fold_left (fun h b => (Z.lxor h b * 16777619) mod 2 ^ 32) bytes 2166136261.

(** [T] sampled through binding 0, then a technique whose one pass renders
    to [T]. *)
Definition compiler_sampled : Linker.compiler :=
  snd (Linker.visit_sampler ok_dev (sampler_on "T" 0) compiler0).
Definition technique_writing_T : Linker.technique_info :=
  Linker.mk_technique_info "t" [pass_to ("T" :: repeat EmptyString 7)%string false].

Definition empty_pass : Linker.pass :=
  Linker.mk_pass None None 0 0 [] false [] [] None None.

(** The generator state after [abc_block]. *)
Definition abc_state : state := snd (abc_block initial_state).
(** The three uniforms of [abc_block]. *)
Definition abc_infos : list uniform_info := [uniform "a" 1 1; uniform "b" 3 1; uniform "c" 1 1].
(** A 32x32 texture [U] with no semantic. *)
Definition U_decl : Linker.texture_info := texture_decl "U" EmptyString 32 32.
(** [float[3]] and a constant giving two of its elements. *)
Definition float3_array : type := with_array_length (float_t 1 1) 3.
Definition two_elements : constant :=
  mk_constant [] EmptyString [mk_constant [1] EmptyString []; mk_constant [2] EmptyString []].
(** Elements with the lanes of [two_elements], the first carrying array data
    of its own, and the generator state after emitting them as a [float[3]]. *)
Definition nested_elements : constant :=
  mk_constant [] EmptyString
    [mk_constant [1] EmptyString [mk_constant [8] EmptyString []]; mk_constant [2] EmptyString []].
Definition nested_state : state :=
  snd (emit_constant type_fuel float3_array nested_elements initial_state).

End Examples.

(** * Proofs *)

Module SpirvFacts.
Import Spirv.

Lemma mod_256_step (a x : Z) : 0 <= a < 256 -> (a + 256 * x) mod 256 = a.
Proof.
  intros H. rewrite Z.mul_comm, Z_mod_plus_full. apply Z.mod_small; lia.
Qed.

Lemma div_256_step (a x : Z) : 0 <= a < 256 -> (a + 256 * x) / 256 = x.
Proof.
  intros H. rewrite Z.add_comm, Z.mul_comm, Z.div_add_l by lia.
  rewrite Z.div_small by lia. lia.
Qed.

Lemma word_bytes_alt (w : Z) :
  word_bytes w =
  [w mod 256; (w / 256) mod 256; (w / 256 / 256) mod 256; (w / 256 / 256 / 256) mod 256].
Proof.
  unfold word_bytes. rewrite !Z.div_div by lia. reflexivity.
Qed.

Definition is_byte (b : Z) : Prop := 0 <= b < 256.
Definition is_char (b : Z) : Prop := 0 < b < 256.

Lemma word_bytes_pack (bs : list Z) :
  Forall is_byte bs -> (List.length bs <= 4)%nat ->
  word_bytes (pack_le bs) = bs ++ repeat 0 (4 - List.length bs).
Proof.
  intros Hb Hl. rewrite word_bytes_alt.
  destruct bs as [|a [|b [|c [|d [|e r]]]]]; cbn [List.length] in Hl; try lia;
  cbn [pack_le app repeat List.length Nat.sub];
  repeat match goal with H : Forall _ (_ :: _) |- _ => inversion H; subst; clear H end;
  unfold is_byte in *;
  repeat (rewrite ?div_256_step, ?mod_256_step by lia); reflexivity.
Qed.

Lemma pack_le_bounds (bs : list Z) :
  Forall is_byte bs -> 0 <= pack_le bs < 256 ^ Z.of_nat (List.length bs).
Proof.
  induction 1 as [|b r Hb Hr IH]; cbn [pack_le List.length]; [simpl; lia|].
  unfold is_byte in Hb. rewrite Nat2Z.inj_succ, Z.pow_succ_r by lia. nia.
Qed.

Lemma mask_top_byte : 0xFF000000 = Z.ldiff (Z.ones 32) (Z.ones 24).
Proof. reflexivity. Qed.

Lemma land_top_byte (w : Z) :
  0 <= w < 2 ^ 32 -> Z.land w 0xFF000000 = Z.shiftl (Z.shiftr w 24) 24.
Proof.
  intros Hw. rewrite mask_top_byte.
  assert (Z.land w (Z.ldiff (Z.ones 32) (Z.ones 24))
          = Z.ldiff (Z.land w (Z.ones 32)) (Z.ones 24)) as ->.
  { apply Z.bits_inj'; intros n Hn.
    rewrite Z.land_spec, !Z.ldiff_spec, Z.land_spec. btauto. }
  rewrite Z.land_ones, Z.mod_small by lia.
  apply Z.ldiff_ones_r; lia.
Qed.

Lemma land_top_byte_zero (w : Z) :
  0 <= w < 2 ^ 32 -> (Z.land w 0xFF000000 =? 0) = (w <? 2 ^ 24).
Proof.
  intros Hw. rewrite land_top_byte by exact Hw.
  rewrite Z.shiftl_mul_pow2, Z.shiftr_div_pow2 by lia.
  destruct (w <? 2 ^ 24) eqn:E.
  - apply Z.ltb_lt in E. rewrite Z.div_small by lia. reflexivity.
  - apply Z.ltb_ge in E. apply Z.eqb_neq.
    assert (1 <= w / 2 ^ 24) by (apply Z.div_le_lower_bound; lia). lia.
Qed.

Lemma fill_chars (s : list Z) :
  Forall is_char s -> fill 4 s = (firstn 4 s, skipn 4 s).
Proof.
  intros H. unfold is_char in H.
  destruct s as [|a [|b [|c [|d r]]]]; cbn [fill firstn skipn]; try reflexivity;
  repeat match goal with H : Forall _ (_ :: _) |- _ => inversion H; subst; clear H end;
  repeat match goal with
         | H : 0 < ?x < 256 |- context [?x =? 0] =>
             replace (x =? 0) with false by (symmetry; apply Z.eqb_neq; lia)
         end; reflexivity.
Qed.

Lemma Forall_firstn_gen {A} (P : A -> Prop) (n : nat) (l : list A) :
  Forall P l -> Forall P (firstn n l).
Proof.
  revert l; induction n as [|n IH]; intros l H; [constructor|].
  destruct H; simpl; constructor; auto.
Qed.

Lemma chars_bytes (s : list Z) : Forall is_char s -> Forall is_byte s.
Proof.
  intros H. eapply Forall_impl; [|exact H]. unfold is_char, is_byte; intros; lia.
Qed.

Lemma add_string_loop_spec (fuel : nat) (s : list Z) (i : instruction) :
  Forall is_char s -> (List.length s < 4 * fuel)%nat ->
  exists ws k,
    operands (add_string_loop fuel s i) = operands i ++ ws /\ ws <> nil /\
    (1 <= k <= 4)%nat /\ bytes_of_words ws = s ++ repeat 0 k /\
    Forall (fun w => 0 <= w < 2 ^ 32) ws.
Proof.
  revert s i. induction fuel as [|f IH]; intros s i Hs Hl; [lia|].
  cbn [add_string_loop]. rewrite (fill_chars s Hs).
  pose proof (pack_le_bounds (firstn 4 s)
                (Forall_firstn_gen _ 4 _ (chars_bytes s Hs))) as Hw.
  destruct s as [|a [|b [|c [|d r]]]];
    cbn [firstn skipn List.length] in Hw |- *; cbn [List.length] in Hl;
    match type of Hw with
    | context [256 ^ ?e] => let v := eval vm_compute in (256 ^ e) in
                           change (256 ^ e) with v in Hw
    end.
  5: {
    inversion Hs as [|? ? Ha Hs1]; subst. inversion Hs1 as [|? ? Hb Hs2]; subst.
    inversion Hs2 as [|? ? Hc Hs3]; subst. inversion Hs3 as [|? ? Hd Hr]; subst.
    unfold is_char in Ha, Hb, Hc, Hd.
    rewrite land_top_byte_zero by lia.
    replace (pack_le [a; b; c; d] <? 2 ^ 24) with false
      by (symmetry; apply Z.ltb_ge; cbn [pack_le]; lia).
    rewrite orb_true_r.
    destruct (IH r (add i (pack_le [a; b; c; d])) Hr ltac:(lia))
      as (ws & k & Hops & Hne & Hk & Hbytes & Hrange).
    exists (pack_le [a; b; c; d] :: ws), k. repeat split.
    - rewrite Hops. cbn [add operands]. rewrite <- app_assoc. reflexivity.
    - discriminate.
    - lia.
    - lia.
    - cbn [bytes_of_words flat_map]. fold (bytes_of_words ws). rewrite Hbytes.
      rewrite word_bytes_pack by (repeat constructor; unfold is_byte; lia).
      reflexivity.
    - constructor; [lia | exact Hrange]. }
  all: rewrite land_top_byte_zero by lia.
  all: rewrite (proj2 (Z.ltb_lt _ (2 ^ 24))) by lia.
  all: cbn [not_at_nul orb negb].
  all: eexists [_], _; split; [reflexivity|]; split; [discriminate|].
  all: split; [|split; [|constructor; [lia|constructor]]].
  2,4,6,8: cbn [bytes_of_words flat_map]; rewrite app_nil_r;
       rewrite word_bytes_pack
         by (apply chars_bytes in Hs; cbn [firstn] in Hs |- *; assumption || simpl; lia);
       reflexivity.
  all: cbn [List.length Nat.sub]; lia.
Qed.

End SpirvFacts.
Module CodegenFacts.
Import Spirv Codegen.

Definition entry := (type * constant * Z)%type.

(** [m] only appends entries satisfying [P] to [_constant_lookup]. *)
Definition CL_grows (P : entry -> Prop) {A} (m : CG A) : Prop :=
  forall s, exists new, constant_lookup (snd (m s)) = constant_lookup s ++ new /\ Forall P new.

Lemma grows_ret P {A} (a : A) : CL_grows P (ret a).
Proof. intros s. exists []. rewrite app_nil_r. split; [reflexivity | constructor]. Qed.

Lemma grows_get P : CL_grows P get.
Proof. intros s. exists []. rewrite app_nil_r. split; [reflexivity | constructor]. Qed.

Lemma grows_bind P {A B} (m : CG A) (k : A -> CG B) :
  CL_grows P m -> (forall a, CL_grows P (k a)) -> CL_grows P (bind m k).
Proof.
  intros Hm Hk s. unfold bind. destruct (Hm s) as (n1 & E1 & F1).
  destruct (m s) as [a s1] eqn:Hs. cbn [snd] in E1.
  destruct (Hk a s1) as (n2 & E2 & F2).
  exists (n1 ++ n2). rewrite E2, E1, app_assoc. split; [reflexivity|].
  apply Forall_app; split; assumption.
Qed.

Lemma grows_add_instruction P o ty b ops : CL_grows P (add_instruction o ty b ops).
Proof. intros s. exists []. rewrite app_nil_r. split; [reflexivity | constructor]. Qed.

Lemma grows_push_type P info id : CL_grows P (push_type info id).
Proof. intros s. exists []. rewrite app_nil_r. split; [reflexivity | constructor]. Qed.

Lemma grows_push_constant (P : entry -> Prop) t d r :
  P (t, d, r) -> CL_grows P (push_constant t d r).
Proof. intros H s. exists [(t, d, r)]. split; [reflexivity | repeat constructor; exact H]. Qed.

Lemma grows_mapM P {A B} (f : A -> CG B) (l : list A) :
  (forall x, CL_grows P (f x)) -> CL_grows P (mapM f l).
Proof.
  intros Hf. induction l as [|x l IH]; cbn [mapM].
  - apply grows_ret.
  - apply grows_bind; [apply Hf|]. intros y.
    apply grows_bind; [exact IH|]. intros ys. apply grows_ret.
Qed.

Lemma grows_repeatM P {A} (n : nat) (c : CG A) :
  CL_grows P c -> CL_grows P (repeatM n c).
Proof.
  intros Hc. induction n as [|n IH]; cbn [repeatM].
  - apply grows_ret.
  - apply grows_bind; [exact Hc|]. intros x.
    apply grows_bind; [exact IH|]. intros xs. apply grows_ret.
Qed.

Lemma grows_weaken (P Q : entry -> Prop) {A} (m : CG A) :
  (forall e, P e -> Q e) -> CL_grows P m -> CL_grows Q m.
Proof.
  intros HPQ Hm s. destruct (Hm s) as (n & E & F). exists n.
  split; [exact E | eapply Forall_impl; [exact HPQ | exact F]].
Qed.

(** Nesting level of a constant type, following the dispatch of
    [emit_constant]. *)
Definition depth (t : type) : nat :=
  if is_array t then 3 else if is_struct t then 0
  else if is_matrix t then 2 else if is_vector t then 1 else 0.

Definition etype (e : entry) : type := fst (fst e).

Definition D0 (e : entry) : Prop := depth (etype e) = 0%nat.
Definition NoE (e : entry) : Prop := False.
Definition LE (t : type) (e : entry) : Prop := (depth (etype e) <= depth t)%nat.
Definition LT (t : type) (e : entry) : Prop := (depth (etype e) < depth t)%nat.

Ltac grows_tac :=
  repeat match goal with
  | |- CL_grows _ (bind _ _) => apply grows_bind; [|intro; cbv beta]
  | |- CL_grows _ (ret _) => apply grows_ret
  | |- CL_grows _ get => apply grows_get
  | |- CL_grows _ (add_instruction _ _ _ _) => apply grows_add_instruction
  | |- CL_grows _ (push_type _ _) => apply grows_push_type
  | |- CL_grows _ (mapM _ _) => apply grows_mapM; intro
  | |- CL_grows _ (repeatM _ _) => apply grows_repeatM
  | |- CL_grows _ (if ?b then _ else _) => destruct b eqn:?
  | |- CL_grows _ (match ?x with _ => _ end) => destruct x eqn:?
  end.

Lemma depth_not_array (t : type) : is_array t = false -> (depth t <= 2)%nat.
Proof.
  intros H. unfold depth. rewrite H.
  destruct (is_struct t), (is_matrix t), (is_vector t); lia.
Qed.

Lemma depth_array (t : type) : is_array t = true -> depth t = 3%nat.
Proof. intros H. unfold depth. rewrite H. reflexivity. Qed.

Lemma is_array_with_array_length0 (t : type) : is_array (with_array_length t 0) = false.
Proof. reflexivity. Qed.

Lemma is_array_with_rows_cols (t : type) r c : is_array (with_rows_cols t r c) = is_array t.
Proof. reflexivity. Qed.

Lemma is_ptr_with_rows_cols (t : type) r c : is_ptr (with_rows_cols t r c) = is_ptr t.
Proof. reflexivity. Qed.

Lemma depth_row_type (t : type) :
  is_array t = false -> (depth (with_rows_cols t (cols t) 1) <= 1)%nat.
Proof.
  intros Ha. unfold depth. rewrite is_array_with_rows_cols, Ha.
  assert (is_matrix (with_rows_cols t (cols t) 1) = false) as ->
    by (unfold is_matrix; cbn [cols with_rows_cols]; rewrite andb_false_r; reflexivity).
  repeat match goal with |- context [if ?b then _ else _] => destruct b end; lia.
Qed.

Lemma depth_scalar_of_vector (t : type) :
  is_array t = false -> is_vector t = true -> depth (with_rows_cols t 1 (cols t)) = 0%nat.
Proof.
  intros Ha Hv. unfold is_vector in Hv. apply andb_true_iff in Hv as [_ Hc].
  apply Z.eqb_eq in Hc.
  unfold depth. rewrite is_array_with_rows_cols, Ha.
  unfold is_matrix, is_vector. cbn [rows cols with_rows_cols]. rewrite Hc.
  change (1 <? 1) with false. rewrite !andb_false_r. cbn [andb].
  repeat match goal with |- context [if ?b then _ else _] => destruct b end; reflexivity.
Qed.

Lemma depth_matrix (t : type) :
  is_array t = false -> is_struct t = false -> is_matrix t = true -> depth t = 2%nat.
Proof. intros Ha Hs Hm. unfold depth. rewrite Ha, Hs, Hm. reflexivity. Qed.

Lemma depth_vector (t : type) :
  is_array t = false -> is_struct t = false -> is_matrix t = false -> is_vector t = true ->
  depth t = 1%nat.
Proof. intros Ha Hs Hm Hv. unfold depth. rewrite Ha, Hs, Hm, Hv. reflexivity. Qed.

Section Bodies.
Variable conv : type -> CG Z.
Variable emit : type -> constant -> CG Z.
Hypothesis conv_D0 : forall i, CL_grows D0 (conv i).
Hypothesis conv_NoE : forall i, is_array i = false -> is_ptr i = false -> CL_grows NoE (conv i).
Hypothesis emit_LE : forall t d, is_ptr t = false -> CL_grows (LE t) (emit t d).

Lemma convert_type_new_D0 (info : type) : CL_grows D0 (convert_type_new conv emit info).
Proof.
  unfold convert_type_new. grows_tac; try apply conv_D0.
  eapply grows_weaken; [|apply emit_LE; reflexivity].
  unfold LE, D0. intros e He. cbn in He. lia.
Qed.

Lemma convert_type_new_NoE (info : type) :
  is_array info = false -> is_ptr info = false ->
  CL_grows NoE (convert_type_new conv emit info).
Proof.
  intros Ha Hp. unfold convert_type_new. rewrite Hp, Ha.
  grows_tac; try (apply conv_NoE; reflexivity || (rewrite ?is_array_with_rows_cols,
                  ?is_ptr_with_rows_cols; assumption)).
Qed.

Lemma emit_constant_new_LT (t : type) (d : constant) :
  is_ptr t = false -> CL_grows (LT t) (emit_constant_new conv emit t d).
Proof.
  intros Hp. unfold emit_constant_new.
  destruct (is_array t) eqn:Ha.
  { pose proof (depth_not_array (with_array_length t 0) eq_refl) as Hel.
    grows_tac.
    - eapply grows_weaken; [|apply emit_LE; exact Hp].
      unfold LE, LT. intros e He. rewrite (depth_array t Ha). lia.
    - eapply grows_weaken; [|apply emit_LE; exact Hp].
      unfold LE, LT. intros e He. rewrite (depth_array t Ha). lia.
    - eapply grows_weaken; [|apply conv_D0].
      unfold D0, LT. intros e He. rewrite (depth_array t Ha). lia. }
  destruct (is_struct t) eqn:Hs.
  { grows_tac. eapply grows_weaken; [|apply conv_NoE; assumption].
    unfold NoE. tauto. }
  destruct (is_matrix t) eqn:Hm.
  { grows_tac.
    - eapply grows_weaken; [|apply emit_LE; rewrite is_ptr_with_rows_cols; exact Hp].
      pose proof (depth_row_type t Ha).
      unfold LE, LT. intros e He. rewrite (depth_matrix t Ha Hs Hm). lia.
    - eapply grows_weaken; [|apply conv_NoE; assumption]. unfold NoE. tauto. }
  destruct (is_vector t) eqn:Hv.
  { grows_tac.
    - eapply grows_weaken; [|apply emit_LE; rewrite is_ptr_with_rows_cols; exact Hp].
      unfold LE, LT. intros e He.
      rewrite (depth_scalar_of_vector t Ha Hv) in He. rewrite (depth_vector t Ha Hs Hm Hv). lia.
    - eapply grows_weaken; [|apply conv_NoE; assumption]. unfold NoE. tauto. }
  grows_tac; eapply grows_weaken; try (apply conv_NoE; assumption); unfold NoE; tauto.
Qed.

End Bodies.

Lemma fuel_grows (fuel : nat) :
  (forall i, CL_grows D0 (convert_type fuel i)) /\
  (forall i, is_array i = false -> is_ptr i = false -> CL_grows NoE (convert_type fuel i)) /\
  (forall t d, is_ptr t = false -> CL_grows (LE t) (emit_constant fuel t d)).
Proof.
  induction fuel as [|f (IH1 & IH2 & IH3)]; cbn [convert_type emit_constant].
  - repeat split; intros; apply grows_ret.
  - split; [|split].
    + intros i. grows_tac. apply convert_type_new_D0; assumption.
    + intros i Ha Hp. grows_tac. apply convert_type_new_NoE; assumption.
    + intros t d Hp. grows_tac.
      * eapply grows_weaken; [|apply emit_constant_new_LT; assumption].
        unfold LT, LE. intros; lia.
      * apply grows_push_constant. unfold LE, etype. cbn. lia.
Qed.

Lemma find_first_app {A} (p : A -> bool) (l1 l2 : list A) :
  find_first p (l1 ++ l2) =
  match find_first p l1 with Some x => Some x | None => find_first p l2 end.
Proof.
  induction l1 as [|x l1 IH]; [reflexivity|]. cbn. destruct (p x); [reflexivity | exact IH].
Qed.

Lemma find_first_none {A} (p : A -> bool) (l : list A) :
  Forall (fun x => p x = false) l -> find_first p l = None.
Proof. induction 1 as [|x l Hx _ IH]; cbn; [reflexivity | rewrite Hx; exact IH]. Qed.

Lemma base_eqb_eq (a b : base_t) : base_eqb a b = true -> a = b.
Proof. destruct a, b; cbn; congruence. Qed.

Lemma base_eqb_refl (a : base_t) : base_eqb a a = true.
Proof. destruct a; reflexivity. Qed.

Lemma type_eqb_refl (t : type) : type_eqb t t = true.
Proof.
  unfold type_eqb. rewrite base_eqb_refl, !Z.eqb_refl, eqb_reflx. reflexivity.
Qed.

Lemma type_eqb_depth (a b : type) : type_eqb a b = true -> depth a = depth b.
Proof.
  unfold type_eqb. intros H. repeat rewrite andb_true_iff in H.
  destruct H as (((((Hb & Hr) & Hc) & Hl) & _) & _).
  apply base_eqb_eq in Hb. apply Z.eqb_eq in Hr, Hc, Hl.
  unfold depth, is_array, is_struct, is_matrix, is_vector, is_numeric.
  rewrite Hb, Hr, Hc, Hl. reflexivity.
Qed.

Lemma lanes_eqb_refl (d : constant) : lanes_eqb d d = true.
Proof.
  unfold lanes_eqb. apply forallb_forall. intros i _. apply Z.eqb_refl.
Qed.

Lemma elems_eqb_refl (l : list constant) : elems_eqb l l = true.
Proof. induction l as [|x l IH]; cbn [elems_eqb]; [reflexivity | rewrite lanes_eqb_refl, IH; reflexivity]. Qed.

Lemma entry_self_match (t : type) (d : constant) (r : Z) :
  constant_entry_matches t d (t, d, r) = true.
Proof.
  unfold constant_entry_matches.
  rewrite type_eqb_refl, lanes_eqb_refl, Nat.eqb_refl, elems_eqb_refl. reflexivity.
Qed.

Lemma lanes_eqb_spec (a b : constant) :
  lanes_eqb a b = true <-> forall i, (i < 16)%nat -> lane a i = lane b i.
Proof.
  unfold lanes_eqb. rewrite forallb_forall.
  split; intros H i Hi.
  - apply Z.eqb_eq, H, in_seq. lia.
  - apply in_seq in Hi. apply Z.eqb_eq, H. lia.
Qed.

Lemma elems_eqb_spec (xs ys : list constant) :
  elems_eqb xs ys = true <->
  Forall2 (fun x y => forall i, (i < 16)%nat -> lane x i = lane y i) xs ys.
Proof.
  revert ys. induction xs as [|x xs IH]; intros [|y ys]; cbn [elems_eqb].
  - split; [constructor | reflexivity].
  - split; [discriminate | intros H; inversion H].
  - split; [discriminate | intros H; inversion H].
  - rewrite andb_true_iff, lanes_eqb_spec, IH. split.
    + intros [H1 H2]. constructor; assumption.
    + intros H. inversion H; subst. split; assumption.
Qed.

(** The [std::find_if] predicate of [emit_constant] is [spec_same_constant]. *)
Lemma entry_matches_spec (t : type) (d : constant) (t' : type) (d' : constant) (r : Z) :
  constant_entry_matches t d (t', d', r) = true <-> spec_same_constant t d t' d'.
Proof.
  unfold constant_entry_matches, spec_same_constant.
  rewrite !andb_true_iff, lanes_eqb_spec, Nat.eqb_eq, elems_eqb_spec. tauto.
Qed.

Lemma entry_match_depth (t : type) (d : constant) (e : entry) :
  constant_entry_matches t d e = true -> depth (etype e) = depth t.
Proof.
  destruct e as [[t' d'] r]. unfold constant_entry_matches.
  intros H. repeat rewrite andb_true_iff in H. destruct H as (((H & _) & _) & _).
  apply type_eqb_depth. exact H.
Qed.

(** The lookup step of [emit_constant]: a matching entry is returned and
    the state is left as it is. *)
Lemma emit_constant_hit (f : nat) (t : type) (d : constant) (s : state) (e : entry) :
  find_first (constant_entry_matches t d) (constant_lookup s) = Some e ->
  emit_constant (S f) t d s = (snd e, s).
Proof.
  intros H. cbn [emit_constant]. unfold bind, get. rewrite H.
  destruct e as [[t0 d0] id]. reflexivity.
Qed.

(** After a failed lookup, [emit_constant] appends entries of smaller depth
    followed by its own entry. *)
Lemma emit_constant_miss (f : nat) (t : type) (d : constant) (s : state) :
  is_ptr t = false ->
  find_first (constant_entry_matches t d) (constant_lookup s) = None ->
  exists mid,
    constant_lookup (snd (emit_constant (S f) t d s)) =
      constant_lookup s ++ mid ++ [(t, d, fst (emit_constant (S f) t d s))] /\
    Forall (LT t) mid.
Proof.
  intros Hp H. cbn [emit_constant]. unfold bind at 1, get. rewrite H.
  destruct (fuel_grows f) as (H1 & H2 & H3).
  destruct (emit_constant_new_LT (convert_type f) (emit_constant f) H1 H2 H3 t d Hp s)
    as (mid & Emid & Fmid).
  unfold bind. destruct (emit_constant_new (convert_type f) (emit_constant f) t d s)
    as [r s2] eqn:HN.
  cbn [snd] in Emid. exists mid. rewrite H, HN. cbn. rewrite Emid, <- app_assoc.
  split; [reflexivity | exact Fmid].
Qed.

(** One call of [define_uniform]: the new member's offset is the running
    offset aligned to the uniform's size, and the running offset moves to
    the end of the member. *)
Lemma define_uniform_step (info : uniform_info) (s : state) :
  global_ubo_offset (snd (define_uniform info s)) =
    (align (global_ubo_offset s) (uniform_size (u_type info))
     + uniform_size (u_type info)) mod 2 ^ 32 /\
  map u_offset (uniforms (snd (define_uniform info s))) =
    map u_offset (uniforms s) ++ [align (global_ubo_offset s) (uniform_size (u_type info))].
Proof.
  unfold define_uniform, add_member_decoration, add_instruction_without_result,
    append, make_id, bind, get, modify, ret.
  cbn. destruct (global_ubo_type s =? 0); cbn;
  destruct (global_ubo_variable s =? 0); cbn; rewrite ?map_app; split; reflexivity.
Qed.

End CodegenFacts.

Module LinkerFacts.
Import Linker.

Lemma list_set_nth {A} (l : list A) (k j : nat) (x : A) :
  (k < List.length l)%nat ->
  nth_error (list_set l k x) j = if Nat.eqb j k then Some x else nth_error l j.
Proof.
  revert k j. induction l as [|a l IH]; intros k j H; [cbn in H; lia|].
  destruct k as [|k], j as [|j]; try reflexivity.
  cbn in H. specialize (IH k j ltac:(lia)). unfold list_set in *.
  change (skipn (S (S k)) (a :: l)) with (skipn (S k) l).
  cbn [firstn app nth_error Nat.eqb]. exact IH.
Qed.

Lemma list_set_length {A} (l : list A) (k : nat) (x : A) :
  (k < List.length l)%nat -> List.length (list_set l k x) = List.length l.
Proof.
  revert k. induction l as [|a l IH]; intros k H; [cbn in H; lia|].
  destruct k as [|k]; [reflexivity|]. cbn in H. specialize (IH k ltac:(lia)).
  unfold list_set in *. change (skipn (S (S k)) (a :: l)) with (skipn (S k) l).
  cbn [firstn app List.length]. rewrite IH. reflexivity.
Qed.

Lemma grow_length {A} (n : nat) (d : A) (l : list A) :
  (List.length l <= n)%nat -> List.length (grow n d l) = n.
Proof. intros H. unfold grow. rewrite length_app, repeat_length. lia. Qed.

Lemma grow_set_nth {A} (l : list (option A)) (b : nat) (x : option A) :
  nth_error (list_set (grow (Nat.max (List.length l) (S b)) None l) b x) b = Some x.
Proof.
  rewrite list_set_nth, Nat.eqb_refl; [reflexivity|].
  rewrite grow_length; lia.
Qed.

Lemma assoc_find_app_none (k : Z) (l : list (Z * Z)) (v : Z) :
  assoc_find k l = None -> assoc_find k (l ++ [(k, v)]) = Some v.
Proof.
  unfold assoc_find. rewrite CodegenFacts.find_first_app.
  destruct (Codegen.find_first (fun p => fst p =? k) l) as [[k' v']|]; [discriminate|].
  intros _. cbn. rewrite Z.eqb_refl. reflexivity.
Qed.

(** [visit_sampler] when the descriptor hash is already in the cache: the
    cached sampler state is bound and nothing else but the bindings changes. *)
Lemma visit_sampler_hit (e : env) (info : sampler_info) (c : compiler)
    (existing : runtime_texture) (smp : Z) :
  find_texture (rt c) (si_texture_name info) = Some existing ->
  assoc_find (desc_hash (sampler_desc_bytes info)) (effect_sampler_states (rt c)) = Some smp ->
  rt (snd (visit_sampler e info c)) = rt c /\
  errors (snd (visit_sampler e info c)) = errors c /\
  nth_error (sampler_bindings (snd (visit_sampler e info c))) (si_binding info) = Some (Some smp).
Proof.
  intros H1 H2. cbv beta zeta iota delta [visit_sampler bind get]. rewrite H1.
  set (desc := sampler_desc_bytes info) in *. clearbody desc.
  set (h := desc_hash desc) in *. clearbody h. rewrite H2. cbn.
  split; [reflexivity | split; [reflexivity | apply grow_set_nth]].
Qed.

(** [visit_sampler] when the descriptor hash is not cached: either the
    creation fails and an error is reported, or the new sampler state is
    cached under the hash and bound. *)
Lemma visit_sampler_miss (e : env) (info : sampler_info) (c : compiler)
    (existing : runtime_texture) :
  find_texture (rt c) (si_texture_name info) = Some existing ->
  assoc_find (desc_hash (sampler_desc_bytes info)) (effect_sampler_states (rt c)) = None ->
  errors (snd (visit_sampler e info c)) <> errors c \/
  exists smp,
    textures (rt (snd (visit_sampler e info c))) = textures (rt c) /\
    effect_sampler_states (rt (snd (visit_sampler e info c))) =
      effect_sampler_states (rt c) ++ [(desc_hash (sampler_desc_bytes info), smp)] /\
    nth_error (sampler_bindings (snd (visit_sampler e info c))) (si_binding info) = Some (Some smp).
Proof.
  intros H1 H2. cbv beta zeta iota delta [visit_sampler bind get]. rewrite H1.
  set (desc := sampler_desc_bytes info) in *. clearbody desc.
  set (h := desc_hash desc) in *. clearbody h. rewrite H2.
  destruct (CreateSamplerState e desc) as [hr smp].
  destruct (FAILED hr).
  - left. cbn. intros E. apply (f_equal (@List.length message)) in E.
    rewrite length_app in E. cbn in E. lia.
  - right. exists smp. cbn. split; [reflexivity | split; [reflexivity | apply grow_set_nth]].
Qed.

Lemma bind_inv {S A B} (m : M S A) (k : A -> M S B) (s : S) (r : B * S) :
  bind m k s = r -> exists a s', m s = (a, s') /\ k a s' = r.
Proof. unfold bind. destruct (m s) as [a s']. intros H. exists a, s'. split; [reflexivity | exact H]. Qed.

Ltac destruct_match :=
  match goal with
  | |- context [match ?x with _ => _ end] => destruct x eqn:?
  end.

(** The technique list is only extended by [visit_technique] itself. *)
Definition keeps {A} (m : L A) : Prop :=
  forall c, techniques (rt (snd (m c))) = techniques (rt c).

Lemma keeps_ret {A} (a : A) : keeps (ret a).
Proof. intros c. reflexivity. Qed.
Lemma keeps_get : keeps get.
Proof. intros c. reflexivity. Qed.
Lemma keeps_bind {A B} (m : L A) (k : A -> L B) :
  keeps m -> (forall a, keeps (k a)) -> keeps (bind m k).
Proof.
  intros Hm Hk c. unfold bind. specialize (Hm c). destruct (m c) as [a c'].
  rewrite Hk. exact Hm.
Qed.
Lemma keeps_error (msg : string) : keeps (error msg).
Proof. intros c. reflexivity. Qed.
Lemma keeps_warning (msg : string) : keeps (warning msg).
Proof. intros c. reflexivity. Qed.
Lemma keeps_set_tex_data (name : string) (d : tex_data) : keeps (set_tex_data name d).
Proof. intros c. reflexivity. Qed.

Ltac keeps_tac :=
  repeat first
    [ apply keeps_bind; intros
    | apply keeps_ret | apply keeps_get | apply keeps_error | apply keeps_warning
    | apply keeps_set_tex_data | destruct_match ].

Lemma keeps_render_target_loop (e : env) (pi : pass_info) (ks : list nat) (p : pass) :
  keeps (render_target_loop e pi ks p).
Proof.
  revert p. induction ks as [|k ks IH]; intros p; cbn [render_target_loop];
    keeps_tac; try apply IH.
Qed.

Lemma keeps_visit_pass (e : env) (pi : pass_info) : keeps (visit_pass e pi).
Proof.
  unfold visit_pass. keeps_tac; try apply keeps_render_target_loop.
Qed.

Lemma keeps_pass_loop (e : env) (l : list pass_info) (acc : list pass) :
  keeps (pass_loop e l acc).
Proof.
  revert acc. induction l as [|pi l IH]; intros acc; cbn [pass_loop];
    keeps_tac; try apply keeps_render_target_loop; try apply IH.
Qed.

(** No shader resource of the pass shares its resource with a non-null
    render target of the pass. *)
Definition hazard_free (p : pass) : Prop :=
  forall v, In (Some v) (shader_resources p) ->
  forall r, In (Some r) (render_targets p) -> view_resource r <> view_resource v.

Lemma null_hazards_free (p : pass) : hazard_free (null_hazards p).
Proof.
  intros v Hv r Hr. cbn [null_hazards set_shader_resources shader_resources render_targets] in *.
  apply in_map_iff in Hv. destruct Hv as ([v'|] & E & _); [|discriminate].
  destruct (existsb (shares_resource v') (render_targets p)) eqn:X; [discriminate|].
  injection E as <-. intros Heq.
  assert (Hs : existsb (shares_resource v') (render_targets p) = true).
  { apply existsb_exists. exists (Some r). split; [exact Hr|]. cbn. rewrite Heq. apply Z.eqb_refl. }
  congruence.
Qed.

(** The render-target loop only writes the slots it visits, and keeps the
    eight slots. *)
Lemma render_target_loop_frame (e : env) (pi : pass_info) (ks : list nat) :
  forall p c p' c',
  render_target_loop e pi ks p c = (Some p', c') ->
  Forall (fun k => k < 8)%nat ks ->
  List.length (render_targets p) = 8%nat -> List.length (render_target_resources p) = 8%nat ->
  List.length (render_targets p') = 8%nat /\ List.length (render_target_resources p') = 8%nat /\
  forall j, ~ In j ks ->
    nth_error (render_targets p') j = nth_error (render_targets p) j /\
    nth_error (render_target_resources p') j = nth_error (render_target_resources p) j.
Proof.
  induction ks as [|k ks IH]; intros p c p' c' H Hks L1 L2.
  - cbn in H. injection H as <- _. split; [exact L1 | split; [exact L2 | auto]].
  - inversion Hks as [|k' ks' Hk Hks']; subst.
    cbn [render_target_loop] in H.
    destruct (String.eqb (nth k (pi_render_target_names pi) EmptyString) EmptyString).
    + destruct (IH p c p' c' H Hks' L1 L2) as (A & B & C).
      split; [exact A | split; [exact B|]]. intros j Hj. apply C. intros Hin; apply Hj; right; exact Hin.
    + apply bind_inv in H. destruct H as (c0 & c1 & Eg & H). injection Eg as <- <-.
      destruct (find_texture _ (nth k (pi_render_target_names pi) EmptyString)) as [tex|].
      2: { cbn in H. discriminate. }
      destruct (GetDesc e (texture (t_impl tex))) as [[[w h] format] n].
      match type of H with (if ?b then _ else _) _ = _ => destruct b end.
      { cbn in H. discriminate. }
      apply bind_inv in H. destruct H as (rk & c2 & _ & H).
      destruct (IH _ _ _ _ H Hks') as (A & B & C);
        cbn [set_render_target set_viewport render_targets render_target_resources];
        try (rewrite list_set_length; lia).
      split; [exact A | split; [exact B|]]. intros j Hj.
      destruct (C j (fun Hin => Hj (or_intror Hin))) as (C1 & C2).
      rewrite C1, C2. cbn [set_render_target set_viewport render_targets render_target_resources].
      rewrite !list_set_nth by (cbn [set_viewport render_targets render_target_resources]; lia).
      assert (Hjk : Nat.eqb j k = false) by (apply Nat.eqb_neq; intros ->; apply Hj; left; reflexivity).
      rewrite Hjk. split; reflexivity.
Qed.

(** A pass [visit_pass] returns is [null_hazards] applied to the result of
    the render-target loop, with its viewport and states filled in. *)
Lemma visit_pass_shape (e : env) (pi : pass_info) (c : compiler) (p : pass) (c' : compiler) :
  visit_pass e pi c = (Some p, c') ->
  exists p1 c1 q,
    render_target_loop e pi (seq 0 8) (initial_pass c pi) c = (Some p1, c1) /\
    p = null_hazards q /\
    render_targets q = render_targets p1 /\
    render_target_resources q = render_target_resources p1.
Proof.
  unfold visit_pass. intros H.
  apply bind_inv in H. destruct H as (c0 & c0' & Eg & H). injection Eg as E1 E2. subst c0 c0'.
  apply bind_inv in H. destruct H as (o & c1 & Er & H).
  destruct o as [p1|]; [|cbn in H; discriminate].
  exists p1, c1. cbv beta iota in H.
  apply bind_inv in H. destruct H as (c2 & c2' & _ & H). cbv beta zeta in H.
  destruct (CreateDepthStencilState e pi) as [hr ds].
  apply bind_inv in H. destruct H as (u & c3 & _ & H).
  destruct (CreateBlendState e pi) as [hr2 bs].
  apply bind_inv in H. destruct H as (u2 & c4 & _ & H).
  unfold ret in H. injection H as Hp _.
  eexists. split; [exact Er|]. split; [symmetry; exact Hp|].
  destruct ((viewport_width p1 =? 0) && (viewport_height p1 =? 0)); split; reflexivity.
Qed.

Lemma pass_loop_free (e : env) (l : list pass_info) :
  forall acc c ps c',
  pass_loop e l acc c = (Some ps, c') ->
  Forall hazard_free acc -> Forall hazard_free ps.
Proof.
  induction l as [|pi l IH]; intros acc c ps c' H Hacc.
  - cbn in H. injection H as <- _. exact Hacc.
  - cbn [pass_loop] in H. apply bind_inv in H. destruct H as (o & c1 & Ev & H).
    destruct o as [p|]; [|cbn in H; discriminate].
    apply (IH _ _ _ _ H). apply Forall_app. split; [exact Hacc|].
    constructor; [|constructor].
    destruct (visit_pass_shape e pi c p c1 Ev) as (p1 & c2 & q & _ & -> & _).
    apply null_hazards_free.
Qed.

(** Slot 0 after the render-target loop when the first name is empty: the
    later iterations leave the backbuffer views of [initial_pass] there. *)
Lemma render_target_loop_slot0_empty (e : env) (pi : pass_info) (c : compiler) (ks : list nat)
    (p1 : pass) (c1 : compiler) :
  Forall (fun k => k < 8)%nat ks -> ~ In 0%nat ks ->
  render_target_loop e pi (0%nat :: ks) (initial_pass c pi) c = (Some p1, c1) ->
  nth 0 (pi_render_target_names pi) EmptyString = EmptyString ->
  nth_error (render_targets p1) 0 =
    Some (pick (pi_srgb_write_enable pi) (backbuffer_rtv (rt c))) /\
  nth_error (render_target_resources p1) 0 =
    Some (pick (pi_srgb_write_enable pi) (backbuffer_texture_srv (rt c))).
Proof.
  intros Hks H0 Er He. cbn [render_target_loop] in Er. rewrite He in Er.
  cbn [String.eqb] in Er.
  destruct (render_target_loop_frame e pi _ _ _ _ _ Er Hks eq_refl eq_refl) as (_ & _ & F).
  destruct (F 0%nat H0) as (F1 & F2). rewrite F1, F2. split; reflexivity.
Qed.

(** Slot 0 after the render-target loop when the first name is not empty:
    the named texture's shader-resource view and the render-target view the
    first iteration took or created. *)
Lemma render_target_loop_slot0_named (e : env) (pi : pass_info) (c : compiler) (ks : list nat)
    (p1 : pass) (c1 : compiler) :
  Forall (fun k => k < 8)%nat ks -> ~ In 0%nat ks ->
  render_target_loop e pi (0%nat :: ks) (initial_pass c pi) c = (Some p1, c1) ->
  nth 0 (pi_render_target_names pi) EmptyString <> EmptyString ->
  exists tex,
    find_texture (rt c) (nth 0 (pi_render_target_names pi) EmptyString) = Some tex /\
    nth_error (render_target_resources p1) 0 =
      Some (pick (pi_srgb_write_enable pi) (srv (t_impl tex))) /\
    nth_error (render_targets p1) 0 =
      Some (match pick (pi_srgb_write_enable pi) (rtv (t_impl tex)) with
            | Some v => Some v
            | None =>
              let '(_, _, format, _) := GetDesc e (texture (t_impl tex)) in
              let (hr, v) := CreateRenderTargetView e (texture (t_impl tex))
                  (if pi_srgb_write_enable pi then make_format_srgb format
                   else make_format_normal format) in
              if FAILED hr then None else Some v
            end).
Proof.
  intros Hks H0 Er Hne. cbn [render_target_loop] in Er.
  apply String.eqb_neq in Hne. rewrite Hne in Er.
  apply bind_inv in Er. destruct Er as (c0 & c0' & Eg & Er).
  injection Eg as E1 E2. subst c0 c0'.
  destruct (find_texture (rt c) (nth 0 (pi_render_target_names pi) EmptyString))
    as [tex|] eqn:Ft; [|cbv beta iota delta [bind ret error modify] in Er; discriminate].
  exists tex. split; [reflexivity|].
  destruct (GetDesc e (texture (t_impl tex))) as [[[w h] format] n] eqn:G.
  match type of Er with (if ?b then _ else _) _ = _ => destruct b end.
  { cbv beta iota delta [bind ret error modify] in Er; discriminate. }
  apply bind_inv in Er. destruct Er as (rk & c2 & Erk & Er).
  assert (Hrk : nth_error (render_targets p1) 0 = Some rk /\
    nth_error (render_target_resources p1) 0 =
      Some (pick (pi_srgb_write_enable pi) (srv (t_impl tex)))).
  { assert (L1 : List.length (render_targets (set_render_target
        (set_viewport (initial_pass c pi) w h) 0 rk
        (pick (pi_srgb_write_enable pi) (srv (t_impl tex))))) = 8%nat) by reflexivity.
    assert (L2 : List.length (render_target_resources (set_render_target
        (set_viewport (initial_pass c pi) w h) 0 rk
        (pick (pi_srgb_write_enable pi) (srv (t_impl tex))))) = 8%nat) by reflexivity.
    destruct (render_target_loop_frame e pi _ _ _ _ _ Er Hks L1 L2) as (_ & _ & F).
    destruct (F 0%nat H0) as (F1 & F2). rewrite F1, F2. split; reflexivity. }
  destruct Hrk as (-> & ->). split; [reflexivity|]. f_equal.
  destruct (pick (pi_srgb_write_enable pi) (rtv (t_impl tex))) as [v|].
  - unfold ret in Erk. injection Erk as <- _. reflexivity.
  - destruct (CreateRenderTargetView e (texture (t_impl tex))
        (if pi_srgb_write_enable pi then make_format_srgb format
         else make_format_normal format)) as [hr v] eqn:Cr.
    destruct (FAILED hr); apply bind_inv in Erk;
      destruct Erk as (u & c3 & _ & Erk); unfold ret in Erk; injection Erk as <- _; reflexivity.
Qed.

End LinkerFacts.

(** Ids handed out by [make_id] stay below [_next_id]; [write_result] and the id bound. *)
Module IdBound.
Import Spirv Codegen.

(** The ids of an instruction are below [n]. *)
Definition below (n : Z) (i : instruction) : Prop := Forall (fun x => x < n) (instruction_ids i).

(** The invariant [make_id] keeps: every id the module holds, and every id
    the type and constant caches hand out, was allocated, so it is below
    [_next_id]; the counter starts at 1. *)
Definition Inv (s : state) : Prop :=
  1 <= next_id s /\
  Forall (below (next_id s)) (module_instructions s) /\
  Forall (fun e => snd e < next_id s) (type_lookup s) /\
  Forall (fun e => snd e < next_id s) (constant_lookup s).

(** The same invariant as a boolean test. *)
Definition ids_below (n : Z) (i : instruction) : bool :=
  forallb (fun x => x <? n) (instruction_ids i).
Definition ids_invariant (s : state) : bool :=
  (1 <=? next_id s) && forallb (ids_below (next_id s)) (module_instructions s) &&
  forallb (fun e => snd e <? next_id s) (type_lookup s) &&
  forallb (fun e => snd e <? next_id s) (constant_lookup s).

(** The pointer type [define_variable] converts for [$Globals]. *)
Definition globals_type (s : state) : type :=
  mk_type t_struct 0 0 q_uniform true false false 0 (global_ubo_type s).

(** A computation returning an id: from a state satisfying [Inv] whose
    counter is above [c], it keeps [Inv], does not lower the counter and
    returns an id below it. *)
Definition id_spec (c : Z) (m : CG Z) : Prop :=
  forall s r s', m s = (r, s') -> Inv s /\ c < next_id s ->
  Inv s' /\ next_id s <= next_id s' /\ r < next_id s'.

Definition ids_spec (c : Z) (m : CG (list Z)) : Prop :=
  forall s r s', m s = (r, s') -> Inv s /\ c < next_id s ->
  Inv s' /\ next_id s <= next_id s' /\ Forall (fun x => x < next_id s') r.

Lemma ids_invariant_Inv (s : state) : ids_invariant s = true -> Inv s.
Proof.
  unfold ids_invariant, Inv. rewrite !andb_true_iff. intros (((H1 & H2) & H3) & H4).
  apply Z.leb_le in H1. split; [exact H1|].
  rewrite forallb_forall in H2, H3, H4. rewrite !Forall_forall.
  split; [|split].
  - intros i Hi. specialize (H2 i Hi). unfold ids_below in H2. unfold below.
    rewrite Forall_forall. rewrite forallb_forall in H2. intros x Hx. apply Z.ltb_lt, H2, Hx.
  - intros e He. apply Z.ltb_lt, H3, He.
  - intros e He. apply Z.ltb_lt, H4, He.
Qed.

Lemma Inv_pos (s : state) : Inv s -> 1 <= next_id s.
Proof. intros H. apply H. Qed.

Lemma below_mk (n o t r : Z) (ops : list Z) :
  t < n -> r < n -> below n (mk_instruction o t r ops).
Proof.
  intros Ht Hr. unfold below, instruction_ids. cbn [Spirv.type result filter].
  destruct (negb (t =? 0)), (negb (r =? 0)); repeat constructor; assumption.
Qed.

Lemma below_mono (n n' : Z) (i : instruction) : n <= n' -> below n i -> below n' i.
Proof. intros Hn H. eapply Forall_impl; [|exact H]. cbv beta. intros x Hx. lia. Qed.

Lemma Inv_bump (s : state) (n : Z) : Inv s -> next_id s <= n -> Inv (set_next_id s n).
Proof.
  intros (H1 & H2 & H3 & H4) Hn. unfold Inv. cbn [set_next_id next_id type_lookup constant_lookup].
  change (module_instructions (set_next_id s n)) with (module_instructions s).
  split; [lia|]. split; [|split].
  - eapply Forall_impl; [|exact H2]. intros i. apply below_mono. exact Hn.
  - eapply Forall_impl; [|exact H3]. cbv beta. intros e He. lia.
  - eapply Forall_impl; [|exact H4]. cbv beta. intros e He. lia.
Qed.

Lemma module_sections (P : instruction -> Prop) (s : state) (b : section) :
  Forall P (module_instructions s) -> Forall P (get_section (secs s) b).
Proof. unfold module_instructions. rewrite !Forall_app. intros H. destruct b; cbn; tauto. Qed.

Lemma module_set_secs (P : instruction -> Prop) (s : state) (x : sections) :
  Forall P (module_instructions s) -> (forall b, Forall P (get_section x b)) ->
  Forall P (module_instructions (set_secs s x)).
Proof.
  unfold module_instructions. cbn [set_secs capabilities glsl_ext secs functions2].
  rewrite !Forall_app. intros H Hb.
  destruct H as (H1 & H2 & H3 & _ & _ & _ & _ & _ & _ & H10).
  repeat split; try assumption.
  - exact (Hb SEntries).
  - exact (Hb SDebugA).
  - exact (Hb SDebugB).
  - exact (Hb SAnnotations).
  - exact (Hb STypes).
  - exact (Hb SVariables).
Qed.

Lemma Forall_set_section (P : instruction -> Prop) (x : sections) (b : section) (l : list instruction) :
  (forall b', Forall P (get_section x b')) -> Forall P l ->
  forall b', Forall P (get_section (set_section x b l) b').
Proof.
  intros H Hl b'. destruct b, b'; cbn;
    first [exact Hl | exact (H SEntries) | exact (H SDebugA) | exact (H SDebugB)
          | exact (H SAnnotations) | exact (H STypes) | exact (H SVariables)].
Qed.

Lemma In_module (s : state) (b : section) (i : instruction) :
  In i (get_section (secs s) b) -> In i (module_instructions s).
Proof.
  unfold module_instructions. intros H. rewrite !in_app_iff.
  destruct b; cbn in H; tauto.
Qed.

Lemma append_spec (b : section) (i : instruction) (s : state) (u : unit) (s' : state) :
  append b i s = (u, s') -> Inv s -> below (next_id s) i ->
  Inv s' /\ next_id s' = next_id s /\ type_lookup s' = type_lookup s.
Proof.
  unfold append, modify. intros H. injection H as <- <-. intros (H1 & H2 & H3 & H4) Hi.
  split; [|split; reflexivity].
  unfold Inv. cbn [set_secs next_id type_lookup constant_lookup].
  split; [exact H1|]. split; [|split; assumption].
  apply module_set_secs; [exact H2|].
  apply Forall_set_section.
  - intros b'. apply module_sections. exact H2.
  - apply Forall_app. split; [apply module_sections; exact H2 | constructor; [exact Hi | constructor]].
Qed.

Lemma append_keeps (b : section) (i : instruction) (s : state) (u : unit) (s' : state)
    (b' : section) (j : instruction) :
  append b i s = (u, s') -> In j (get_section (secs s) b') -> In j (get_section (secs s') b').
Proof.
  unfold append, modify. intros H. injection H as <- <-. intros Hj.
  destruct b, b'; cbn in *; rewrite ?in_app_iff; tauto.
Qed.

Lemma without_result_spec (o : Z) (b : section) (ops : list Z) (s : state) (u : unit) (s' : state) :
  add_instruction_without_result o b ops s = (u, s') -> Inv s ->
  Inv s' /\ next_id s' = next_id s /\ type_lookup s' = type_lookup s.
Proof.
  intros H HI. eapply append_spec; [exact H | exact HI|].
  apply below_mk; apply Inv_pos in HI; lia.
Qed.

Lemma add_instruction_spec (o ty : Z) (b : section) (ops : list Z) (s : state) (r : Z) (s' : state) :
  add_instruction o ty b ops s = (r, s') -> Inv s -> ty < next_id s ->
  Inv s' /\ next_id s' = next_id s + 1 /\ r = next_id s /\ type_lookup s' = type_lookup s /\
  get_section (secs s') b = get_section (secs s) b ++ [mk_instruction o ty r ops].
Proof.
  unfold add_instruction, bind, make_id. intros H HI Ht.
  set (s1 := set_next_id s (next_id s + 1)) in H.
  destruct (append b (mk_instruction o ty (next_id s) ops) s1) as [u s2] eqn:Ea.
  unfold ret in H. injection H as <- <-.
  assert (HI1 : Inv s1) by (apply Inv_bump; [exact HI | lia]).
  destruct (append_spec _ _ _ _ _ Ea HI1) as (I2 & N2 & T2).
  { apply below_mk; cbn [s1 set_next_id next_id]; lia. }
  split; [exact I2|]. split; [rewrite N2; reflexivity|]. split; [reflexivity|].
  split; [exact T2|].
  unfold append, modify in Ea. injection Ea as _ <-.
  destruct b; reflexivity.
Qed.

Lemma push_type_spec (info : type) (id : Z) (s : state) (u : unit) (s' : state) :
  push_type info id s = (u, s') -> Inv s -> id < next_id s ->
  Inv s' /\ next_id s' = next_id s /\ type_lookup s' = type_lookup s ++ [(info, id)] /\
  secs s' = secs s.
Proof.
  unfold push_type, modify. intros H. injection H as <- <-. intros (H1 & H2 & H3 & H4) Hi.
  split; [|split; [|split]; reflexivity].
  unfold Inv. cbn [set_type_lookup next_id type_lookup constant_lookup].
  change (module_instructions (set_type_lookup s (type_lookup s ++ [(info, id)])))
    with (module_instructions s).
  split; [exact H1|]. split; [exact H2|]. split; [|exact H4].
  apply Forall_app. split; [exact H3 | constructor; [exact Hi | constructor]].
Qed.

Lemma push_constant_spec (t : type) (d : constant) (id : Z) (s : state) (u : unit) (s' : state) :
  push_constant t d id s = (u, s') -> Inv s -> id < next_id s ->
  Inv s' /\ next_id s' = next_id s.
Proof.
  unfold push_constant, modify. intros H. injection H as <- <-. intros (H1 & H2 & H3 & H4) Hi.
  split; [|reflexivity].
  unfold Inv. cbn [set_constant_lookup next_id type_lookup constant_lookup].
  change (module_instructions (set_constant_lookup s (constant_lookup s ++ [(t, d, id)])))
    with (module_instructions s).
  split; [exact H1|]. split; [exact H2|]. split; [exact H3|].
  apply Forall_app. split; [exact H4 | constructor; [exact Hi | constructor]].
Qed.

Lemma find_first_in {A} (p : A -> bool) (l : list A) (x : A) :
  find_first p l = Some x -> In x l.
Proof.
  induction l as [|y l IH]; cbn; [discriminate|].
  destruct (p y); [intros H; injection H as <-; left; reflexivity | intros H; right; exact (IH H)].
Qed.


(** A specification of a computation under [Inv]: started above [c], it
    keeps [Inv], does not lower the counter, and its result is bounded by
    the counter through [bnd]. *)
Definition spec {A} (bnd : A -> Z) (c : Z) (m : CG A) : Prop :=
  forall s, Inv s -> c < next_id s ->
  Inv (snd (m s)) /\ next_id s <= next_id (snd (m s)) /\ bnd (fst (m s)) < next_id (snd (m s)).

Definition bid (r : Z) : Z := r.
Definition bunit (u : unit) : Z := 0.

Lemma spec_bind {A B} (bA : A -> Z) (bB : B -> Z) (c : Z) (m : CG A) (k : A -> CG B) :
  spec bA c m -> (forall a, spec bB (Z.max c (bA a)) (k a)) -> spec bB c (bind m k).
Proof.
  intros Hm Hk s HI Hc. unfold bind.
  destruct (Hm s HI Hc) as (I1 & N1 & B1).
  destruct (m s) as [a s1]. cbn [fst snd] in *.
  destruct (Hk a s1 I1 ltac:(lia)) as (I2 & N2 & B2).
  split; [exact I2|]. split; [lia | exact B2].
Qed.

Lemma spec_ret {A} (b : A -> Z) (c : Z) (a : A) : b a <= Z.max 0 c -> spec b c (ret a).
Proof.
  intros Hb s HI Hc. pose proof (Inv_pos s HI). unfold ret; cbn [fst snd].
  split; [exact HI | lia].
Qed.

Lemma spec_weaken {A} (b : A -> Z) (c c' : Z) (m : CG A) : c' <= c -> spec b c' m -> spec b c m.
Proof. intros Hc Hm s HI Hs. apply Hm; [exact HI | lia]. Qed.

Lemma spec_add_instruction (o ty : Z) (b : section) (ops : list Z) (c : Z) :
  ty <= Z.max 0 c -> spec bid c (add_instruction o ty b ops).
Proof.
  intros Ht s HI Hc. pose proof (Inv_pos s HI).
  destruct (add_instruction o ty b ops s) as [r s'] eqn:E. cbn [fst snd].
  destruct (add_instruction_spec o ty b ops s r s' E HI ltac:(lia)) as (I' & N' & R' & _).
  unfold bid. split; [exact I' | lia].
Qed.

Lemma spec_without_result (o : Z) (b : section) (ops : list Z) (c : Z) :
  spec bunit c (add_instruction_without_result o b ops).
Proof.
  intros s HI Hc. pose proof (Inv_pos s HI).
  destruct (add_instruction_without_result o b ops s) as [u s'] eqn:E. cbn [fst snd].
  destruct (without_result_spec o b ops s u s' E HI) as (I' & N' & _).
  unfold bunit. split; [exact I' | lia].
Qed.

Lemma spec_append (b : section) (i : instruction) (c : Z) :
  Spirv.type i <= Z.max 0 c -> result i <= Z.max 0 c -> spec bunit c (append b i).
Proof.
  intros Ht Hr s HI Hc. pose proof (Inv_pos s HI).
  destruct (append b i s) as [u s'] eqn:E. cbn [fst snd].
  destruct (append_spec b i s u s' E HI) as (I' & N' & _).
  { destruct i as [o t r ops]. apply below_mk; cbn in *; lia. }
  unfold bunit. split; [exact I' | lia].
Qed.

Lemma spec_push_type (info : type) (id c : Z) :
  id <= Z.max 0 c -> spec bunit c (push_type info id).
Proof.
  intros Hi s HI Hc. pose proof (Inv_pos s HI).
  destruct (push_type info id s) as [u s'] eqn:E. cbn [fst snd].
  destruct (push_type_spec info id s u s' E HI ltac:(lia)) as (I' & N' & _).
  unfold bunit. split; [exact I' | lia].
Qed.

Lemma spec_push_constant (t : type) (d : constant) (id c : Z) :
  id <= Z.max 0 c -> spec bunit c (push_constant t d id).
Proof.
  intros Hi s HI Hc. pose proof (Inv_pos s HI).
  destruct (push_constant t d id s) as [u s'] eqn:E. cbn [fst snd].
  destruct (push_constant_spec t d id s u s' E HI ltac:(lia)) as (I' & N').
  unfold bunit. split; [exact I' | lia].
Qed.

Lemma spec_mapM {A} (f : A -> CG Z) (l : list A) (c : Z) :
  (forall x, In x l -> spec bid c (f x)) -> spec max_id c (mapM f l).
Proof.
  intros Hf. induction l as [|x l IH]; cbn [mapM].
  - apply spec_ret. cbn. lia.
  - apply spec_bind with (bA := bid); [apply Hf; left; reflexivity|]. intros y.
    apply spec_bind with (bA := max_id).
    { eapply spec_weaken; [|apply IH; intros z Hz; apply Hf; right; exact Hz]; lia. }
    intros ys.
    apply spec_ret. unfold bid. cbn [max_id fold_right]. fold (max_id ys). lia.
Qed.

Lemma spec_mapM_unit {A} (f : A -> CG unit) (l : list A) (c : Z) :
  (forall x, spec bunit c (f x)) -> spec (fun _ => 0) c (mapM f l).
Proof.
  intros Hf. induction l as [|x l IH]; cbn [mapM].
  - apply spec_ret. lia.
  - apply spec_bind with (bA := bunit); [apply Hf|]. intros y.
    apply spec_bind with (bA := fun _ => 0); [eapply spec_weaken; [|exact IH]; lia|]. intros ys.
    apply spec_ret. lia.
Qed.

Lemma spec_repeatM (n : nat) (m : CG Z) (c : Z) :
  spec bid c m -> spec max_id c (repeatM n m).
Proof.
  intros Hm. induction n as [|n IH]; cbn [repeatM].
  - apply spec_ret. cbn. lia.
  - apply spec_bind with (bA := bid); [exact Hm|]. intros y.
    apply spec_bind with (bA := max_id); [eapply spec_weaken; [|exact IH]; lia|]. intros ys.
    apply spec_ret. unfold bid. cbn [max_id fold_right]. fold (max_id ys). lia.
Qed.

Lemma max_id_nonneg (l : list Z) : 0 <= max_id l.
Proof. induction l as [|x l IH]; cbn [max_id fold_right]; [lia|]. fold (max_id l). lia. Qed.

Lemma max_id_app (l1 l2 : list Z) : max_id (l1 ++ l2) = Z.max (max_id l1) (max_id l2).
Proof.
  induction l1 as [|x l IH]; cbn [max_id fold_right app].
  - pose proof (max_id_nonneg l2). fold (max_id l2). lia.
  - fold (max_id l). fold (max_id (l ++ l2)). rewrite IH. lia.
Qed.

Lemma nth0_le_max (l : list Z) : nth 0 l 0 <= max_id l.
Proof. destruct l as [|x l]; cbn; [lia|]. fold (max_id l). lia. Qed.

Lemma max_id_Forall (l : list Z) (n : Z) : 0 < n -> max_id l < n -> Forall (fun x => x < n) l.
Proof.
  intros Hn. induction l as [|x l IH]; cbn [max_id fold_right]; [constructor|].
  fold (max_id l). intros H. constructor; [lia | apply IH; lia].
Qed.

Lemma Forall_max_id (l : list Z) (n : Z) : 0 < n -> Forall (fun x => x < n) l -> max_id l < n.
Proof.
  intros Hn. induction 1 as [|x l Hx _ IH]; cbn [max_id fold_right]; [lia|].
  fold (max_id l). lia.
Qed.

(** Walks a computation built with [bind]. *)
Ltac spec_step :=
  match goal with
  | |- spec _ _ (bind (add_instruction _ _ _ _) _) =>
      apply spec_bind with (bA := bid); [apply spec_add_instruction; cbn [definition scalar_type]; lia|];
      intro; cbv beta
  | |- spec _ _ (bind (push_type _ _) _) =>
      apply spec_bind with (bA := bunit); [apply spec_push_type; unfold bid in *; lia|];
      intro; cbv beta
  | |- spec _ _ (bind (push_constant _ _ _) _) =>
      apply spec_bind with (bA := bunit); [apply spec_push_constant; unfold bid in *; lia|];
      intro; cbv beta
  | |- spec _ _ (add_instruction _ _ _ _) =>
      apply spec_add_instruction; unfold bid, bunit in *; lia
  | |- spec _ _ (ret _) => apply spec_ret; unfold bid, bunit in *; lia
  | |- spec _ _ (if ?b then _ else _) => destruct b
  | |- spec _ _ (bind (if ?b then _ else _) _) => destruct b
  | |- spec _ _ (bind (bind _ _) _) => apply spec_bind with (bA := bid); [|intro; cbv beta]
  | |- spec _ _ (bind (ret _) _) => apply spec_bind with (bA := bid); [|intro; cbv beta]
  | |- spec _ _ (match ?x with _ => _ end) => destruct x
  end.

Section Bodies.
Variable conv : type -> CG Z.
Variable emit : type -> constant -> CG Z.
Hypothesis conv_spec : forall i, spec bid (definition i) (conv i).
Hypothesis emit_spec : forall t d, spec bid (definition t) (emit t d).

Lemma conv_at (i : type) (c : Z) : definition i <= Z.max 0 c -> spec bid c (conv i).
Proof.
  intros H s HI Hc. pose proof (Inv_pos s HI). apply conv_spec; [exact HI | lia].
Qed.

Lemma emit_at (t : type) (d : constant) (c : Z) :
  definition t <= Z.max 0 c -> spec bid c (emit t d).
Proof.
  intros H s HI Hc. pose proof (Inv_pos s HI). apply emit_spec; [exact HI | lia].
Qed.

Ltac body_step :=
  first
  [ spec_step
  | match goal with
    | |- spec _ _ (bind (conv _) _) =>
        apply spec_bind with (bA := bid);
        [apply conv_at; cbn [definition with_array_length with_rows_cols strip_ptr scalar_type]; lia|];
        intro; cbv beta
    | |- spec _ _ (bind (emit _ _) _) =>
        apply spec_bind with (bA := bid);
        [apply emit_at; cbn [definition with_array_length with_rows_cols strip_ptr scalar_type]; lia|];
        intro; cbv beta
    | |- spec _ _ (bind (mapM _ _) _) =>
        apply spec_bind with (bA := max_id);
        [apply spec_mapM; intros; apply emit_at;
         cbn [definition with_array_length with_rows_cols strip_ptr scalar_type]; lia|];
        intro; cbv beta
    | |- spec _ _ (bind (repeatM _ _) _) =>
        apply spec_bind with (bA := max_id);
        [apply spec_repeatM; apply emit_at;
         cbn [definition with_array_length with_rows_cols strip_ptr scalar_type]; lia|];
        intro; cbv beta
    end ].

Lemma convert_type_new_spec (info : type) :
  spec bid (definition info) (convert_type_new conv emit info).
Proof.
  unfold convert_type_new. repeat body_step.
Qed.

Lemma emit_constant_new_spec (t : type) (d : constant) :
  spec bid (definition t) (emit_constant_new conv emit t d).
Proof.
  unfold emit_constant_new. repeat body_step.
  apply spec_ret. match goal with |- context [nth 0 ?l 0] => pose proof (nth0_le_max l) end.
  unfold bid. lia.
Qed.

End Bodies.

Lemma bind_get_eq {A} (k : state -> CG A) (s : state) : bind get k s = k s s.
Proof. reflexivity. Qed.

Lemma spec_bind_get {A} (b : A -> Z) (c : Z) (k : state -> CG A) :
  (forall s0, spec b c (k s0)) -> spec b c (bind get k).
Proof. intros Hk s HI Hc. rewrite bind_get_eq. exact (Hk s s HI Hc). Qed.

Lemma convert_type_S (f : nat) (info : type) :
  convert_type (S f) info =
  s <- get ;;
  match find_first (type_entry_matches info) (type_lookup s) with
  | Some (_, id) => ret id
  | None => convert_type_new (convert_type f) (emit_constant f) info
  end.
Proof. reflexivity. Qed.

Lemma emit_constant_S (f : nat) (t : type) (d : constant) :
  emit_constant (S f) t d =
  s <- get ;;
  match find_first (constant_entry_matches t d) (constant_lookup s) with
  | Some (_, id) => ret id
  | None =>
    result <- emit_constant_new (convert_type f) (emit_constant f) t d ;;
    push_constant t d result ;;
    ret result
  end.
Proof. reflexivity. Qed.

Lemma find_first_lookup_bound (s : state) (p : type * Z -> bool) (t0 : type) (id : Z) :
  Inv s -> find_first p (type_lookup s) = Some (t0, id) -> id < next_id s.
Proof.
  intros (_ & _ & H3 & _) F. apply find_first_in in F.
  rewrite Forall_forall in H3. exact (H3 _ F).
Qed.

Lemma find_first_constant_bound (s : state) (p : type * constant * Z -> bool) (e : type * constant)
    (id : Z) :
  Inv s -> find_first p (constant_lookup s) = Some (e, id) -> id < next_id s.
Proof.
  intros (_ & _ & _ & H4) F. apply find_first_in in F.
  rewrite Forall_forall in H4. exact (H4 _ F).
Qed.

(** Both conversions keep the invariant at every fuel. *)
Lemma fuel_spec (f : nat) :
  (forall i, spec bid (definition i) (convert_type f i)) /\
  (forall t d, spec bid (definition t) (emit_constant f t d)).
Proof.
  induction f as [|f (IH1 & IH2)].
  - split; intros; apply spec_ret; unfold bid; lia.
  - split.
    + intros i s HI Hc. rewrite convert_type_S, bind_get_eq.
      destruct (find_first (type_entry_matches i) (type_lookup s)) as [[t0 id]|] eqn:F.
      * pose proof (find_first_lookup_bound s _ t0 id HI F).
        unfold ret, bid; cbn [fst snd]. split; [exact HI | lia].
      * exact (convert_type_new_spec _ _ IH1 IH2 i s HI Hc).
    + intros t d s HI Hc. rewrite emit_constant_S, bind_get_eq.
      destruct (find_first (constant_entry_matches t d) (constant_lookup s)) as [[e id]|] eqn:F.
      * pose proof (find_first_constant_bound s _ e id HI F).
        unfold ret, bid; cbn [fst snd]. split; [exact HI | lia].
      * refine (spec_bind bid bid (definition t) _ _
          (emit_constant_new_spec _ _ IH1 IH2 t d) _ s HI Hc).
        intros r. repeat spec_step.
Qed.

(** [m] only appends entries for non-pointer types to [_type_lookup]. *)
Definition NP (e : type * Z) : Prop := is_ptr (fst e) = false.

Definition TL_grows {A} (m : CG A) : Prop :=
  forall s, exists new, type_lookup (snd (m s)) = type_lookup s ++ new /\ Forall NP new.

Lemma tl_same {A} (m : CG A) : (forall s, type_lookup (snd (m s)) = type_lookup s) -> TL_grows m.
Proof. intros H s. exists []. rewrite app_nil_r. split; [apply H | constructor]. Qed.

Lemma tl_ret {A} (a : A) : TL_grows (ret a).
Proof. apply tl_same. reflexivity. Qed.

Lemma tl_get : TL_grows get.
Proof. apply tl_same. reflexivity. Qed.

Lemma tl_bind {A B} (m : CG A) (k : A -> CG B) :
  TL_grows m -> (forall a, TL_grows (k a)) -> TL_grows (bind m k).
Proof.
  intros Hm Hk s. unfold bind. destruct (Hm s) as (n1 & E1 & F1).
  destruct (m s) as [a s1]. cbn [snd] in E1.
  destruct (Hk a s1) as (n2 & E2 & F2).
  exists (n1 ++ n2). rewrite E2, E1, app_assoc. split; [reflexivity|].
  apply Forall_app; split; assumption.
Qed.

Lemma tl_append b i : TL_grows (append b i).
Proof. apply tl_same. reflexivity. Qed.

Lemma tl_add_instruction o ty b ops : TL_grows (add_instruction o ty b ops).
Proof. apply tl_same. reflexivity. Qed.

Lemma tl_without_result o b ops : TL_grows (add_instruction_without_result o b ops).
Proof. apply tl_same. reflexivity. Qed.

Lemma tl_push_constant t d r : TL_grows (push_constant t d r).
Proof. apply tl_same. reflexivity. Qed.

Lemma tl_push_type info id : is_ptr info = false -> TL_grows (push_type info id).
Proof. intros H s. exists [(info, id)]. split; [reflexivity | repeat constructor; exact H]. Qed.

Lemma tl_mapM {A B} (f : A -> CG B) (l : list A) :
  (forall x, TL_grows (f x)) -> TL_grows (mapM f l).
Proof.
  intros Hf. induction l as [|x l IH]; cbn [mapM]; [apply tl_ret|].
  apply tl_bind; [apply Hf|]. intros y. apply tl_bind; [exact IH|]. intros ys. apply tl_ret.
Qed.

Lemma tl_repeatM {A} (n : nat) (c : CG A) : TL_grows c -> TL_grows (repeatM n c).
Proof.
  intros Hc. induction n as [|n IH]; cbn [repeatM]; [apply tl_ret|].
  apply tl_bind; [exact Hc|]. intros x. apply tl_bind; [exact IH|]. intros xs. apply tl_ret.
Qed.

Ltac tl_tac :=
  repeat match goal with
  | |- TL_grows (bind _ _) => apply tl_bind; [|intro; cbv beta]
  | |- TL_grows (ret _) => apply tl_ret
  | |- TL_grows get => apply tl_get
  | |- TL_grows (add_instruction _ _ _ _) => apply tl_add_instruction
  | |- TL_grows (add_instruction_without_result _ _ _) => apply tl_without_result
  | |- TL_grows (append _ _) => apply tl_append
  | |- TL_grows (push_constant _ _ _) => apply tl_push_constant
  | |- TL_grows (push_type _ _) => apply tl_push_type; assumption
  | |- TL_grows (mapM _ _) => apply tl_mapM; intro
  | |- TL_grows (repeatM _ _) => apply tl_repeatM
  | |- TL_grows (if ?b then _ else _) => destruct b eqn:?
  | |- TL_grows (match ?x with _ => _ end) => destruct x eqn:?
  end.

Section NonPointer.
Variable conv : type -> CG Z.
Variable emit : type -> constant -> CG Z.
Hypothesis conv_np : forall i, is_ptr i = false -> TL_grows (conv i).
Hypothesis emit_np : forall t d, is_ptr t = false -> TL_grows (emit t d).

Lemma convert_type_new_np (info : type) :
  is_ptr info = false -> TL_grows (convert_type_new conv emit info).
Proof.
  intros Hp. unfold convert_type_new. rewrite Hp.
  tl_tac; first [apply conv_np | apply emit_np]; cbn [is_ptr with_array_length with_rows_cols scalar_type];
  first [exact Hp | reflexivity].
Qed.

Lemma emit_constant_new_np (t : type) (d : constant) :
  is_ptr t = false -> TL_grows (emit_constant_new conv emit t d).
Proof.
  intros Hp. unfold emit_constant_new.
  tl_tac; first [apply conv_np | apply emit_np]; cbn [is_ptr with_array_length with_rows_cols scalar_type];
  first [exact Hp | reflexivity].
Qed.

End NonPointer.

Lemma fuel_np (f : nat) :
  (forall i, is_ptr i = false -> TL_grows (convert_type f i)) /\
  (forall t d, is_ptr t = false -> TL_grows (emit_constant f t d)).
Proof.
  induction f as [|f (IH1 & IH2)]; [split; intros; apply tl_ret|].
  split.
  - intros i Hp. rewrite convert_type_S. tl_tac. apply convert_type_new_np; assumption.
  - intros t d Hp. rewrite emit_constant_S. tl_tac. apply emit_constant_new_np; assumption.
Qed.

Lemma entry_match_ptr (info : type) (e : type * Z) :
  is_ptr info = true -> NP e -> type_entry_matches info e = false.
Proof.
  intros Hi He. unfold NP in He. unfold type_entry_matches, type_eqb. rewrite Hi, He.
  cbn [Bool.eqb]. rewrite !andb_false_r. reflexivity.
Qed.

Lemma tl_lookup_none {A} (m : CG A) (info : type) (s : state) :
  TL_grows m -> is_ptr info = true ->
  find_first (type_entry_matches info) (type_lookup s) = None ->
  find_first (type_entry_matches info) (type_lookup (snd (m s))) = None.
Proof.
  intros Hm Hi F. destruct (Hm s) as (n & E & Fn). rewrite E, CodegenFacts.find_first_app, F.
  apply CodegenFacts.find_first_none. eapply Forall_impl; [|exact Fn].
  intros e He. apply entry_match_ptr; assumption.
Qed.

Lemma Forall_firstn {A} (P : A -> Prop) (n : nat) (l : list A) : Forall P l -> Forall P (firstn n l).
Proof.
  revert l. induction n as [|n IH]; intros l H; [constructor|].
  destruct H as [|x l Hx H]; cbn; constructor; [exact Hx | exact (IH l H)].
Qed.

Lemma Forall_skipn {A} (P : A -> Prop) (n : nat) (l : list A) : Forall P l -> Forall P (skipn n l).
Proof.
  revert l. induction n as [|n IH]; intros l H; [exact H|].
  destruct H as [|x l Hx H]; cbn; [constructor | exact (IH l H)].
Qed.

Lemma spec_set_operands_at (b : section) (n : nat) (ops : list Z) (c : Z) :
  spec bunit c (set_operands_at b n ops).
Proof.
  intros s HI Hc. pose proof (Inv_pos s HI). unfold set_operands_at, modify. cbn [fst snd].
  unfold bunit. split; [|cbn [set_secs next_id]; lia].
  destruct HI as (H1 & H2 & H3 & H4). unfold Inv.
  cbn [set_secs next_id type_lookup constant_lookup].
  split; [exact H1|]. split; [|split; assumption].
  apply module_set_secs; [exact H2|].
  apply Forall_set_section; [intros b'; apply module_sections; exact H2|].
  pose proof (module_sections _ s b H2) as Hb.
  apply Forall_app. split; [apply Forall_firstn; exact Hb|].
  apply Forall_app. split; [|apply Forall_skipn; exact Hb].
  destruct (nth_error (get_section (secs s) b) n) as [i|] eqn:E; [|constructor].
  apply nth_error_In in E. rewrite Forall_forall in Hb. specialize (Hb i E).
  constructor; [|constructor]. destruct i as [o t r ops0]. exact Hb.
Qed.

Lemma spec_modify_structs (f : state -> list struct_info) (c : Z) :
  spec bunit c (modify (fun s => set_structs s (f s))).
Proof.
  intros s HI Hc. pose proof (Inv_pos s HI). unfold modify, bunit. cbn [fst snd].
  split; [|cbn [set_structs next_id]; lia].
  exact HI.
Qed.

Lemma spec_define_struct (info : struct_info) (c : Z) :
  s_definition info <= Z.max 0 c ->
  Forall (fun m => definition (fst m) <= Z.max 0 c) (s_member_list info) ->
  spec bid c (define_struct info).
Proof.
  intros Hd Hm. unfold define_struct.
  apply spec_bind with (bA := bunit); [apply spec_modify_structs|]. intros u.
  apply spec_weaken with (c' := c); [lia|].
  apply spec_bind_get. intros s0. cbv zeta.
  apply spec_bind with (bA := bunit); [apply spec_append; cbn; lia|]. intros u1.
  apply spec_bind with (bA := max_id).
  { apply spec_mapM. intros m Hin. rewrite Forall_forall in Hm. specialize (Hm m Hin).
    intros s HI Hc. pose proof (Inv_pos s HI).
    apply (proj1 (fuel_spec type_fuel)); [exact HI | lia]. }
  intros ms.
  apply spec_bind with (bA := bunit); [apply spec_set_operands_at|]. intros u2.
  apply spec_bind with (bA := bunit).
  { destruct (String.eqb (s_unique_name info) EmptyString);
      [apply spec_ret; unfold bunit; lia | apply spec_without_result]. }
  intros u3.
  apply spec_bind with (bA := fun _ => 0).
  { apply spec_mapM_unit. intros x. apply spec_without_result. }
  intros u4. apply spec_ret. unfold bid. lia.
Qed.

Lemma tl_define_struct (info : struct_info) :
  Forall (fun m => is_ptr (fst m) = false) (s_member_list info) ->
  TL_grows (define_struct info).
Proof.
  intros Hm. unfold define_struct.
  apply tl_bind; [apply tl_same; reflexivity|]. intros u.
  apply tl_bind; [apply tl_get|]. intros s0. cbv zeta.
  apply tl_bind; [apply tl_append|]. intros u1.
  apply tl_bind.
  { clear u u1 s0. induction Hm as [|m l Hx Hl IH]; cbn [mapM]; [apply tl_ret|].
    apply tl_bind; [apply (proj1 (fuel_np type_fuel)); exact Hx|]. intros y.
    apply tl_bind; [exact IH|]. intros ys. apply tl_ret. }
  intros ms.
  apply tl_bind; [apply tl_same; reflexivity|]. intros u2.
  apply tl_bind; [destruct (String.eqb _ _); [apply tl_ret | apply tl_without_result]|]. intros u3.
  apply tl_bind; [apply tl_mapM; intros; apply tl_without_result|]. intros u4.
  apply tl_ret.
Qed.

Lemma append_next_id (b : section) (i : instruction) (s : state) :
  next_id (snd (append b i s)) = next_id s.
Proof. reflexivity. Qed.

Lemma append_keeps' (b : section) (i : instruction) (s : state) (b' : section) (j : instruction) :
  In j (get_section (secs s) b') -> In j (get_section (secs (snd (append b i s))) b').
Proof.
  destruct (append b i s) as [u s'] eqn:E. cbn [snd]. apply (append_keeps b i s u s' b' j E).
Qed.

Lemma In_le_max_id (l : list Z) (x : Z) : In x l -> x <= max_id l.
Proof.
  induction l as [|y l IH]; [intros []|]. cbn [max_id fold_right]. fold (max_id l).
  intros [<- | H]; [lia | specialize (IH H); lia].
Qed.

Lemma max_id_top (l : list Z) (n : Z) :
  1 <= n -> Forall (fun x => x < n) l -> In (n - 1) l -> max_id l = n - 1.
Proof.
  intros Hn HF Hin. pose proof (Forall_max_id l n ltac:(lia) HF).
  pose proof (In_le_max_id l (n - 1) Hin). lia.
Qed.

Lemma bind_step {A B} (m : CG A) (k : A -> CG B) (s : state) (a : A) (s1 : state) :
  m s = (a, s1) -> bind m k s = k a s1.
Proof. intros H. unfold bind. rewrite H. reflexivity. Qed.

Lemma module_ids_below (s : state) : Inv s -> Forall (fun x => x < next_id s) (module_ids s).
Proof.
  intros (_ & H2 & _ & _). unfold module_ids. rewrite Forall_forall in *.
  intros x Hx. apply in_flat_map in Hx as (i & Hi & Hx).
  specialize (H2 i Hi). unfold below in H2. rewrite Forall_forall in H2. exact (H2 x Hx).
Qed.

Lemma In_module_ids (s : state) (b : section) (o t r : Z) (ops : list Z) :
  r <> 0 -> In (mk_instruction o t r ops) (get_section (secs s) b) -> In r (module_ids s).
Proof.
  intros Hr Hin. unfold module_ids. apply in_flat_map.
  exists (mk_instruction o t r ops). split; [exact (In_module s b _ Hin)|].
  unfold instruction_ids. cbn [Spirv.type result filter].
  rewrite (proj2 (Z.eqb_neq r 0) Hr). cbn [negb].
  destruct (negb (t =? 0)); [right|]; left; reflexivity.
Qed.

(** [create_global_ubo] from a state satisfying [Inv]: the last id it
    allocates is the one of the [OpTypePointer] of [$Globals], which lands
    in the types section; [Inv] still holds afterwards. *)
Lemma create_global_ubo_last (s : state) :
  Inv s -> global_ubo_type s < next_id s -> global_ubo_variable s < next_id s ->
  Forall (fun u => definition (u_type u) < next_id s /\ is_ptr (u_type u) = false) (uniforms s) ->
  find_first (type_entry_matches (globals_type s)) (type_lookup s) = None ->
  Inv (snd (create_global_ubo s)) /\ 1 <= next_id (snd (create_global_ubo s)) /\
  In (next_id (snd (create_global_ubo s)) - 1) (module_ids (snd (create_global_ubo s))).
Proof.
  intros HI Ht Hv Hu F. pose proof (Inv_pos s HI) as P0.
  unfold create_global_ubo. rewrite bind_get_eq. cbv zeta.
  set (info := mk_struct_info EmptyString (global_ubo_type s)
                 (map (fun u => (u_type u, u_name u)) (uniforms s))).
  (* [define_struct] *)
  destruct (define_struct info s) as [r1 s1] eqn:E1. rewrite (bind_step _ _ _ _ _ E1).
  assert (Hs1 : Inv s1 /\ next_id s <= next_id s1).
  { assert (Hsp : spec bid (next_id s - 1) (define_struct info)).
    { apply spec_define_struct; [cbn; lia|].
      cbn [s_member_list info]. rewrite Forall_map.
      eapply Forall_impl; [|exact Hu]. cbv beta. intros u [Hd _]. cbn [fst]. lia. }
    destruct (Hsp s HI ltac:(lia)) as (I1 & N1 & _). rewrite E1 in I1, N1. split; assumption. }
  assert (F1 : find_first (type_entry_matches (globals_type s)) (type_lookup s1) = None).
  { assert (Htl : TL_grows (define_struct info)).
    { apply tl_define_struct. cbn [s_member_list info]. rewrite Forall_map.
      eapply Forall_impl; [|exact Hu]. cbv beta. intros u [_ Hp]. exact Hp. }
    pose proof (tl_lookup_none _ (globals_type s) s Htl eq_refl F) as H. rewrite E1 in H. exact H. }
  destruct Hs1 as (I1 & N1).
  (* the three decorations *)
  unfold add_decoration.
  destruct (add_instruction_without_result OpDecorate SAnnotations
              ([global_ubo_type s; DecorationBlock] ++ []) s1) as [r2 s2] eqn:E2.
  rewrite (bind_step _ _ _ _ _ E2).
  destruct (without_result_spec _ _ _ _ _ _ E2 I1) as (I2 & N2 & T2).
  destruct (add_instruction_without_result OpDecorate SAnnotations
              ([global_ubo_type s; DecorationBinding] ++ [0]) s2) as [r3 s3] eqn:E3.
  rewrite (bind_step _ _ _ _ _ E3).
  destruct (without_result_spec _ _ _ _ _ _ E3 I2) as (I3 & N3 & T3).
  destruct (add_instruction_without_result OpDecorate SAnnotations
              ([global_ubo_type s; DecorationDescriptorSet] ++ [0]) s3) as [r4 s4] eqn:E4.
  rewrite (bind_step _ _ _ _ _ E4).
  destruct (without_result_spec _ _ _ _ _ _ E4 I3) as (I4 & N4 & T4).
  assert (F4 : find_first (type_entry_matches (globals_type s)) (type_lookup s4) = None)
    by (rewrite T4, T3, T2; exact F1).
  (* [define_variable]: the pointer type is converted first *)
  unfold define_global_variable.
  destruct (convert_type type_fuel (globals_type s) s4) as [ty s5] eqn:E5.
  fold (globals_type s). rewrite (bind_step _ _ _ _ _ E5).
  change type_fuel with (S 9) in E5. rewrite convert_type_S, bind_get_eq, F4 in E5.
  unfold convert_type_new in E5. change (is_ptr (globals_type s)) with true in E5.
  cbv beta iota in E5.
  apply LinkerFacts.bind_inv in E5 as (e1 & sa & Ea & E5).
  cbv beta zeta in E5.
  apply LinkerFacts.bind_inv in E5 as (p & sb & Eb & E5).
  apply LinkerFacts.bind_inv in E5 as (u & sc & Ec & E5).
  unfold ret in E5. injection E5 as <- <-.
  assert (Hsa : Inv sa /\ next_id s4 <= next_id sa).
  { pose proof (proj1 (fuel_spec 9) (strip_ptr (globals_type s)) s4 I4) as H.
    rewrite Ea in H. destruct H as (Ia & Na & _); [cbn; lia | split; assumption]. }
  destruct Hsa as (Ia & Na).
  destruct (add_instruction_spec _ _ _ _ _ _ _ Eb Ia ltac:(lia)) as (Ib & Nb & -> & _ & Sb).
  destruct (push_type_spec _ _ _ _ _ Ec Ib ltac:(lia)) as (Ic & Nc & _ & Sc).
  (* the [OpVariable] and its name *)
  destruct (append SVariables (mk_instruction OpVariable (next_id sa) (global_ubo_variable s)
             (StorageClassUniform :: (if 0 =? 0 then [] else [0]))) sc) as [u6 s6] eqn:E6.
  rewrite (bind_step _ _ _ _ _ E6).
  change (String.eqb globals_name EmptyString) with false. cbv iota.
  destruct (append_spec _ _ _ _ _ E6 Ic) as (I6 & N6 & _).
  { apply below_mk; lia. }
  destruct (add_name (global_ubo_variable s) globals_name s6) as [u7 s7] eqn:E7. cbn [snd].
  unfold add_name in E7.
  destruct (without_result_spec _ _ _ _ _ _ E7 I6) as (I7 & N7 & _).
  split; [exact I7|]. split; [lia|].
  replace (next_id s7 - 1) with (next_id sa) by lia.
  apply (In_module_ids s7 STypes OpTypePointer 0 (next_id sa)
           [StorageClassUniform; e1]); [lia|].
  unfold add_instruction_without_result in E7.
  apply (append_keeps _ _ _ _ _ _ _ E7).
  apply (append_keeps _ _ _ _ _ _ _ E6).
  rewrite Sc, Sb. apply in_or_app. right. left. reflexivity.
Qed.

End IdBound.

(** ** C9: [visit_sampler] on an unknown texture *)

(** C9: when the sampler's texture name is not in the runtime's texture
    registry, [visit_sampler] returns at once and the linker state (runtime,
    bindings, failure flag and messages) is left exactly as it was. *)
Theorem visit_sampler_missing_texture (e : Linker.env) (info : Linker.sampler_info)
    (c : Linker.compiler) :
  Linker.find_texture (Linker.rt c) (Linker.si_texture_name info) = None ->
  Linker.visit_sampler e info c = (tt, c).
Proof.
  intros H. unfold Linker.visit_sampler, bind, get. rewrite H. reflexivity.
Qed.

Lemma visit_sampler_missing_texture_witness :
  Linker.find_texture (Linker.rt Examples.compiler0)
    (Linker.si_texture_name (Examples.sampler_on "U" 0)) = None /\
  Linker.visit_sampler Examples.ok_dev (Examples.sampler_on "U" 0) Examples.compiler0
    = (tt, Examples.compiler0).
Proof.
  split; [reflexivity|]. apply visit_sampler_missing_texture. reflexivity.
Defined.

(** ** C4: [visit_texture] on a name already registered *)

(** C4 (amended): when the unique name is already registered, [visit_texture]
    never adds a texture; it reports the dimension mismatch error (and clears
    the success flag) only when the declaration has no semantic and one of
    width, height, levels or format differs, and otherwise changes nothing. *)
Theorem visit_texture_existing (e : Linker.env) (info : Linker.texture_info)
    (c : Linker.compiler) (existing : Linker.runtime_texture) :
  Linker.find_texture (Linker.rt c) (Linker.ti_unique_name info) = Some existing ->
  Linker.rt (snd (Linker.visit_texture e info c)) = Linker.rt c /\
  (if String.eqb (Linker.ti_semantic info) EmptyString && Linker.dimensions_differ existing info
   then Linker.success (snd (Linker.visit_texture e info c)) = false /\
        Linker.errors (snd (Linker.visit_texture e info c)) =
          Linker.errors c ++ [Linker.Error (Linker.t_effect_filename existing
                                              ++ Linker.dimension_mismatch_text)]
   else snd (Linker.visit_texture e info c) = c).
Proof.
  intros H. unfold Linker.visit_texture, bind, get. rewrite H.
  destruct (String.eqb (Linker.ti_semantic info) EmptyString && Linker.dimensions_differ existing info).
  - cbn. split; [reflexivity | split; reflexivity].
  - cbn. split; reflexivity.
Qed.

Lemma visit_texture_existing_witness :
  Linker.find_texture (Linker.rt Examples.compiler0)
    (Linker.ti_unique_name (Examples.texture_decl "T" EmptyString 32 64)) = Some Examples.T_tex /\
  Linker.success (snd (Linker.visit_texture Examples.ok_dev (Examples.texture_decl "T" EmptyString 32 64)
                         Examples.compiler0)) = false.
Proof.
  assert (H : Linker.find_texture (Linker.rt Examples.compiler0)
                (Linker.ti_unique_name (Examples.texture_decl "T" EmptyString 32 64)) = Some Examples.T_tex)
    by reflexivity.
  split; [exact H|].
  destruct (visit_texture_existing Examples.ok_dev _ _ _ H) as [_ H2].
  exact (proj1 H2).
Defined.

(** C4 counterexample: [T] is registered as 64x64; a redeclaration of [T]
    as 32x64 with the semantic [COLOR] has different dimensions, yet it
    reports no error, leaves the success flag set and changes nothing. *)
Lemma visit_texture_semantic_mismatch_no_error :
  Linker.find_texture (Linker.rt Examples.compiler0) "T" = Some Examples.T_tex /\
  Linker.dimensions_differ Examples.T_tex (Examples.texture_decl "T" "COLOR" 32 64) = true /\
  snd (Linker.visit_texture Examples.ok_dev (Examples.texture_decl "T" "COLOR" 32 64)
         Examples.compiler0) = Examples.compiler0 /\
  Linker.success Examples.compiler0 = true /\ Linker.errors Examples.compiler0 = [].
Proof. repeat split; vm_compute; reflexivity. Defined.

(** ** C2: the sampler-state cache of [visit_sampler] *)

(** C2 (amended): the cache key is [desc_hash] of the 52 descriptor bytes,
    the fold [h := (h * 16777619) XOR byte] over a 64-bit [size_t] from
    2166136261; once a sampler has been bound without error, a second sampler
    with byte-identical descriptor (on a registered texture) binds the same
    cached sampler-state object and allocates no new one. *)
Theorem visit_sampler_shares_state (e : Linker.env) (info1 info2 : Linker.sampler_info)
    (c : Linker.compiler) :
  Linker.find_texture (Linker.rt c) (Linker.si_texture_name info1) <> None ->
  Linker.errors (snd (Linker.visit_sampler e info1 c)) = Linker.errors c ->
  Linker.find_texture (Linker.rt (snd (Linker.visit_sampler e info1 c)))
    (Linker.si_texture_name info2) <> None ->
  Linker.sampler_desc_bytes info1 = Linker.sampler_desc_bytes info2 ->
  exists smp,
    Linker.assoc_find (Linker.desc_hash (Linker.sampler_desc_bytes info1))
      (Linker.effect_sampler_states (Linker.rt (snd (Linker.visit_sampler e info1 c))))
      = Some smp /\
    nth_error (Linker.sampler_bindings (snd (Linker.visit_sampler e info1 c)))
      (Linker.si_binding info1) = Some (Some smp) /\
    Linker.effect_sampler_states
      (Linker.rt (snd (Linker.visit_sampler e info2 (snd (Linker.visit_sampler e info1 c))))) =
      Linker.effect_sampler_states (Linker.rt (snd (Linker.visit_sampler e info1 c))) /\
    nth_error (Linker.sampler_bindings
                 (snd (Linker.visit_sampler e info2 (snd (Linker.visit_sampler e info1 c)))))
      (Linker.si_binding info2) = Some (Some smp).
Proof.
  intros T1 Herr T2 Hd.
  destruct (Linker.find_texture (Linker.rt c) (Linker.si_texture_name info1))
    as [ex1|] eqn:F1; [|contradiction].
  assert (Hc1 : exists smp,
             Linker.assoc_find (Linker.desc_hash (Linker.sampler_desc_bytes info1))
               (Linker.effect_sampler_states (Linker.rt (snd (Linker.visit_sampler e info1 c))))
               = Some smp /\
             nth_error (Linker.sampler_bindings (snd (Linker.visit_sampler e info1 c)))
               (Linker.si_binding info1) = Some (Some smp)).
  { destruct (Linker.assoc_find (Linker.desc_hash (Linker.sampler_desc_bytes info1))
                (Linker.effect_sampler_states (Linker.rt c))) as [smp|] eqn:A1.
    - destruct (LinkerFacts.visit_sampler_hit e info1 c ex1 smp F1 A1) as (R & _ & B).
      exists smp. rewrite R. split; assumption.
    - destruct (LinkerFacts.visit_sampler_miss e info1 c ex1 F1 A1)
        as [Hne | (smp & _ & S & B)]; [contradiction|].
      exists smp. rewrite S. split; [apply LinkerFacts.assoc_find_app_none; exact A1 | exact B]. }
  destruct Hc1 as (smp & A & B). exists smp. split; [exact A|]. split; [exact B|].
  set (c1 := snd (Linker.visit_sampler e info1 c)) in *.
  destruct (Linker.find_texture (Linker.rt c1) (Linker.si_texture_name info2))
    as [ex2|] eqn:F2; [|contradiction].
  rewrite Hd in A.
  destruct (LinkerFacts.visit_sampler_hit e info2 c1 ex2 smp F2 A) as (R & _ & B2).
  rewrite R. split; [reflexivity | exact B2].
Qed.

Lemma visit_sampler_shares_state_witness :
  exists smp,
    Linker.assoc_find (Linker.desc_hash (Linker.sampler_desc_bytes (Examples.sampler_on "T" 0)))
      (Linker.effect_sampler_states
         (Linker.rt (snd (Linker.visit_sampler Examples.ok_dev (Examples.sampler_on "T" 0)
                            Examples.compiler0)))) = Some smp /\
    nth_error (Linker.sampler_bindings
                 (snd (Linker.visit_sampler Examples.ok_dev (Examples.sampler_on "T" 0)
                         Examples.compiler0))) 0 = Some (Some smp) /\
    Linker.effect_sampler_states
      (Linker.rt (snd (Linker.visit_sampler Examples.ok_dev (Examples.sampler_on "T" 1)
                         (snd (Linker.visit_sampler Examples.ok_dev (Examples.sampler_on "T" 0)
                                 Examples.compiler0))))) =
      Linker.effect_sampler_states
        (Linker.rt (snd (Linker.visit_sampler Examples.ok_dev (Examples.sampler_on "T" 0)
                           Examples.compiler0))) /\
    nth_error (Linker.sampler_bindings
                 (snd (Linker.visit_sampler Examples.ok_dev (Examples.sampler_on "T" 1)
                         (snd (Linker.visit_sampler Examples.ok_dev (Examples.sampler_on "T" 0)
                                 Examples.compiler0))))) 1 = Some (Some smp).
Proof.
  apply (visit_sampler_shares_state Examples.ok_dev (Examples.sampler_on "T" 0)
           (Examples.sampler_on "T" 1) Examples.compiler0);
    vm_compute; first [reflexivity | discriminate].
Defined.

(** C2 counterexample: for a linear-filtered sampler on [T], the key under
    which [visit_sampler] caches the new sampler state is [desc_hash] of the
    descriptor, whose low 32 bits differ from the FNV-1a 32-bit hash of the
    same bytes. *)
Lemma sampler_key_not_fnv1a_32 :
  Linker.effect_sampler_states
    (Linker.rt (snd (Linker.visit_sampler Examples.ok_dev (Examples.sampler_on "T" 0)
                       Examples.compiler0))) =
    [(Linker.desc_hash (Linker.sampler_desc_bytes (Examples.sampler_on "T" 0)), 400)] /\
  Linker.desc_hash (Linker.sampler_desc_bytes (Examples.sampler_on "T" 0)) mod 2 ^ 32 <>
    Examples.fnv1a_32_spec (Linker.sampler_desc_bytes (Examples.sampler_on "T" 0)).
Proof. split; vm_compute; [reflexivity | discriminate]. Defined.

(** ** C5: read/write hazards in [visit_technique] *)

(** C5: after [visit_technique], every technique it added to the runtime has
    only passes in which no non-null shader resource shares its underlying
    resource with a non-null render target of the same pass; techniques that
    were there before are untouched. *)
Theorem visit_technique_no_hazards (e : Linker.env) (info : Linker.technique_info)
    (c : Linker.compiler) (t : Linker.technique) :
  In t (Linker.techniques (Linker.rt (snd (Linker.visit_technique e info c)))) ->
  In t (Linker.techniques (Linker.rt c)) \/
  forall p, In p (Linker.tech_passes t) ->
  forall v, In (Some v) (Linker.shader_resources p) ->
  forall r, In (Some r) (Linker.render_targets p) ->
  Linker.view_resource r <> Linker.view_resource v.
Proof.
  intros Ht.
  destruct (Linker.pass_loop e (Linker.tq_passes info) [] c) as [o c1] eqn:E.
  pose proof (LinkerFacts.keeps_pass_loop e (Linker.tq_passes info) [] c) as K.
  rewrite E in K. cbn [snd] in K.
  cbv beta iota zeta delta [Linker.visit_technique bind get] in Ht. rewrite E in Ht.
  destruct o as [ps|].
  - cbn in Ht. rewrite K in Ht. apply in_app_or in Ht. destruct Ht as [Ht | Ht]; [left; exact Ht|].
    right. destruct Ht as [<- | []]. cbn [Linker.tech_passes].
    intros p Hp. pose proof (LinkerFacts.pass_loop_free e _ [] c ps c1 E (Forall_nil _)) as F.
    rewrite Forall_forall in F. exact (F p Hp).
  - left. cbn in Ht. rewrite K in Ht. exact Ht.
Qed.

Lemma visit_technique_no_hazards_witness :
  let c' := snd (Linker.visit_technique Examples.ok_dev Examples.technique_writing_T
                   Examples.compiler_sampled) in
  let t := last (Linker.techniques (Linker.rt c')) (Linker.mk_technique EmptyString [] []) in
  In t (Linker.techniques (Linker.rt c')) /\
  (In t (Linker.techniques (Linker.rt Examples.compiler_sampled)) \/
   forall p, In p (Linker.tech_passes t) ->
   forall v, In (Some v) (Linker.shader_resources p) ->
   forall r, In (Some r) (Linker.render_targets p) ->
   Linker.view_resource r <> Linker.view_resource v).
Proof.
  intros c' t.
  assert (H : In t (Linker.techniques (Linker.rt c'))) by (vm_compute; left; reflexivity).
  split; [exact H | exact (visit_technique_no_hazards _ _ _ t H)].
Defined.

(** ** C10: render-target slot 0 of a pass *)

(** C10: in every pass [visit_pass] builds, slot 0 holds the backbuffer
    render-target view and backbuffer shader-resource view chosen by the
    pass's [srgb_write_enable] flag when the first render-target name is
    empty; when that name is not empty, slot 0 holds the named texture's
    shader-resource view and its render-target view (the cached one, or the
    one created for the pass, null if the creation failed). *)
Theorem visit_pass_slot0 (e : Linker.env) (pi : Linker.pass_info) (c : Linker.compiler)
    (p : Linker.pass) (c' : Linker.compiler) :
  Linker.visit_pass e pi c = (Some p, c') ->
  (nth 0 (Linker.pi_render_target_names pi) EmptyString = EmptyString ->
   nth_error (Linker.render_targets p) 0 =
     Some (Linker.pick (Linker.pi_srgb_write_enable pi) (Linker.backbuffer_rtv (Linker.rt c))) /\
   nth_error (Linker.render_target_resources p) 0 =
     Some (Linker.pick (Linker.pi_srgb_write_enable pi)
             (Linker.backbuffer_texture_srv (Linker.rt c)))) /\
  (nth 0 (Linker.pi_render_target_names pi) EmptyString <> EmptyString ->
   exists tex,
     Linker.find_texture (Linker.rt c) (nth 0 (Linker.pi_render_target_names pi) EmptyString)
       = Some tex /\
     nth_error (Linker.render_target_resources p) 0 =
       Some (Linker.pick (Linker.pi_srgb_write_enable pi) (Linker.srv (Linker.t_impl tex))) /\
     nth_error (Linker.render_targets p) 0 =
       Some (match Linker.pick (Linker.pi_srgb_write_enable pi) (Linker.rtv (Linker.t_impl tex)) with
             | Some v => Some v
             | None =>
               let '(_, _, format, _) := Linker.GetDesc e (Linker.texture (Linker.t_impl tex)) in
               let (hr, v) := Linker.CreateRenderTargetView e (Linker.texture (Linker.t_impl tex))
                   (if Linker.pi_srgb_write_enable pi then Linker.make_format_srgb format
                    else Linker.make_format_normal format) in
               if Linker.FAILED hr then None else Some v
             end)).
Proof.
  intros H. destruct (LinkerFacts.visit_pass_shape e pi c p c' H)
    as (p1 & c1 & q & Er & -> & Eq1 & Eq2).
  cbn [Linker.null_hazards Linker.set_shader_resources Linker.render_targets
       Linker.render_target_resources]. rewrite Eq1, Eq2.
  assert (Hks : Forall (fun k => k < 8)%nat (seq 1 7)) by (repeat constructor; lia).
  assert (H0 : ~ In 0%nat (seq 1 7)) by (cbn; intuition discriminate).
  split.
  - exact (LinkerFacts.render_target_loop_slot0_empty e pi c _ p1 c1 Hks H0 Er).
  - exact (LinkerFacts.render_target_loop_slot0_named e pi c _ p1 c1 Hks H0 Er).
Qed.

Lemma visit_pass_slot0_witness :
  let pi := Examples.pass_to (repeat EmptyString 8) true in
  let r := Linker.visit_pass Examples.ok_dev pi Examples.compiler0 in
  let p := match fst r with Some p => p | None => Examples.empty_pass end in
  Linker.visit_pass Examples.ok_dev pi Examples.compiler0 = (Some p, snd r) /\
  nth_error (Linker.render_targets p) 0 =
    Some (Linker.pick true (Linker.backbuffer_rtv (Linker.rt Examples.compiler0))) /\
  nth_error (Linker.render_target_resources p) 0 =
    Some (Linker.pick true (Linker.backbuffer_texture_srv (Linker.rt Examples.compiler0))).
Proof.
  intros pi r p.
  assert (H : Linker.visit_pass Examples.ok_dev pi Examples.compiler0 = (Some p, snd r))
    by (vm_compute; reflexivity).
  split; [exact H|].
  exact (proj1 (visit_pass_slot0 _ _ _ _ _ H) eq_refl).
Defined.

(** ** C8: [spirv_instruction::add_string] *)

Lemma length_bytes_of_words (ws : list Z) :
  List.length (Spirv.bytes_of_words ws) = (4 * List.length ws)%nat.
Proof.
  induction ws as [|w ws IH]; [reflexivity|].
  unfold Spirv.bytes_of_words in *. cbn [flat_map]. rewrite length_app, IH.
  cbn [Spirv.word_bytes List.length]. lia.
Qed.

(** C8: for every NUL-terminated string [s] (its bytes, all non-zero),
    [add_string] appends a non-empty list of 32-bit words whose bytes, read
    little-endian four per word, are [s] followed by [k] NUL bytes with
    [1 <= k <= 4]; so the encoding always holds a NUL and is a whole number
    of words. *)
Theorem add_string_packs (i : Spirv.instruction) (s : list Z) :
  Forall SpirvFacts.is_char s ->
  exists ws k,
    Spirv.operands (Spirv.add_string i s) = Spirv.operands i ++ ws /\
    ws <> nil /\ (1 <= k <= 4)%nat /\
    Spirv.bytes_of_words ws = s ++ repeat 0 k /\
    (List.length s + k = 4 * List.length ws)%nat /\
    Forall (fun w => 0 <= w < 2 ^ 32) ws.
Proof.
  intros Hs. unfold Spirv.add_string.
  destruct (SpirvFacts.add_string_loop_spec (S (List.length s)) s i Hs ltac:(lia))
    as (ws & k & H1 & H2 & H3 & H4 & H5).
  exists ws, k. repeat split; try assumption; try lia.
  rewrite <- length_bytes_of_words, H4, length_app, repeat_length. reflexivity.
Qed.

Lemma add_string_packs_witness :
  Forall SpirvFacts.is_char [97; 98; 99; 100] /\
  exists ws k,
    Spirv.operands (Spirv.add_string (Spirv.instr0 0) [97; 98; 99; 100]) = [] ++ ws /\
    ws <> nil /\ (1 <= k <= 4)%nat /\
    Spirv.bytes_of_words ws = [97; 98; 99; 100] ++ repeat 0 k /\
    (List.length [97; 98; 99; 100] + k = 4 * List.length ws)%nat /\
    Forall (fun w => 0 <= w < 2 ^ 32) ws.
Proof.
  assert (H : Forall SpirvFacts.is_char [97; 98; 99; 100])
    by (repeat constructor; unfold SpirvFacts.is_char; lia).
  split; [exact H|]. exact (add_string_packs (Spirv.instr0 0) _ H).
Defined.

(** ** C1: [codegen_spirv::define_uniform] and [align] *)

(** C1 (amended): starting from an empty uniform block, the sequence
    [float a; float3 b; float c] gets the member offsets 0, 16 and 32, and
    the running block offset ends at 36: the size of [float3] is taken as 16
    bytes, so [c] is placed after a 16-byte [b]. *)
Theorem abc_block_layout (s : Codegen.state) :
  Codegen.uniforms s = [] -> Codegen.global_ubo_offset s = 0 ->
  map Codegen.u_offset (Codegen.uniforms (snd (Examples.abc_block s))) = [0; 16; 32] /\
  Codegen.global_ubo_offset (snd (Examples.abc_block s)) = 36.
Proof.
  intros Hu Ho. unfold Examples.abc_block, bind.
  destruct (CodegenFacts.define_uniform_step (Examples.uniform "a" 1 1) s) as [A1 B1].
  destruct (Codegen.define_uniform (Examples.uniform "a" 1 1) s) as [x1 s1].
  destruct (CodegenFacts.define_uniform_step (Examples.uniform "b" 3 1) s1) as [A2 B2].
  destruct (Codegen.define_uniform (Examples.uniform "b" 3 1) s1) as [x2 s2].
  destruct (CodegenFacts.define_uniform_step (Examples.uniform "c" 1 1) s2) as [A3 B3].
  destruct (Codegen.define_uniform (Examples.uniform "c" 1 1) s2) as [x3 s3].
  cbn [snd fst ret] in *.
  rewrite Hu, Ho in *. rewrite B1 in B2. rewrite A1 in A2, B2.
  rewrite B2 in B3. rewrite A2 in A3, B3. rewrite A3, B3.
  split; vm_compute; reflexivity.
Qed.

Lemma abc_block_layout_witness :
  Codegen.uniforms Codegen.initial_state = [] /\
  Codegen.global_ubo_offset Codegen.initial_state = 0 /\
  map Codegen.u_offset (Codegen.uniforms (snd (Examples.abc_block Codegen.initial_state)))
    = [0; 16; 32] /\
  Codegen.global_ubo_offset (snd (Examples.abc_block Codegen.initial_state)) = 36.
Proof.
  split; [reflexivity|]. split; [reflexivity|].
  apply (abc_block_layout Codegen.initial_state); reflexivity.
Defined.

(** C1 counterexample: for [float a; float3 b; float c] the offsets are
    0, 16 and 32, not 0, 16 and 28. *)
Lemma abc_block_offsets_not_0_16_28 :
  map Codegen.u_offset (Codegen.uniforms (snd (Examples.abc_block Codegen.initial_state)))
    = [0; 16; 32] /\
  map Codegen.u_offset (Codegen.uniforms (snd (Examples.abc_block Codegen.initial_state)))
    <> [0; 16; 28].
Proof.
  split; vm_compute; [reflexivity | discriminate].
Defined.

(** ** C7: [codegen_spirv::emit_constant] *)

(** C7 (amended): for every non-pointer type [t] (the source asserts
    [!type.is_ptr]) and constant data [d], a second call of [emit_constant]
    with the same arguments, on the state the first call left, returns the id
    the first call returned. The lookup returns, leaving the state alone, the
    id of the first recorded constant whose type is equal, whose sixteen
    32-bit lanes are identical, which has as many array elements, and whose
    elements have identical sixteen lanes one by one ([spec_same_constant]:
    the elements' own array data are not compared); when no recorded constant
    is such, the call records a new entry for [(t, d)] with the id it
    returns, after the entries of its components. *)
Theorem emit_constant_twice :
  (forall (f f' : nat) (t : Codegen.type) (d : Codegen.constant) (s : Codegen.state),
     Codegen.is_ptr t = false ->
     fst (Codegen.emit_constant (S f') t d (snd (Codegen.emit_constant (S f) t d s))) =
     fst (Codegen.emit_constant (S f) t d s)) /\
  (forall (f : nat) (t : Codegen.type) (d : Codegen.constant) (s : Codegen.state)
          pre (t' : Codegen.type) (d' : Codegen.constant) (id : Z) post,
     Codegen.constant_lookup s = pre ++ (t', d', id) :: post ->
     Forall (fun e : Codegen.type * Codegen.constant * Z =>
               let '(t0, d0, _) := e in ~ Codegen.spec_same_constant t d t0 d0) pre ->
     Codegen.spec_same_constant t d t' d' ->
     Codegen.emit_constant (S f) t d s = (id, s)) /\
  (forall (f : nat) (t : Codegen.type) (d : Codegen.constant) (s : Codegen.state),
     Codegen.is_ptr t = false ->
     Forall (fun e : Codegen.type * Codegen.constant * Z =>
               let '(t0, d0, _) := e in ~ Codegen.spec_same_constant t d t0 d0)
            (Codegen.constant_lookup s) ->
     exists mid,
       Codegen.constant_lookup (snd (Codegen.emit_constant (S f) t d s)) =
       Codegen.constant_lookup s ++ mid ++ [(t, d, fst (Codegen.emit_constant (S f) t d s))]).
Proof.
  assert (NoMatch : forall t d l,
    Forall (fun e : Codegen.type * Codegen.constant * Z =>
              let '(t0, d0, _) := e in ~ Codegen.spec_same_constant t d t0 d0) l ->
    Codegen.find_first (Codegen.constant_entry_matches t d) l = None).
  { intros t d l H. apply CodegenFacts.find_first_none. eapply Forall_impl; [|exact H].
    intros [[t0 d0] r] Hn. destruct (Codegen.constant_entry_matches t d (t0, d0, r)) eqn:Hm;
      [|reflexivity].
    exfalso. apply Hn. apply (CodegenFacts.entry_matches_spec t d t0 d0 r). exact Hm. }
  split; [|split].
  - intros f f' t d s Hp.
    destruct (Codegen.find_first (Codegen.constant_entry_matches t d)
                (Codegen.constant_lookup s)) as [e|] eqn:Hf.
    + rewrite (CodegenFacts.emit_constant_hit f t d s e Hf). cbn [snd fst].
      rewrite (CodegenFacts.emit_constant_hit f' t d s e Hf). reflexivity.
    + destruct (CodegenFacts.emit_constant_miss f t d s Hp Hf) as (mid & E & F).
      set (r := fst (Codegen.emit_constant (S f) t d s)) in *.
      assert (Hmid : Codegen.find_first (Codegen.constant_entry_matches t d) mid = None).
      { apply CodegenFacts.find_first_none. eapply Forall_impl; [|exact F].
        intros e He. destruct (Codegen.constant_entry_matches t d e) eqn:Hm; [|reflexivity].
        apply CodegenFacts.entry_match_depth in Hm. unfold CodegenFacts.LT in He. lia. }
      assert (Hl : Codegen.find_first (Codegen.constant_entry_matches t d)
                     (Codegen.constant_lookup (snd (Codegen.emit_constant (S f) t d s)))
                   = Some (t, d, r)).
      { rewrite E, !CodegenFacts.find_first_app, Hf, Hmid. cbn [Codegen.find_first].
        rewrite CodegenFacts.entry_self_match. reflexivity. }
      rewrite (CodegenFacts.emit_constant_hit f' t d _ _ Hl). reflexivity.
  - intros f t d s pre t' d' id post E Hpre Hsame.
    assert (Hf : Codegen.find_first (Codegen.constant_entry_matches t d)
                   (Codegen.constant_lookup s) = Some (t', d', id)).
    { rewrite E, CodegenFacts.find_first_app, (NoMatch t d pre Hpre).
      cbn [Codegen.find_first].
      apply (CodegenFacts.entry_matches_spec t d t' d' id) in Hsame. rewrite Hsame.
      reflexivity. }
    exact (CodegenFacts.emit_constant_hit f t d s _ Hf).
  - intros f t d s Hp Hn.
    destruct (CodegenFacts.emit_constant_miss f t d s Hp (NoMatch t d _ Hn)) as (mid & E & _).
    exists mid. exact E.
Qed.

Lemma emit_constant_twice_witness :
  (Codegen.is_ptr Examples.f12 = false /\
   fst (Codegen.emit_constant (S 9) Examples.f12 Examples.d12
          (snd (Codegen.emit_constant (S 9) Examples.f12 Examples.d12
                  Codegen.initial_state))) =
   fst (Codegen.emit_constant (S 9) Examples.f12 Examples.d12
          Codegen.initial_state)) /\
  Codegen.emit_constant (S 9) Examples.float3_array Examples.two_elements Examples.nested_state
    = (9, Examples.nested_state) /\
  Codegen.is_ptr Examples.float3_array = false /\
  exists mid,
    Codegen.constant_lookup
      (snd (Codegen.emit_constant (S 9) Examples.float3_array Examples.two_elements
              Codegen.initial_state)) =
    Codegen.constant_lookup Codegen.initial_state ++ mid ++
      [(Examples.float3_array, Examples.two_elements,
        fst (Codegen.emit_constant (S 9) Examples.float3_array Examples.two_elements
               Codegen.initial_state))].
Proof.
  destruct emit_constant_twice as (A & B & C).
  split; [split; [reflexivity | apply (A 9%nat 9%nat _ _ _); reflexivity]|].
  split.
  - set (l := Codegen.constant_lookup Examples.nested_state).
    set (dflt := (Examples.f12, Examples.d12, 0)).
    apply (B 9%nat _ _ _ (firstn 4%nat l) (fst (fst (nth 4%nat l dflt))) (snd (fst (nth 4%nat l dflt)))
             (snd (nth 4%nat l dflt)) (skipn 5%nat l)).
    + vm_compute. reflexivity.
    + vm_compute. repeat constructor; intros (Ht & _); discriminate Ht.
    + vm_compute. split; [reflexivity|]. split; [|split; [reflexivity|]].
      * intros i Hi. do 16 (destruct i as [|i]; [reflexivity|]). lia.
      * repeat constructor; intros i Hi; do 16 (destruct i as [|i]; [reflexivity|]); lia.
  - split; [reflexivity|].
    apply (C 9%nat _ _ _); [reflexivity|]. vm_compute. constructor.
Defined.

(** C7 counterexample: the constants [float1x2] and [float2] have different
    types, yet with the same lanes [emit_constant] gives both the same id,
    since a one-row matrix constant is its row vector constant. *)
Lemma emit_constant_types_differ_same_id :
  Codegen.type_eqb Examples.f12 Examples.f2 = false /\
  fst ((x <- Codegen.emit_constant Codegen.type_fuel Examples.f12 Examples.d12 ;;
        y <- Codegen.emit_constant Codegen.type_fuel Examples.f2 Examples.d12 ;;
        ret (x, y)) Codegen.initial_state) = (6, 6).
Proof. split; vm_compute; reflexivity. Defined.

(** ** C3: failing device calls during linking *)

(** C3 (amended): a failing [CreateSamplerState], [CreateTexture2D],
    [CreateShaderResourceView] (the linear view or the sRGB view) or
    [CreateShader] calls [error()], which marks the module failed and appends
    the error; a failing [CreateRenderTargetView] only adds a warning, leaves
    the failure flag alone, and the render-target loop goes on with a null
    render target in that slot, so the pass is kept. *)
Theorem device_failure_handling :
  (forall e info c tex hr smp,
     Linker.find_texture (Linker.rt c) (Linker.si_texture_name info) = Some tex ->
     Linker.assoc_find (Linker.desc_hash (Linker.sampler_desc_bytes info))
       (Linker.effect_sampler_states (Linker.rt c)) = None ->
     Linker.CreateSamplerState e (Linker.sampler_desc_bytes info) = (hr, smp) ->
     Linker.FAILED hr = true ->
     Linker.visit_sampler e info c =
       (tt, Linker.set_errors (Linker.set_success c false)
              (Linker.errors c ++
                 [Linker.Error (Linker.failed_text "ID3D11Device::CreateSamplerState" hr)]))) /\
  (forall e info c hr tex,
     Linker.find_texture (Linker.rt c) (Linker.ti_unique_name info) = None ->
     Linker.ti_semantic info = EmptyString ->
     Linker.CreateTexture2D e (Linker.ti_width info) (Linker.ti_height info)
       (Linker.ti_levels info) (Linker.literal_to_format e (Linker.ti_format info)) = (hr, tex) ->
     Linker.FAILED hr = true ->
     Linker.visit_texture e info c =
       (tt, Linker.set_errors (Linker.set_success c false)
              (Linker.errors c ++
                 [Linker.Error (Linker.failed_text "ID3D11Device::CreateTexture2D" hr)]))) /\
  (forall e info c hr tex hr' v,
     Linker.find_texture (Linker.rt c) (Linker.ti_unique_name info) = None ->
     Linker.ti_semantic info = EmptyString ->
     Linker.CreateTexture2D e (Linker.ti_width info) (Linker.ti_height info)
       (Linker.ti_levels info) (Linker.literal_to_format e (Linker.ti_format info)) = (hr, tex) ->
     Linker.FAILED hr = false ->
     Linker.CreateShaderResourceView e (Some tex)
       (Linker.make_format_normal (Linker.literal_to_format e (Linker.ti_format info))) = (hr', v) ->
     Linker.FAILED hr' = true ->
     Linker.visit_texture e info c =
       (tt, Linker.set_errors (Linker.set_success c false)
              (Linker.errors c ++
                 [Linker.Error (Linker.failed_text "ID3D11Device::CreateShaderResourceView" hr')]))) /\
  (forall e info c hr tex hr' v hr'' v',
     Linker.find_texture (Linker.rt c) (Linker.ti_unique_name info) = None ->
     Linker.ti_semantic info = EmptyString ->
     Linker.CreateTexture2D e (Linker.ti_width info) (Linker.ti_height info)
       (Linker.ti_levels info) (Linker.literal_to_format e (Linker.ti_format info)) = (hr, tex) ->
     Linker.FAILED hr = false ->
     Linker.CreateShaderResourceView e (Some tex)
       (Linker.make_format_normal (Linker.literal_to_format e (Linker.ti_format info))) = (hr', v) ->
     Linker.FAILED hr' = false ->
     Linker.make_format_srgb (Linker.literal_to_format e (Linker.ti_format info)) <>
       Linker.literal_to_format e (Linker.ti_format info) ->
     Linker.CreateShaderResourceView e (Some tex)
       (Linker.make_format_srgb (Linker.literal_to_format e (Linker.ti_format info))) = (hr'', v') ->
     Linker.FAILED hr'' = true ->
     Linker.visit_texture e info c =
       (tt, Linker.set_errors (Linker.set_success c false)
              (Linker.errors c ++
                 [Linker.Error (Linker.failed_text "ID3D11Device::CreateShaderResourceView" hr'')]))) /\
  (forall e entry_point is_ps c hr errs hr2 shader,
     Linker.D3DCompile e entry_point is_ps = (hr, errs) ->
     Linker.FAILED hr = false ->
     Linker.CreateShader e entry_point is_ps = (hr2, shader) ->
     Linker.FAILED hr2 = true ->
     let c' := snd (Linker.compile_entry_point e entry_point is_ps c) in
     Linker.success c' = false /\
     Linker.errors c' =
       Linker.errors c ++ (match errs with Some text => [Linker.Raw text] | None => [] end) ++
         [Linker.Error (Linker.failed_text "CreateShader" hr2)]) /\
  (forall e pi k ks p c tex w h format n hr v,
     nth k (Linker.pi_render_target_names pi) EmptyString <> EmptyString ->
     Linker.find_texture (Linker.rt c) (nth k (Linker.pi_render_target_names pi) EmptyString)
       = Some tex ->
     Linker.GetDesc e (Linker.texture (Linker.t_impl tex)) = (w, h, format, n) ->
     negb (Linker.viewport_width p =? 0) && negb (Linker.viewport_height p =? 0) &&
       (negb (w =? Linker.viewport_width p) || negb (h =? Linker.viewport_height p)) = false ->
     Linker.pick (Linker.pi_srgb_write_enable pi) (Linker.rtv (Linker.t_impl tex)) = None ->
     Linker.CreateRenderTargetView e (Linker.texture (Linker.t_impl tex))
       (if Linker.pi_srgb_write_enable pi then Linker.make_format_srgb format
        else Linker.make_format_normal format) = (hr, v) ->
     Linker.FAILED hr = true ->
     Linker.render_target_loop e pi (k :: ks) p c =
       Linker.render_target_loop e pi ks
         (Linker.set_render_target (Linker.set_viewport p w h) k None
            (Linker.pick (Linker.pi_srgb_write_enable pi) (Linker.srv (Linker.t_impl tex))))
         (Linker.set_errors c (Linker.errors c ++
            [Linker.Warning (Linker.failed_text "ID3D11Device::CreateRenderTargetView" hr)]))).
Proof.
  split; [|split; [|split; [|split; [|split]]]].
  - intros e info c tex hr smp H1 H2 H3 H4.
    cbv beta zeta iota delta [Linker.visit_sampler bind get]. rewrite H1, H2, H3, H4.
    reflexivity.
  - intros e info c hr tex H1 H2 H3 H4.
    cbv beta zeta iota delta [Linker.visit_texture bind get]. rewrite H1, H2.
    cbn [String.eqb negb]. rewrite H3, H4. reflexivity.
  - intros e info c hr tex hr' v H1 H2 H3 H4 H5 H6.
    cbv beta zeta iota delta [Linker.visit_texture bind get]. rewrite H1, H2.
    cbn [String.eqb negb]. rewrite H3, H4, H5, H6. reflexivity.
  - intros e info c hr tex hr' v hr'' v' H1 H2 H3 H4 H5 H6 H7 H8 H9.
    apply Z.eqb_neq in H7.
    cbv beta zeta iota delta [Linker.visit_texture bind get]. rewrite H1, H2.
    cbn [String.eqb negb]. rewrite H3, H4, H5, H6, H7. cbn [negb]. rewrite H8, H9.
    reflexivity.
  - intros e entry_point is_ps c hr errs hr2 shader H1 H2 H3 H4.
    unfold Linker.compile_entry_point. rewrite H1.
    destruct errs as [text|], is_ps; cbv beta zeta iota delta [bind ret modify];
      rewrite H2, H3, H4; cbn; rewrite <- ?app_assoc; split; reflexivity.
  - intros e pi k ks p c tex w h format n hr v H1 H2 H3 H4 H5 H6 H7.
    cbn [Linker.render_target_loop]. apply String.eqb_neq in H1. rewrite H1.
    cbv beta zeta iota delta [bind get]. rewrite H2, H3, H4, H5, H6, H7. reflexivity.
Qed.

Lemma device_failure_handling_witness :
  let E := Examples.E_OUTOFMEMORY in
  let pi := Examples.pass_to ("T" :: repeat EmptyString 7)%string false in
  Linker.visit_sampler (Examples.dev 0 0 0 E 0) (Examples.sampler_on "T" 0) Examples.compiler0 =
    (tt, Linker.set_errors (Linker.set_success Examples.compiler0 false)
           (Linker.errors Examples.compiler0 ++
              [Linker.Error (Linker.failed_text "ID3D11Device::CreateSamplerState" E)])) /\
  Linker.visit_texture (Examples.dev E 0 0 0 0) (Examples.texture_decl "U" EmptyString 32 32)
    Examples.compiler0 =
    (tt, Linker.set_errors (Linker.set_success Examples.compiler0 false)
           (Linker.errors Examples.compiler0 ++
              [Linker.Error (Linker.failed_text "ID3D11Device::CreateTexture2D" E)])) /\
  Linker.visit_texture (Examples.dev 0 E 0 0 0) (Examples.texture_decl "U" EmptyString 32 32)
    Examples.compiler0 =
    (tt, Linker.set_errors (Linker.set_success Examples.compiler0 false)
           (Linker.errors Examples.compiler0 ++
              [Linker.Error (Linker.failed_text "ID3D11Device::CreateShaderResourceView" E)])) /\
  Linker.visit_texture Examples.srgb_view_fails (Examples.texture_decl "U" EmptyString 32 32)
    Examples.compiler0 =
    (tt, Linker.set_errors (Linker.set_success Examples.compiler0 false)
           (Linker.errors Examples.compiler0 ++
              [Linker.Error (Linker.failed_text "ID3D11Device::CreateShaderResourceView" E)])) /\
  (Linker.success (snd (Linker.compile_entry_point (Examples.dev 0 0 0 0 E) "PS" true
                          Examples.compiler0)) = false /\
   Linker.errors (snd (Linker.compile_entry_point (Examples.dev 0 0 0 0 E) "PS" true
                         Examples.compiler0)) =
     Linker.errors Examples.compiler0 ++ [] ++ [Linker.Error (Linker.failed_text "CreateShader" E)]) /\
  Linker.render_target_loop (Examples.dev 0 0 E 0 0) pi (0%nat :: seq 1 7)
    (Linker.initial_pass Examples.compiler0 pi) Examples.compiler0 =
  Linker.render_target_loop (Examples.dev 0 0 E 0 0) pi (seq 1 7)
    (Linker.set_render_target (Linker.set_viewport (Linker.initial_pass Examples.compiler0 pi) 64 64)
       0 None (Linker.pick false (Linker.srv (Linker.t_impl Examples.T_tex))))
    (Linker.set_errors Examples.compiler0 (Linker.errors Examples.compiler0 ++
       [Linker.Warning (Linker.failed_text "ID3D11Device::CreateRenderTargetView" E)])).
Proof.
  intros E pi.
  destruct device_failure_handling as (A1 & A2 & A3 & A3' & A4 & A5).
  split; [apply (A1 _ _ _ Examples.T_tex _ 400); vm_compute; reflexivity|].
  split; [apply (A2 _ _ _ _ 100); vm_compute; reflexivity|].
  split; [apply (A3 _ _ _ 0 100 _ (Linker.mk_view 228 100)); vm_compute; reflexivity|].
  split; [apply (A3' _ _ _ 0 100 0 (Linker.mk_view 228 100) _ (Linker.mk_view 229 100));
          vm_compute; try reflexivity; discriminate|].
  split; [exact (A4 (Examples.dev 0 0 0 0 E) "PS"%string true Examples.compiler0 0 None E 700
                   eq_refl eq_refl eq_refl eq_refl)|].
  apply (A5 (Examples.dev 0 0 E 0 0) pi 0%nat (seq 1 7) (Linker.initial_pass Examples.compiler0 pi)
    Examples.compiler0 Examples.T_tex 64 64 28 1 E (Linker.mk_view 328 100));
    try (vm_compute; reflexivity).
  vm_compute. intros Hc. discriminate Hc.
Defined.

(** The sentence's reading fails on a concrete run: a failing
    [CreateSamplerState] marks the module failed, and with a failing
    [CreateRenderTargetView] the technique is still registered with its one
    pass, the module not failed and the only message a warning. *)
Lemma sampler_fails_module_rtv_keeps_pass :
  Linker.success (snd (Linker.visit_sampler (Examples.dev 0 0 0 Examples.E_OUTOFMEMORY 0)
                         (Examples.sampler_on "T" 0) Examples.compiler0)) = false /\
  (let c' := snd (Linker.visit_technique (Examples.dev 0 0 Examples.E_OUTOFMEMORY 0 0)
                    Examples.technique_writing_T Examples.compiler0) in
   Linker.success c' = true /\
   map (fun t => List.length (Linker.tech_passes t)) (Linker.techniques (Linker.rt c')) = [1%nat] /\
   Linker.errors c' =
     [Linker.Warning (Linker.failed_text "ID3D11Device::CreateRenderTargetView"
                        Examples.E_OUTOFMEMORY)]).
Proof. split; [vm_compute; reflexivity|]. vm_compute. repeat split. Qed.

(** ** C6: the header written by [codegen_spirv::write_result] *)

(** C6: from a generator state whose ids were all handed out by [make_id]
    ([IdBound.ids_invariant]: every type and result id in the module and in
    the type and constant caches is below [_next_id], which is at least 1),
    whose [$Globals] struct and variable ids were allocated, whose uniforms
    have allocated non-pointer types, and whose type cache does not hold the
    [$Globals] pointer type yet, [write_result] starts its output with the
    five header words: the magic number [0x07230203], the version word, 0,
    the id bound and 0; and the id bound is the largest id appearing in the
    written module plus one. *)
Theorem write_result_header_bound (s : Codegen.state) :
  IdBound.ids_invariant s = true ->
  Codegen.global_ubo_type s < Codegen.next_id s ->
  Codegen.global_ubo_variable s < Codegen.next_id s ->
  forallb (fun u => (Codegen.definition (Codegen.u_type u) <? Codegen.next_id s) &&
                    negb (Codegen.is_ptr (Codegen.u_type u))) (Codegen.uniforms s) = true ->
  Codegen.find_first (Codegen.type_entry_matches (IdBound.globals_type s))
    (Codegen.type_lookup s) = None ->
  firstn 5 (fst (Codegen.write_result s)) =
    [Codegen.MagicNumber; Codegen.Version; 0; Codegen.next_id (snd (Codegen.write_result s)); 0] /\
  Codegen.next_id (snd (Codegen.write_result s)) =
    Codegen.max_id (Codegen.module_ids (snd (Codegen.write_result s))) + 1.
Proof.
  intros HI Ht Hv Hu F. apply IdBound.ids_invariant_Inv in HI.
  assert (Hu' : Forall (fun u => Codegen.definition (Codegen.u_type u) < Codegen.next_id s /\
                                 Codegen.is_ptr (Codegen.u_type u) = false) (Codegen.uniforms s)).
  { apply Forall_forall. intros u Hin. rewrite forallb_forall in Hu. specialize (Hu u Hin).
    apply andb_true_iff in Hu as [H1 H2].
    split; [apply Z.ltb_lt; exact H1 | apply negb_true_iff; exact H2]. }
  destruct (IdBound.create_global_ubo_last s HI Ht Hv Hu' F) as (I' & P' & In').
  unfold Codegen.write_result.
  destruct (Codegen.create_global_ubo s) as [u s'] eqn:E. cbn [snd] in I', P', In'.
  rewrite (IdBound.bind_step _ _ _ _ _ E), IdBound.bind_get_eq. unfold ret. cbn [fst snd].
  split; [reflexivity|].
  rewrite (IdBound.max_id_top _ _ P' (IdBound.module_ids_below _ I') In'). lia.
Qed.

Lemma write_result_header_bound_witness :
  IdBound.ids_invariant (snd (Examples.abc_block Codegen.initial_state)) = true /\
  firstn 5 (fst (Codegen.write_result (snd (Examples.abc_block Codegen.initial_state)))) =
    [Codegen.MagicNumber; Codegen.Version; 0;
     Codegen.next_id (snd (Codegen.write_result (snd (Examples.abc_block Codegen.initial_state)))); 0] /\
  Codegen.next_id (snd (Codegen.write_result (snd (Examples.abc_block Codegen.initial_state)))) =
    Codegen.max_id (Codegen.module_ids
      (snd (Codegen.write_result (snd (Examples.abc_block Codegen.initial_state))))) + 1.
Proof.
  split; [vm_compute; reflexivity|].
  apply (write_result_header_bound (snd (Examples.abc_block Codegen.initial_state)));
    vm_compute; reflexivity.
Defined.

(** * Further properties of the code *)

Module FormatFacts.
Import Linker Formats.

(** The formats the conversions touch: the four families of three. *)
Definition in_family (f : Z) : bool :=
  existsb (Z.eqb f) [27; 28; 29; 70; 71; 72; 73; 74; 75; 76; 77; 78].

Lemma not_in_family_fix (f : Z) :
  in_family f = false ->
  make_format_srgb f = f /\ make_format_normal f = f /\ make_format_typeless f = f.
Proof.
  unfold in_family, make_format_srgb, make_format_normal, make_format_typeless.
  cbn [existsb]. intro H.
  repeat (apply orb_false_elim in H as [? H]).
  unfold DXGI_FORMAT_R8G8B8A8_TYPELESS, DXGI_FORMAT_BC1_TYPELESS, DXGI_FORMAT_BC2_TYPELESS, DXGI_FORMAT_BC3_TYPELESS, DXGI_FORMAT_R8G8B8A8_UNORM, DXGI_FORMAT_R8G8B8A8_UNORM_SRGB,
  DXGI_FORMAT_BC1_UNORM, DXGI_FORMAT_BC1_UNORM_SRGB, DXGI_FORMAT_BC2_UNORM,
  DXGI_FORMAT_BC2_UNORM_SRGB, DXGI_FORMAT_BC3_UNORM, DXGI_FORMAT_BC3_UNORM_SRGB.
  repeat match goal with Hf : (f =? ?c) = false |- context [f =? ?c] => rewrite Hf end.
  cbn [orb]. auto.
Qed.

Lemma in_family_cases (f : Z) :
  in_family f = true -> In f [27; 28; 29; 70; 71; 72; 73; 74; 75; 76; 77; 78].
Proof.
  unfold in_family. intro H. apply existsb_exists in H as [x [Hx E]].
  apply Z.eqb_eq in E. subst. exact Hx.
Qed.

Ltac family_cases f :=
  let E := fresh in
  destruct (in_family f) eqn:E;
  [ apply in_family_cases in E; cbn [In] in E;
    repeat (destruct E as [<- | E]; [reflexivity |]); destruct E
  | destruct (not_in_family_fix f E) as (Hs & Hn & Ht) ].

(** [make_format_srgb] and [make_format_normal] undo each other: turning a
    format into its sRGB variant and back gives its linear variant, and the
    other way round. *)
Theorem make_format_round_trip (f : Z) :
  make_format_normal (make_format_srgb f) = make_format_normal f /\
  make_format_srgb (make_format_normal f) = make_format_srgb f.
Proof.
  split; family_cases f; rewrite ?Hs, ?Hn; congruence.
Qed.


(** A format, its sRGB variant and its linear variant share one typeless
    format, and the sRGB and linear variants of the typeless format are those
    of the format itself. *)
Theorem make_format_typeless_family (f : Z) :
  make_format_typeless (make_format_srgb f) = make_format_typeless f /\
  make_format_typeless (make_format_normal f) = make_format_typeless f /\
  make_format_srgb (make_format_typeless f) = make_format_srgb f /\
  make_format_normal (make_format_typeless f) = make_format_normal f.
Proof.
  repeat split; family_cases f; rewrite ?Hs, ?Hn, ?Ht; congruence.
Qed.

(** Every format an effect can name is already its own typeless format; it
    has a distinct sRGB variant exactly for [RGBA8], [DXT1], [DXT3] and
    [DXT5]; and it maps to [DXGI_FORMAT_UNKNOWN] exactly when it is not one
    of the named formats. *)
Theorem literal_to_format_views (v : texture_format) :
  make_format_typeless (literal_to_format v) = literal_to_format v /\
  (make_format_srgb (literal_to_format v) <> literal_to_format v <->
   In v [rgba8; dxt1; dxt3; dxt5]) /\
  (literal_to_format v = DXGI_FORMAT_UNKNOWN <-> exists x, v = unnamed x).
Proof.
  destruct v; cbn; intuition (try discriminate; eauto; try congruence);
    try (destruct H; discriminate);
    repeat match goal with H : _ \/ _ |- _ => destruct H end; try discriminate; try contradiction.
Qed.

(** Distinct named texture formats map to distinct DXGI formats; only
    unnamed values share one ([DXGI_FORMAT_UNKNOWN]). *)
Theorem literal_to_format_injective (a b : texture_format) :
  literal_to_format a = literal_to_format b ->
  a = b \/ (exists x y, a = unnamed x /\ b = unnamed y).
Proof.
  destruct a, b; cbn; try discriminate; eauto.
Qed.

(** [literal_to_blend_func] maps the ten blend literals 0..9 to ten
    distinct D3D11 blend factors, maps every other value to
    [D3D11_BLEND_ONE], and always yields a factor between [ZERO] and
    [INV_DEST_COLOR]. *)
Theorem literal_to_blend_func_table (a b : Z) :
  (0 <= a <= 9 -> 0 <= b <= 9 -> literal_to_blend_func a = literal_to_blend_func b -> a = b) /\
  (a < 0 \/ 9 < a -> literal_to_blend_func a = D3D11_BLEND_ONE) /\
  D3D11_BLEND_ZERO <= literal_to_blend_func a <= D3D11_BLEND_INV_DEST_COLOR.
Proof.
  assert (Out : a < 0 \/ 9 < a -> literal_to_blend_func a = D3D11_BLEND_ONE).
  { intro H. unfold literal_to_blend_func.
    repeat (rewrite (proj2 (Z.eqb_neq _ _)) by lia). reflexivity. }
  split; [| split; [exact Out |]].
  - intros Ha Hb.
    assert (a = 0 \/ a = 1 \/ a = 2 \/ a = 3 \/ a = 4 \/ a = 5 \/ a = 6 \/ a = 7 \/ a = 8 \/ a = 9)
      as Ea by lia.
    assert (b = 0 \/ b = 1 \/ b = 2 \/ b = 3 \/ b = 4 \/ b = 5 \/ b = 6 \/ b = 7 \/ b = 8 \/ b = 9)
      as Eb by lia.
    repeat (destruct Ea as [-> | Ea]); repeat (destruct Eb as [-> | Eb]); subst; try lia;
      intro E; vm_compute in E; discriminate.
  - destruct (Z.le_gt_cases 0 a); [destruct (Z.le_gt_cases a 9) |].
    + assert (a = 0 \/ a = 1 \/ a = 2 \/ a = 3 \/ a = 4 \/ a = 5 \/ a = 6 \/ a = 7 \/ a = 8 \/ a = 9)
        as Ea by lia.
      repeat (destruct Ea as [-> | Ea]); subst; try lia; vm_compute; split; discriminate.
    + rewrite Out by lia. vm_compute. split; discriminate.
    + rewrite Out by lia. vm_compute. split; discriminate.
Qed.

(** [literal_to_stencil_op] maps the stencil literals 0..8 other than 2 to
    distinct D3D11 stencil operations, maps 2 and every value outside 0..8 to
    [D3D11_STENCIL_OP_KEEP], and always yields an operation between [KEEP]
    and [DECR]. *)
Theorem literal_to_stencil_op_table (a b : Z) :
  (0 <= a <= 8 -> a <> 2 -> 0 <= b <= 8 -> b <> 2 ->
   literal_to_stencil_op a = literal_to_stencil_op b -> a = b) /\
  (a = 2 \/ a < 0 \/ 8 < a -> literal_to_stencil_op a = D3D11_STENCIL_OP_KEEP) /\
  D3D11_STENCIL_OP_KEEP <= literal_to_stencil_op a <= D3D11_STENCIL_OP_DECR.
Proof.
  assert (Out : a = 2 \/ a < 0 \/ 8 < a -> literal_to_stencil_op a = D3D11_STENCIL_OP_KEEP).
  { intro H. unfold literal_to_stencil_op.
    repeat (rewrite (proj2 (Z.eqb_neq _ _)) by lia). reflexivity. }
  split; [| split; [exact Out |]].
  - intros Ha Ha2 Hb Hb2.
    assert (a = 0 \/ a = 1 \/ a = 3 \/ a = 4 \/ a = 5 \/ a = 6 \/ a = 7 \/ a = 8) as Ea by lia.
    assert (b = 0 \/ b = 1 \/ b = 3 \/ b = 4 \/ b = 5 \/ b = 6 \/ b = 7 \/ b = 8) as Eb by lia.
    repeat (destruct Ea as [-> | Ea]); repeat (destruct Eb as [-> | Eb]); subst; try lia;
      intro E; vm_compute in E; discriminate.
  - destruct (Z.le_gt_cases 0 a); [destruct (Z.le_gt_cases a 8) |].
    + assert (a = 0 \/ a = 1 \/ a = 2 \/ a = 3 \/ a = 4 \/ a = 5 \/ a = 6 \/ a = 7 \/ a = 8)
        as Ea by lia.
      repeat (destruct Ea as [-> | Ea]); subst; try lia; vm_compute; split; discriminate.
    + rewrite Out by lia. vm_compute. split; discriminate.
    + rewrite Out by lia. vm_compute. split; discriminate.
Qed.

Lemma land_not15 (x : Z) : 0 <= x < 2 ^ 64 ->
  Z.land x (Z.lnot 15 mod 2 ^ 64) = x / 16 * 16.
Proof.
  intro Hx.
  replace (Z.lnot 15 mod 2 ^ 64) with (Z.ldiff (Z.ones 64) (Z.ones 4)) by reflexivity.
  assert (E : Z.land x (Z.ldiff (Z.ones 64) (Z.ones 4)) = Z.ldiff x (Z.ones 4)).
  { apply Z.bits_inj'. intros n Hn.
    rewrite Z.land_spec, !Z.ldiff_spec, Z.testbit_ones_nonneg by lia.
    destruct (Z.ltb_spec n 64).
    - rewrite andb_true_l. reflexivity.
    - rewrite andb_false_l, andb_false_r.
      rewrite Z.bits_above_log2; [reflexivity | lia |].
      destruct (Z.eq_dec x 0) as [-> | Hx0]; [cbn; lia |].
      assert (Z.log2 x < 64) by (apply Z.log2_lt_pow2; lia). lia. }
  rewrite E, Z.ldiff_ones_r by lia.
  rewrite Z.shiftl_mul_pow2, Z.shiftr_div_pow2 by lia. reflexivity.
Qed.

(** [roundto16] rounds a size up to the next multiple of 16, as long as
    [size + 15] does not wrap around 64 bits. *)
Theorem roundto16_bounds (size : Z) :
  0 <= size -> size + 15 < 2 ^ 64 ->
  roundto16 size mod 16 = 0 /\ size <= roundto16 size < size + 16.
Proof.
  intros H0 H1. unfold roundto16.
  rewrite (Z.mod_small (size + 15)) by lia. rewrite land_not15 by lia.
  split; [apply Z.mod_mul; lia |].
  pose proof (Z.div_mod (size + 15) 16 ltac:(lia)).
  pose proof (Z.mod_pos_bound (size + 15) 16 ltac:(lia)). lia.
Qed.

(** For the fifteen largest 64-bit sizes, [size + 15] wraps around and
    [roundto16] returns 0. *)
Theorem roundto16_wraps (size : Z) :
  2 ^ 64 - 16 < size < 2 ^ 64 -> roundto16 size = 0.
Proof.
  intro H. unfold roundto16.
  rewrite <- (Z.mod_unique (size + 15) (2 ^ 64) 1 (size + 15 - 2 ^ 64)) by lia.
  rewrite land_not15 by lia. rewrite Z.div_small by lia. reflexivity.
Qed.


End FormatFacts.

Module StreamFacts.
Import Spirv Codegen Reader.

(** [align] rounds an address up to the next multiple of the alignment and
    leaves aligned addresses alone, as long as the result fits in 32 bits. *)
Theorem align_bounds (address alignment : Z) :
  0 < alignment -> 0 <= address -> address + alignment <= 2 ^ 32 ->
  align address alignment mod alignment = 0 /\
  address <= align address alignment < address + alignment /\
  (address mod alignment = 0 -> align address alignment = address).
Proof.
  intros Ha H0 H1. unfold align.
  pose proof (Z.mod_pos_bound address alignment Ha) as Hm.
  destruct (Z.eqb_spec (address mod alignment) 0) as [E | E]; cbn [negb].
  - split; [exact E | split; [lia | auto]].
  - rewrite (Z.mod_small (address + alignment - address mod alignment)) by lia.
    split; [| split; [lia | intro; contradiction]].
    replace (address + alignment - address mod alignment)
      with ((address / alignment + 1) * alignment)
      by (pose proof (Z.div_mod address alignment ltac:(lia)); lia).
    apply Z.mod_mul. lia.
Qed.

Lemma lor_shiftl_small (a o : Z) : 0 <= a -> 0 <= o < 2 ^ 16 ->
  Z.lor (Z.shiftl a 16) o = a * 2 ^ 16 + o.
Proof.
  intros Ha Ho. rewrite <- Z.lxor_lor.
  - rewrite <- Z.add_nocarry_lxor.
    + rewrite Z.shiftl_mul_pow2 by lia. reflexivity.
    + apply Z.bits_inj'. intros n Hn. rewrite Z.land_spec, Z.bits_0.
      destruct (Z.ltb_spec n 16).
      * rewrite Z.shiftl_spec_low by lia. reflexivity.
      * rewrite (Z.bits_above_log2 o n); [apply andb_false_r | lia |].
        destruct (Z.eq_dec o 0) as [-> | Hz]; [cbn; lia |].
        assert (Z.log2 o < 16) by (apply Z.log2_lt_pow2; lia). lia.
  - apply Z.bits_inj'. intros n Hn. rewrite Z.land_spec, Z.bits_0.
    destruct (Z.ltb_spec n 16).
    + rewrite Z.shiftl_spec_low by lia. reflexivity.
    + rewrite (Z.bits_above_log2 o n); [apply andb_false_r | lia |].
      destruct (Z.eq_dec o 0) as [-> | Hz]; [cbn; lia |].
      assert (Z.log2 o < 16) by (apply Z.log2_lt_pow2; lia). lia.
Qed.

Definition well_sized (ins : instruction) : Prop :=
  0 <= op ins < 2 ^ 16 /\ Z.of_nat (List.length (encode ins)) < 2 ^ 16.

Lemma encode_length (ins : instruction) :
  Z.of_nat (List.length (encode ins)) =
  1 + (if Spirv.type ins =? 0 then 0 else 1) + (if result ins =? 0 then 0 else 1)
  + Z.of_nat (List.length (operands ins)).
Proof.
  unfold encode. rewrite !length_app.
  destruct (Spirv.type ins =? 0), (result ins =? 0); cbn [List.length]; lia.
Qed.

Lemma encode_first_word (ins : instruction) :
  well_sized ins ->
  exists rest, encode ins =
    (Z.of_nat (List.length (encode ins)) * 2 ^ 16 + op ins) :: rest.
Proof.
  intros [Ho Hl]. rewrite encode_length. unfold encode. cbn [app].
  eexists. f_equal. unfold WordCountShift. apply lor_shiftl_small; [|exact Ho].
  destruct (Spirv.type ins =? 0), (result ins =? 0); lia.
Qed.

Lemma split_encode (l : list instruction) (extra : nat) :
  Forall well_sized l ->
  split_by_word_count (List.length l + extra) (flat_map encode l) = Some (map encode l).
Proof.
  intros Hl. induction Hl as [|ins l Hi Hl IH]; [cbn; destruct extra; reflexivity|].
  cbn [flat_map map List.length Nat.add].
  destruct (encode_first_word ins Hi) as [rest Er].
  destruct Hi as [Ho Hlen].
  set (n := List.length (encode ins)) in *.
  assert (Hn : Z.to_nat (Z.shiftr (Z.of_nat n * 2 ^ 16 + op ins) WordCountShift) = n).
  { unfold WordCountShift. rewrite Z.shiftr_div_pow2 by lia.
    rewrite Z.div_add_l by lia. rewrite (Z.div_small (op ins)) by lia. lia. }
  assert (Hhd : encode ins ++ flat_map encode l =
                (Z.of_nat n * 2 ^ 16 + op ins) :: (rest ++ flat_map encode l))
    by (rewrite Er; reflexivity).
  rewrite Hhd. cbn [split_by_word_count]. rewrite Hn. rewrite <- Hhd.
  assert (Hpos : (n <> 0)%nat) by (unfold n; rewrite Er; discriminate).
  replace ((n =? 0)%nat || (List.length (encode ins ++ flat_map encode l) <? n)%nat) with false.
  2: { symmetry. apply orb_false_iff. split; [apply Nat.eqb_neq; exact Hpos |].
       apply Nat.ltb_ge. rewrite length_app. lia. }
  unfold n. rewrite skipn_app, Nat.sub_diag, skipn_all, firstn_app, Nat.sub_diag, firstn_all.
  cbn [skipn firstn app]. rewrite app_nil_r. rewrite IH. reflexivity.
Qed.

Lemma opcode_of_encode (ins : instruction) : well_sized ins -> opcode_of (encode ins) = op ins.
Proof.
  intros Hi. destruct (encode_first_word ins Hi) as [rest Er]. destruct Hi as [Ho _].
  unfold opcode_of. rewrite Er. cbn [hd].
  change 65535 with (Z.ones 16). rewrite Z.land_ones by lia.
  rewrite Z.add_comm, Z.mod_add by lia. apply Z.mod_small. exact Ho.
Qed.

(** The words [write_result] returns after the five header words split,
    by the word counts in the instructions' first words, into the encodings
    of the module's instructions, and each first word also carries the
    opcode. *)
Theorem write_result_stream (s : state) (ws : list Z) (s' : state) :
  write_result s = (ws, s') ->
  Forall well_sized (module_instructions s') ->
  firstn 5 ws = header s' /\
  split_by_word_count (List.length (module_instructions s')) (skipn 5 ws) =
    Some (map encode (module_instructions s')) /\
  map opcode_of (map encode (module_instructions s')) = map op (module_instructions s').
Proof.
  intros Hw Hf. unfold write_result in Hw. apply LinkerFacts.bind_inv in Hw.
  destruct Hw as (u & s1 & _ & Hw). cbv [bind get ret] in Hw. injection Hw as <- <-.
  split; [reflexivity | split].
  - cbn [header skipn app]. rewrite <- (Nat.add_0_r (List.length _)). apply split_encode. exact Hf.
  - rewrite map_map. apply map_ext_in. intros ins Hin. apply opcode_of_encode.
    rewrite Forall_forall in Hf. apply Hf. exact Hin.
Qed.

End StreamFacts.

Module UniformFacts.
Import Spirv Codegen.

Lemma define_uniform_full (info : uniform_info) (s : state) :
  let gt := if global_ubo_type s =? 0 then next_id s else global_ubo_type s in
  let n1 := if global_ubo_type s =? 0 then next_id s + 1 else next_id s in
  let gv := if global_ubo_variable s =? 0 then n1 else global_ubo_variable s in
  let n2 := if global_ubo_variable s =? 0 then n1 + 1 else n1 in
  let off := align (global_ubo_offset s) (uniform_size (u_type info)) in
  fst (define_uniform info s) = gv /\
  global_ubo_type (snd (define_uniform info s)) = gt /\
  global_ubo_variable (snd (define_uniform info s)) = gv /\
  next_id (snd (define_uniform info s)) = n2 /\
  global_ubo_offset (snd (define_uniform info s)) =
    (off + uniform_size (u_type info)) mod 2 ^ 32 /\
  uniforms (snd (define_uniform info s)) =
    uniforms s ++ [mk_uniform_info (u_name info) (u_type info) off
                     (Z.of_nat (List.length (uniforms s))) gt].
Proof.
  unfold define_uniform, add_member_decoration, add_instruction_without_result,
    append, make_id, bind, get, modify, ret.
  cbn. destruct (global_ubo_type s =? 0) eqn:E1; cbn;
  destruct (global_ubo_variable s =? 0) eqn:E2; cbn; rewrite ?E1, ?E2;
  repeat split; reflexivity.
Qed.

Definition total_size (infos : list uniform_info) : Z :=
  fold_right (fun i acc => uniform_size (u_type i) + acc) 0 infos.

Definition usize (u : uniform_info) : Z := uniform_size (u_type u).

(** The layout invariant: members in order, each aligned to its size,
    member [k] with index [k], none overlapping the next, all below the
    running offset. *)
Definition laid_out (lo g : Z) (us : list uniform_info) : Prop :=
  (forall k u, nth_error us k = Some u ->
     u_member_index u = Z.of_nat k /\ u_offset u mod usize u = 0 /\
     lo <= u_offset u /\ u_offset u + usize u <= g) /\
  (forall i j ui uj, (i < j)%nat -> nth_error us i = Some ui -> nth_error us j = Some uj ->
     u_offset ui + usize ui <= u_offset uj).

Lemma laid_out_step (lo g : Z) (us : list uniform_info) (name : string) (t : type) (gt : Z) :
  laid_out lo g us -> lo <= g -> 0 <= g -> 0 < uniform_size t ->
  g + 2 * uniform_size t < 2 ^ 32 ->
  laid_out lo ((align g (uniform_size t) + uniform_size t) mod 2 ^ 32)
    (us ++ [mk_uniform_info name t (align g (uniform_size t)) (Z.of_nat (List.length us)) gt]) /\
  g <= (align g (uniform_size t) + uniform_size t) mod 2 ^ 32 < g + 2 * uniform_size t.
Proof.
  intros [H1 H2] Hlo Hg Hs Hw.
  destruct (StreamFacts.align_bounds g (uniform_size t) Hs Hg ltac:(lia)) as (A1 & A2 & _).
  rewrite (Z.mod_small (align g (uniform_size t) + uniform_size t)) by lia.
  split; [split | lia].
  - intros k u Hk. destruct (Nat.lt_ge_cases k (List.length us)) as [Lk | Lk].
    + rewrite nth_error_app1 in Hk by exact Lk. destruct (H1 k u Hk) as (B1 & B2 & B3 & B4).
      repeat split; try assumption; try lia.
    + rewrite nth_error_app2 in Hk by exact Lk.
      destruct (k - List.length us)%nat as [|m] eqn:Em; [| destruct m; discriminate].
      injection Hk as <-. unfold usize. cbn [u_member_index u_offset u_type].
      repeat split; try lia; exact A1.
  - intros i j ui uj Hij Hi Hj.
    assert (Li : (i < List.length us)%nat).
    { destruct (Nat.lt_ge_cases i (List.length us)) as [L | L]; [exact L|].
      exfalso. assert (Hj' : nth_error (us ++ [mk_uniform_info name t (align g (uniform_size t))
                                (Z.of_nat (List.length us)) gt]) j <> None) by congruence.
      apply nth_error_Some in Hj'. rewrite length_app in Hj'. cbn in Hj'. lia. }
    rewrite nth_error_app1 in Hi by exact Li.
    destruct (Nat.lt_ge_cases j (List.length us)) as [Lj | Lj].
    + rewrite nth_error_app1 in Hj by exact Lj. exact (H2 i j ui uj Hij Hi Hj).
    + rewrite nth_error_app2 in Hj by exact Lj.
      destruct (j - List.length us)%nat as [|m]; [| destruct m; discriminate].
      injection Hj as <-. cbn [u_offset]. destruct (H1 i ui Hi) as (_ & _ & _ & B4). lia.
Qed.

(** Uniforms declared one after the other from an empty block get member
    indices 0, 1, 2, ..., offsets that are multiples of their sizes, and byte
    ranges that follow each other without overlap, all inside the block
    size, as long as the block stays below 4 GiB. *)
Theorem define_uniforms_layout (infos : list uniform_info) (s : state) :
  uniforms s = [] -> 0 <= global_ubo_offset s ->
  Forall (fun i => 0 < uniform_size (u_type i)) infos ->
  global_ubo_offset s + 2 * total_size infos < 2 ^ 32 ->
  let s' := snd (mapM define_uniform infos s) in
  map (fun u => (u_name u, u_type u)) (uniforms s') = map (fun i => (u_name i, u_type i)) infos /\
  (forall k u, nth_error (uniforms s') k = Some u ->
     u_member_index u = Z.of_nat k /\ u_offset u mod uniform_size (u_type u) = 0 /\
     global_ubo_offset s <= u_offset u /\
     u_offset u + uniform_size (u_type u) <= global_ubo_offset s') /\
  (forall i j ui uj, (i < j)%nat ->
     nth_error (uniforms s') i = Some ui -> nth_error (uniforms s') j = Some uj ->
     u_offset ui + uniform_size (u_type ui) <= u_offset uj).
Proof.
  intros Hu Hg Hpos Hw.
  assert (Gen : forall l s0,
    laid_out (global_ubo_offset s) (global_ubo_offset s0) (uniforms s0) ->
    global_ubo_offset s <= global_ubo_offset s0 ->
    Forall (fun i => 0 < uniform_size (u_type i)) l ->
    global_ubo_offset s0 + 2 * total_size l < 2 ^ 32 ->
    map (fun u => (u_name u, u_type u)) (uniforms (snd (mapM define_uniform l s0))) =
      map (fun u => (u_name u, u_type u)) (uniforms s0) ++ map (fun i => (u_name i, u_type i)) l /\
    laid_out (global_ubo_offset s) (global_ubo_offset (snd (mapM define_uniform l s0)))
      (uniforms (snd (mapM define_uniform l s0)))).
  { induction l as [|i l IH]; intros s0 Hl Hle Hp Hb.
    - cbn. rewrite app_nil_r. split; [reflexivity | exact Hl].
    - inversion Hp as [|? ? Hi Hp']; subst. cbn [total_size fold_right] in Hb.
      fold (total_size l) in Hb.
      assert (0 <= total_size l).
      { clear -Hp'. induction Hp' as [|x l' Hx _ IH']; cbn; [lia|]. fold (total_size l'). lia. }
      cbn [mapM].
      destruct (define_uniform_full i s0) as (_ & _ & _ & _ & Go & Us).
      destruct (define_uniform i s0) as [r s1] eqn:Ed. cbn [snd] in Go, Us.
      destruct (laid_out_step _ _ _ (u_name i) (u_type i)
                  (if global_ubo_type s0 =? 0 then next_id s0 else global_ubo_type s0)
                  Hl Hle ltac:(lia) Hi ltac:(lia)) as [L1 L2].
      rewrite <- Go, <- Us in L1. rewrite <- Go in L2.
      unfold bind. rewrite Ed. destruct (mapM define_uniform l s1) as [ys s2] eqn:Em.
      destruct (IH s1 L1 ltac:(lia) Hp' ltac:(lia)) as [N1 N2].
      rewrite Em in N1, N2. unfold ret. cbn [snd] in N1, N2 |- *.
      split; [| exact N2]. rewrite N1, Us, map_app. cbn. rewrite <- app_assoc. reflexivity. }
  assert (L0 : laid_out (global_ubo_offset s) (global_ubo_offset s) (uniforms s)).
  { rewrite Hu. split; intros; destruct k || destruct i; discriminate. }
  destruct (Gen infos s L0 ltac:(lia) Hpos Hw) as [N [T1 T2]].
  rewrite Hu in N. cbn zeta. split; [exact N | split; [| exact T2]].
  intros k u Hk. destruct (T1 k u Hk) as (A & B & C & D). unfold usize in *. tauto.
Qed.

End UniformFacts.

Module UniformIds.
Import Spirv Codegen.

Lemma define_uniforms_fixed (l : list uniform_info) (s0 : state) :
  global_ubo_type s0 <> 0 -> global_ubo_variable s0 <> 0 ->
  exists new,
    fst (mapM define_uniform l s0) = repeat (global_ubo_variable s0) (List.length l) /\
    global_ubo_type (snd (mapM define_uniform l s0)) = global_ubo_type s0 /\
    global_ubo_variable (snd (mapM define_uniform l s0)) = global_ubo_variable s0 /\
    next_id (snd (mapM define_uniform l s0)) = next_id s0 /\
    uniforms (snd (mapM define_uniform l s0)) = uniforms s0 ++ new /\
    Forall (fun u => u_struct_type_id u = global_ubo_type s0) new.
Proof.
  revert s0. induction l as [|i l IH]; intros s0 Ht Hv.
  - exists []. cbn. rewrite app_nil_r. repeat split; constructor.
  - cbn [mapM]. destruct (UniformFacts.define_uniform_full i s0) as (R & T & V & N & _ & U).
    unfold bind. destruct (define_uniform i s0) as [r s1] eqn:Ed. cbn [fst snd] in *.
    rewrite (proj2 (Z.eqb_neq _ _) Ht) in *. rewrite (proj2 (Z.eqb_neq _ _) Hv) in *.
    destruct (IH s1 ltac:(congruence) ltac:(congruence)) as (new & R1 & T1 & V1 & N1 & U1 & F1).
    destruct (mapM define_uniform l s1) as [ys s2]. cbn [fst snd] in *. unfold ret. cbn [fst snd].
    eexists. split; [| split; [| split; [| split; [| split]]]].
    + rewrite R1, R, V. reflexivity.
    + congruence.
    + congruence.
    + congruence.
    + rewrite U1, U, <- app_assoc. reflexivity.
    + constructor; [cbn; congruence | rewrite T in F1; exact F1].
Qed.

(** However many uniforms are declared, [define_uniform] allocates ids only
    on the first call, starting from a fresh generator state: the block type
    gets [next_id] and the block variable [next_id + 1]; every call returns
    the block variable, and every uniform records the block type. *)
Theorem define_uniform_ids (infos : list uniform_info) (s : state) :
  global_ubo_type s = 0 -> global_ubo_variable s = 0 -> 1 <= next_id s -> infos <> [] ->
  let r := mapM define_uniform infos s in
  fst r = repeat (next_id s + 1) (List.length infos) /\
  global_ubo_type (snd r) = next_id s /\
  global_ubo_variable (snd r) = next_id s + 1 /\
  next_id (snd r) = next_id s + 2 /\
  exists new, uniforms (snd r) = uniforms s ++ new /\ List.length new = List.length infos /\
    Forall (fun u => u_struct_type_id u = next_id s) new.
Proof.
  intros Ht Hv Hn Hne. destruct infos as [|i l]; [contradiction|]. cbv zeta.
  cbn [mapM]. destruct (UniformFacts.define_uniform_full i s) as (R & T & V & N & _ & U).
  unfold bind. destruct (define_uniform i s) as [r s1] eqn:Ed. cbn [fst snd] in *.
  rewrite Ht, Hv in *. cbn in R, T, V, N, U.
  destruct (define_uniforms_fixed l s1 ltac:(lia) ltac:(lia)) as (new & R1 & T1 & V1 & N1 & U1 & F1).
  pose proof (f_equal (@List.length uniform_info) U1) as Lnew.
  assert (Lm : forall s0, List.length (uniforms (snd (mapM define_uniform l s0))) =
                          (List.length (uniforms s0) + List.length l)%nat).
  { clear. induction l as [|j l IH]; intros s0; cbn [mapM]; [cbn; lia|].
    destruct (UniformFacts.define_uniform_full j s0) as (_ & _ & _ & _ & _ & U).
    unfold bind. destruct (define_uniform j s0) as [r s1]. cbn [snd] in U.
    specialize (IH s1). destruct (mapM define_uniform l s1) as [ys s2]. unfold ret.
    cbn [snd List.length] in *. rewrite IH, U, length_app. cbn. lia. }
  specialize (Lm s1). rewrite Lnew, length_app in Lm.
  destruct (mapM define_uniform l s1) as [ys s2]. cbn [fst snd] in *. unfold ret. cbn [fst snd].
  split; [| split; [| split; [| split]]].
  - rewrite R1, R, V. reflexivity.
  - congruence.
  - congruence.
  - lia.
  - exists (mk_uniform_info (u_name i) (u_type i) (align (global_ubo_offset s) (uniform_size (u_type i)))
                            (Z.of_nat (List.length (uniforms s))) (next_id s) :: new).
    split; [rewrite U1, U, <- app_assoc; reflexivity |].
    split; [cbn [List.length]; rewrite U, length_app in Lm; cbn in Lm; lia |].
    constructor; [reflexivity | rewrite T in F1; exact F1].
Qed.

End UniformIds.

Module TypeMemo.
Import Spirv Codegen.

(** Nesting rank of a type, following the dispatch of [convert_type]. *)
Definition trank (t : type) : nat :=
  if is_ptr t then 4 else if is_array t then 3 else if is_matrix t then 2
  else if is_vector t then 1
  else match base t with t_texture => 1 | t_sampler => 2 | _ => 0 end.

(** [m] only appends entries satisfying [P] to [_type_lookup]. *)
Definition TRg (P : type * Z -> Prop) {A} (m : CG A) : Prop :=
  forall s, exists new, type_lookup (snd (m s)) = type_lookup s ++ new /\ Forall P new.

Lemma trg_same P {A} (m : CG A) : (forall s, type_lookup (snd (m s)) = type_lookup s) -> TRg P m.
Proof. intros H s. exists []. rewrite app_nil_r. split; [apply H | constructor]. Qed.

Lemma trg_bind P {A B} (m : CG A) (k : A -> CG B) :
  TRg P m -> (forall a, TRg P (k a)) -> TRg P (bind m k).
Proof.
  intros Hm Hk s. unfold bind. destruct (Hm s) as (n1 & E1 & F1).
  destruct (m s) as [a s1]. cbn [snd] in E1.
  destruct (Hk a s1) as (n2 & E2 & F2).
  exists (n1 ++ n2). rewrite E2, E1, app_assoc. split; [reflexivity|].
  apply Forall_app; split; assumption.
Qed.

Lemma trg_push_type (P : type * Z -> Prop) info id : P (info, id) -> TRg P (push_type info id).
Proof. intros H s. exists [(info, id)]. split; [reflexivity | repeat constructor; exact H]. Qed.

Lemma trg_mapM P {A B} (f : A -> CG B) (l : list A) :
  (forall x, TRg P (f x)) -> TRg P (mapM f l).
Proof.
  intros Hf. induction l as [|x l IH]; cbn [mapM]; [apply trg_same; reflexivity|].
  apply trg_bind; [apply Hf|]. intros y. apply trg_bind; [exact IH|].
  intros ys. apply trg_same; reflexivity.
Qed.

Lemma trg_repeatM P {A} (n : nat) (c : CG A) : TRg P c -> TRg P (repeatM n c).
Proof.
  intros Hc. induction n as [|n IH]; cbn [repeatM]; [apply trg_same; reflexivity|].
  apply trg_bind; [exact Hc|]. intros x. apply trg_bind; [exact IH|].
  intros xs. apply trg_same; reflexivity.
Qed.

Lemma trg_weaken (P Q : type * Z -> Prop) {A} (m : CG A) :
  (forall e, P e -> Q e) -> TRg P m -> TRg Q m.
Proof.
  intros HPQ Hm s. destruct (Hm s) as (n & E & F). exists n.
  split; [exact E | eapply Forall_impl; [exact HPQ | exact F]].
Qed.

Ltac trg_tac :=
  repeat match goal with
  | |- TRg _ (bind _ _) => apply trg_bind; [|intro; cbv beta]
  | |- TRg _ (ret _) => apply trg_same; reflexivity
  | |- TRg _ get => apply trg_same; reflexivity
  | |- TRg _ (add_instruction _ _ _ _) => apply trg_same; reflexivity
  | |- TRg _ (push_constant _ _ _) => apply trg_same; reflexivity
  | |- TRg _ (mapM _ _) => apply trg_mapM; intro
  | |- TRg _ (repeatM _ _) => apply trg_repeatM
  | |- TRg _ (if ?b then _ else _) => destruct b eqn:?
  | |- TRg _ (match ?x with _ => _ end) => destruct x eqn:?
  end.

(** [m] returns an id [r] and appends entries satisfying [P], then
    [(info, r)], to [_type_lookup]. *)
Definition Ends (info : type) (P : type * Z -> Prop) (m : CG Z) : Prop :=
  forall s, exists new,
    type_lookup (snd (m s)) = type_lookup s ++ new ++ [(info, fst (m s))] /\ Forall P new.

Lemma ends_bind info P {A} (m : CG A) (k : A -> CG Z) :
  TRg P m -> (forall a, Ends info P (k a)) -> Ends info P (bind m k).
Proof.
  intros Hm Hk s. unfold bind. destruct (Hm s) as (n1 & E1 & F1).
  destruct (m s) as [a s1]. cbn [snd] in E1.
  destruct (Hk a s1) as (n2 & E2 & F2).
  exists (n1 ++ n2). rewrite E2, E1, <- !app_assoc. split; [reflexivity|].
  apply Forall_app; split; assumption.
Qed.

Lemma ends_push info P (m : CG Z) :
  TRg P m -> Ends info P (ty <- m ;; push_type info ty ;; ret ty).
Proof.
  intros Hm s. unfold bind. destruct (Hm s) as (n1 & E1 & F1).
  destruct (m s) as [a s1]. cbn [snd] in E1. exists n1. cbn. rewrite E1, <- app_assoc.
  split; [reflexivity | exact F1].
Qed.

Lemma ends_push_ret info P (id : Z) : Ends info P (push_type info id ;; ret id).
Proof. intros s. exists []. split; [reflexivity | constructor]. Qed.

Definition rank_below (n : nat) (e : type * Z) : Prop := (trank (fst e) < n)%nat.
Definition upto (n : nat) (e : type * Z) : Prop := (trank (fst e) <= n)%nat.

Lemma trank_np (t : type) : is_ptr t = false -> (trank t <= 3)%nat.
Proof.
  intros H. unfold trank. rewrite H.
  destruct (is_array t), (is_matrix t), (is_vector t), (base t); cbn; lia.
Qed.

Lemma trank_np_na (t : type) : is_ptr t = false -> is_array t = false -> (trank t <= 2)%nat.
Proof.
  intros H Ha. unfold trank. rewrite H, Ha.
  destruct (is_matrix t), (is_vector t), (base t); cbn; lia.
Qed.

Section Bodies.
Variable conv : type -> CG Z.
Variable emit : type -> constant -> CG Z.
Hypothesis conv_rank : forall i, TRg (upto (trank i)) (conv i).
Hypothesis emit_rank : forall t d, TRg (upto (trank t)) (emit t d).

Lemma sub_call (n : nat) (i : type) :
  (trank i < n)%nat -> TRg (rank_below n) (conv i).
Proof.
  intros H. eapply trg_weaken; [|apply conv_rank]. unfold upto, rank_below. intros; lia.
Qed.

Lemma sub_emit (n : nat) (t : type) (d : constant) :
  (trank t < n)%nat -> TRg (rank_below n) (emit t d).
Proof.
  intros H. eapply trg_weaken; [|apply emit_rank]. unfold upto, rank_below. intros; lia.
Qed.

(** A [convert_type_new] run either is the [t_string] default (nothing
    written, 0 returned) or ends with the entry for [info], after entries of
    lower rank. *)
Lemma convert_type_new_ends (info : type) :
  (is_ptr info = false /\ is_array info = false /\ is_matrix info = false /\
   is_vector info = false /\ base info = t_string) \/
  Ends info (rank_below (trank info)) (convert_type_new conv emit info).
Proof.
  unfold convert_type_new.
  destruct (is_ptr info) eqn:Hp.
  { right. apply ends_bind; [apply sub_call; pose proof (trank_np (strip_ptr info) eq_refl);
                             unfold trank at 2; rewrite Hp; lia|].
    intros elemtype. cbv zeta. apply ends_push. apply trg_same. reflexivity. }
  destruct (is_array info) eqn:Ha.
  { right. assert (T : trank info = 3%nat) by (unfold trank; rewrite Hp, Ha; reflexivity).
    apply ends_bind.
    { apply sub_call. rewrite T.
      pose proof (trank_np_na (with_array_length info 0) Hp eq_refl). lia. }
    intros elemtype. apply ends_push. trg_tac.
    apply sub_emit. rewrite T. cbn. lia. }
  destruct (is_matrix info) eqn:Hm.
  { right. assert (T : trank info = 2%nat) by (unfold trank; rewrite Hp, Ha, Hm; reflexivity).
    apply ends_bind.
    { apply sub_call. rewrite T. unfold trank.
      unfold is_matrix in Hm. apply andb_true_iff in Hm as [Hm Hc]. apply andb_true_iff in Hm as [Hn _].
      cbn [is_ptr with_rows_cols]. rewrite Hp. unfold is_array, is_matrix, is_vector, is_numeric in *.
      cbn [array_length rows cols base with_rows_cols]. rewrite Ha.
      rewrite Hn, Hc. change (1 <? 1) with false. rewrite !andb_false_r. cbn. lia. }
    intros elemtype. apply ends_push. trg_tac. }
  destruct (is_vector info) eqn:Hv.
  { right. assert (T : trank info = 1%nat) by (unfold trank; rewrite Hp, Ha, Hm, Hv; reflexivity).
    apply ends_bind.
    { apply sub_call. rewrite T. unfold trank.
      unfold is_vector in Hv. apply andb_true_iff in Hv as [Hv _]. apply andb_true_iff in Hv as [Hn _].
      unfold is_array, is_matrix, is_vector, is_numeric in *.
      cbn [is_ptr array_length rows cols base with_rows_cols]. rewrite Hp, Ha.
      change (1 <? 1) with false. rewrite !andb_false_r.
      destruct (base info); try discriminate; cbn; lia. }
    intros elemtype. apply ends_push. trg_tac. }
  assert (T : trank info = match base info with t_texture => 1 | t_sampler => 2 | _ => 0 end%nat)
    by (unfold trank; rewrite Hp, Ha, Hm, Hv; reflexivity).
  destruct (base info) eqn:Hb; try (left; repeat split; reflexivity || assumption);
    right; try (apply ends_push; trg_tac; fail); try apply ends_push_ret.
  - apply ends_bind; [apply sub_call; rewrite T; cbn; lia |].
    intros x. apply ends_push. trg_tac.
  - apply ends_bind; [apply sub_call; rewrite T; cbn; lia |].
    intros x. apply ends_push. trg_tac.
Qed.

Lemma emit_constant_new_rank (t : type) (d : constant) :
  TRg (upto (trank t)) (emit_constant_new conv emit t d).
Proof.
  unfold emit_constant_new.
  assert (Sub : forall t', (is_ptr t = true -> is_ptr t' = true) ->
                 (is_ptr t = false -> (trank t' <= trank t)%nat) ->
                 forall d', TRg (upto (trank t)) (emit t' d')).
  { intros t' H1 H2 d'. eapply trg_weaken; [|apply emit_rank]. unfold upto. intros e He.
    destruct (is_ptr t) eqn:Hp.
    - assert (trank t = 4%nat) as -> by (unfold trank; rewrite Hp; reflexivity).
      assert (trank t' = 4%nat) as E by (unfold trank; rewrite H1; reflexivity). lia.
    - specialize (H2 eq_refl). lia. }
  assert (Conv : TRg (upto (trank t)) (conv t)) by apply conv_rank.
  destruct (is_array t) eqn:Ha.
  { assert (Se : forall d', TRg (upto (trank t)) (emit (with_array_length t 0) d')).
    { apply Sub; [intro; assumption|]. intros Hp.
      assert (trank t = 3%nat) as -> by (unfold trank; rewrite Hp, Ha; reflexivity).
      apply trank_np; assumption. }
    trg_tac; first [apply Se | apply Conv]. }
  destruct (is_struct t) eqn:Hs; [trg_tac; apply Conv|].
  destruct (is_matrix t) eqn:Hm.
  { assert (Se : forall d', TRg (upto (trank t)) (emit (with_rows_cols t (cols t) 1) d')).
    { apply Sub; [intro; assumption|]. intros Hp.
      assert (trank t = 2%nat) as -> by (unfold trank; rewrite Hp, Ha, Hm; reflexivity).
      apply trank_np_na; assumption. }
    trg_tac; first [apply Se | apply Conv]. }
  destruct (is_vector t) eqn:Hv.
  { assert (Se : forall d', TRg (upto (trank t)) (emit (with_rows_cols t 1 (cols t)) d')).
    { apply Sub; [intro; assumption|]. intros Hp.
      assert (trank t = 1%nat) as -> by (unfold trank; rewrite Hp, Ha, Hm, Hv; reflexivity).
      unfold is_vector in Hv. apply andb_true_iff in Hv as [Hv Hc]. apply andb_true_iff in Hv as [Hn _].
      apply Z.eqb_eq in Hc.
      unfold trank, is_array, is_matrix, is_vector, is_numeric in *.
      cbn [is_ptr array_length rows cols base with_rows_cols]. rewrite Hp, Ha, Hc.
      change (1 <? 1) with false. rewrite !andb_false_r.
      destruct (base t); try discriminate; cbn; lia. }
    trg_tac; first [apply Se | apply Conv]. }
  trg_tac; apply Conv.
Qed.

End Bodies.

Lemma convert_type_S_eq (f : nat) (info : type) (s : state) :
  convert_type (S f) info s =
  match find_first (type_entry_matches info) (type_lookup s) with
  | Some (_, id) => (id, s)
  | None => convert_type_new (convert_type f) (emit_constant f) info s
  end.
Proof. cbn [convert_type]. unfold bind, get. destruct (find_first _ _) as [[? ?]|]; reflexivity. Qed.

Lemma fuel_rank (f : nat) :
  (forall i, TRg (upto (trank i)) (convert_type f i)) /\
  (forall t d, TRg (upto (trank t)) (emit_constant f t d)).
Proof.
  induction f as [|f (IH1 & IH2)]; [split; intros; apply trg_same; reflexivity|].
  split.
  - intros i s. rewrite convert_type_S_eq.
    destruct (find_first (type_entry_matches i) (type_lookup s)) as [[t0 id]|].
    + exists []. rewrite app_nil_r. split; [reflexivity | constructor].
    + destruct (convert_type_new_ends _ _ IH1 IH2 i) as [(Hp & Ha & Hm & Hv & Hb) | He].
      * exists []. rewrite app_nil_r. split; [|constructor].
        unfold convert_type_new. rewrite Hp, Ha, Hm, Hv, Hb. reflexivity.
      * destruct (He s) as (n & E & F). exists (n ++ [(i, fst (convert_type_new (convert_type f) (emit_constant f) i s))]).
        rewrite E. split; [reflexivity|]. apply Forall_app. split.
        -- eapply Forall_impl; [|exact F]. unfold rank_below, upto. intros; lia.
        -- repeat constructor.
  - intros t d. cbn [emit_constant]. trg_tac.
    apply emit_constant_new_rank; assumption.
Qed.

Lemma type_eqb_trank (a b : type) : type_eqb a b = true -> trank a = trank b.
Proof.
  unfold type_eqb. intros H. repeat (apply andb_true_iff in H as [H ?]).
  apply CodegenFacts.base_eqb_eq in H.
  repeat match goal with
  | E : (_ =? _) = true |- _ => apply Z.eqb_eq in E
  | E : Bool.eqb _ _ = true |- _ => apply Bool.eqb_prop in E
  end.
  unfold trank, is_array, is_matrix, is_vector, is_numeric.
  repeat match goal with
  | E : ?f a = ?f b |- _ => rewrite E; clear E
  end.
  reflexivity.
Qed.

Lemma type_entry_matches_refl (info : type) (id : Z) : type_entry_matches info (info, id) = true.
Proof.
  unfold type_entry_matches. cbn [fst]. rewrite CodegenFacts.type_eqb_refl, Z.eqb_refl, orb_true_r.
  reflexivity.
Qed.

(** [convert_type] is memoised: called again on the state its first call
    left, with any fuel, it returns the same id and changes nothing. *)
Theorem convert_type_memo (f f' : nat) (info : type) (s : state) :
  convert_type (S f') info (snd (convert_type (S f) info s)) =
  (fst (convert_type (S f) info s), snd (convert_type (S f) info s)).
Proof.
  rewrite (convert_type_S_eq f info s).
  destruct (find_first (type_entry_matches info) (type_lookup s)) as [[t0 id]|] eqn:F.
  - cbn [fst snd]. rewrite convert_type_S_eq, F. reflexivity.
  - destruct (fuel_rank f) as [IH1 IH2].
    destruct (convert_type_new_ends _ _ IH1 IH2 info) as [(Hp & Ha & Hm & Hv & Hb) | He].
    + assert (E : forall c e, convert_type_new c e info s = (0, s)).
      { intros c e. unfold convert_type_new. rewrite Hp, Ha, Hm, Hv, Hb. reflexivity. }
      rewrite E. cbn [fst snd]. rewrite convert_type_S_eq, F, E. reflexivity.
    + destruct (He s) as (n & E & Fn).
      destruct (convert_type_new (convert_type f) (emit_constant f) info s) as [r s'] eqn:Ec.
      cbn [fst snd] in *. rewrite convert_type_S_eq, E, CodegenFacts.find_first_app, F.
      rewrite CodegenFacts.find_first_app.
      rewrite CodegenFacts.find_first_none.
      * cbn. rewrite type_entry_matches_refl. reflexivity.
      * eapply Forall_impl; [|exact Fn]. intros [t0 id0] Hb.
        unfold rank_below in Hb. cbn [fst] in Hb. unfold type_entry_matches. cbn [fst].
        destruct (type_eqb t0 info) eqn:Eq; [|reflexivity].
        apply type_eqb_trank in Eq. lia.
Qed.

End TypeMemo.

Module LinkerLog.
Import Linker LinkerFacts.

(** No [Error] line among the messages. *)
Definition no_error (l : list message) : bool :=
  forallb (fun m => match m with Error _ => false | _ => true end) l.

(** [m] only appends to [_errors], and clears [_success] exactly when it
    appends an [Error] line. *)
Definition logs {A} (m : L A) : Prop :=
  forall c, exists new, errors (snd (m c)) = errors c ++ new /\
                        success (snd (m c)) = success c && no_error new.

Lemma logs_frame {A} (m : L A) :
  (forall c, errors (snd (m c)) = errors c /\ success (snd (m c)) = success c) -> logs m.
Proof.
  intros H c. exists []. destruct (H c) as [E S]. rewrite E, S, app_nil_r, andb_true_r.
  split; reflexivity.
Qed.

Lemma logs_ret {A} (a : A) : logs (ret a).
Proof. apply logs_frame. split; reflexivity. Qed.
Lemma logs_get : logs get.
Proof. apply logs_frame. split; reflexivity. Qed.
Lemma logs_bind {A B} (m : L A) (k : A -> L B) :
  logs m -> (forall a, logs (k a)) -> logs (bind m k).
Proof.
  intros Hm Hk c. unfold bind. destruct (Hm c) as (n1 & E1 & S1).
  destruct (m c) as [a c1]. cbn [snd] in E1, S1. destruct (Hk a c1) as (n2 & E2 & S2).
  exists (n1 ++ n2). rewrite E2, E1, S2, S1, app_assoc. split; [reflexivity|].
  unfold no_error. rewrite forallb_app. symmetry. apply andb_assoc.
Qed.
Lemma logs_error (msg : string) : logs (error msg).
Proof. intros c. exists [Error msg]. cbn. rewrite andb_false_r. split; reflexivity. Qed.
Lemma logs_warning (msg : string) : logs (warning msg).
Proof. intros c. exists [Warning msg]. cbn. rewrite andb_true_r. split; reflexivity. Qed.

Ltac logs_tac :=
  repeat first
    [ apply logs_bind; intros
    | apply logs_ret | apply logs_get | apply logs_error | apply logs_warning
    | apply logs_frame; intros; split; reflexivity
    | destruct_match ].

Lemma logs_render_target_loop (e : env) (pi : pass_info) (ks : list nat) (p : pass) :
  logs (render_target_loop e pi ks p).
Proof.
  revert p. induction ks as [|k ks IH]; intros p; cbn [render_target_loop]; logs_tac; try apply IH.
Qed.

Lemma logs_visit_pass (e : env) (pi : pass_info) : logs (visit_pass e pi).
Proof. unfold visit_pass. logs_tac; apply logs_render_target_loop. Qed.

Lemma logs_pass_loop (e : env) (l : list pass_info) (acc : list pass) : logs (pass_loop e l acc).
Proof.
  revert acc. induction l as [|pi l IH]; intros acc; cbn [pass_loop]; [apply logs_ret|].
  apply logs_bind; [apply logs_visit_pass|]. intros [p|]; [apply IH | apply logs_ret].
Qed.

(** The linker's error log is append-only: each visit of a texture, a
    sampler or a technique, and each entry-point compilation, only appends
    lines to it, and clears the success flag exactly when one of those lines
    is an error; the flag is never set back to [true]. *)
Theorem linker_log_discipline :
  (forall e info, logs (visit_texture e info)) /\
  (forall e info, logs (visit_sampler e info)) /\
  (forall e name is_ps, logs (compile_entry_point e name is_ps)) /\
  (forall e info, logs (visit_technique e info)).
Proof.
  split; [| split; [| split]].
  - intros e info. unfold visit_texture. logs_tac.
  - intros e info. unfold visit_sampler. logs_tac.
  - intros e name is_ps. unfold compile_entry_point. destruct (D3DCompile e name is_ps) as [hr errs].
    apply logs_bind.
    + destruct errs as [text|]; [|apply logs_ret].
      intros c. exists [Raw text]. cbn. rewrite andb_true_r. split; reflexivity.
    + intros _. logs_tac.
  - intros e info. unfold visit_technique. logs_tac. apply logs_pass_loop.
Qed.

End LinkerLog.

Module LinkerRegistry.
Import Linker LinkerFacts.

Lemma find_texture_app_new (r : runtime) (t : runtime_texture) (name : string) :
  find_texture r name = None -> t_unique_name t = name ->
  find_texture (set_textures r (textures r ++ [t])) name = Some t.
Proof.
  intros F En. unfold find_texture in *. cbn [textures set_textures].
  rewrite CodegenFacts.find_first_app, F. cbn. rewrite En, String.eqb_refl. reflexivity.
Qed.

Ltac new_tex F := right; eexists; split; [reflexivity|]; split;
  [apply find_texture_app_new; [exact F | reflexivity] |];
  cbn; repeat split; reflexivity || discriminate.
Ltac err_tex := left; cbn; split; [reflexivity | split; [reflexivity | eexists; reflexivity]].

(** Declaring a texture under a new name either registers exactly one new
    texture under that name, found by the next lookup, with the declared
    levels and format, leaving the log and the success flag alone; or
    registers nothing and records one error. [COLOR] and [DEPTH] textures
    take the frame size and have no texture object of their own; other
    textures have the declared size and a texture object. *)
Theorem visit_texture_registers (e : env) (info : texture_info) (c : compiler) :
  find_texture (rt c) (ti_unique_name info) = None ->
  let c' := snd (visit_texture e info c) in
  (textures (rt c') = textures (rt c) /\ success c' = false /\
   exists msg, errors c' = errors c ++ [Error msg]) \/
  (exists t,
     textures (rt c') = textures (rt c) ++ [t] /\
     find_texture (rt c') (ti_unique_name info) = Some t /\
     t_levels t = ti_levels info /\ t_format t = ti_format info /\
     errors c' = errors c /\ success c' = success c /\
     if String.eqb (ti_semantic info) "COLOR" || String.eqb (ti_semantic info) "DEPTH"
     then t_width t = frame_width (rt c) /\ t_height t = frame_height (rt c) /\
          texture (t_impl t) = None
     else t_width t = ti_width info /\ t_height t = ti_height info /\
          texture (t_impl t) <> None).
Proof.
  intros F. cbv zeta. unfold visit_texture, bind, get. cbn [fst snd]. rewrite F.
  set (name := ti_unique_name info) in *.
  set (format := literal_to_format e (ti_format info)).
  destruct (String.eqb (ti_semantic info) "COLOR") eqn:Ec.
  { new_tex F. }
  destruct (String.eqb (ti_semantic info) "DEPTH") eqn:Ed.
  { new_tex F. }
  destruct (negb (String.eqb (ti_semantic info) EmptyString)).
  { err_tex. }
  destruct (CreateTexture2D e (ti_width info) (ti_height info) (ti_levels info) format) as [hr tex].
  destruct (FAILED hr); [err_tex|].
  destruct (CreateShaderResourceView e (Some tex) (make_format_normal format)) as [hr0 srv0].
  destruct (FAILED hr0); [err_tex|].
  destruct (negb (make_format_srgb format =? format)).
  - destruct (CreateShaderResourceView e (Some tex) (make_format_srgb format)) as [hr1 srv1].
    destruct (FAILED hr1); [err_tex | new_tex F].
  - new_tex F.
Qed.

(** After a sampler on a registered texture is visited, either the
    descriptor was not cached, the sampler state could not be created, and
    both binding lists are unchanged, with the module failed; or both lists
    grow to at least [binding + 1] entries, slot [binding] holds the sampler
    state (the cached one for the descriptor's hash, else the one
    [CreateSamplerState] created) and the texture's linear or sRGB view, and
    every other slot reads as before (new slots are null). *)
Theorem visit_sampler_bindings (e : env) (info : sampler_info) (c : compiler)
    (existing : runtime_texture) :
  find_texture (rt c) (si_texture_name info) = Some existing ->
  let c' := snd (visit_sampler e info c) in
  let b := si_binding info in
  let cached := assoc_find (desc_hash (sampler_desc_bytes info)) (effect_sampler_states (rt c)) in
  let smp := match cached with
             | Some smp => smp
             | None => snd (CreateSamplerState e (sampler_desc_bytes info))
             end in
  (cached = None /\ FAILED (fst (CreateSamplerState e (sampler_desc_bytes info))) = true /\
   sampler_bindings c' = sampler_bindings c /\ texture_bindings c' = texture_bindings c /\
   success c' = false) \/
  (List.length (sampler_bindings c') = Nat.max (List.length (sampler_bindings c)) (S b) /\
     List.length (texture_bindings c') = Nat.max (List.length (texture_bindings c)) (S b) /\
     nth_error (sampler_bindings c') b = Some (Some smp) /\
     nth_error (texture_bindings c') b = Some (pick (si_srgb info) (srv (t_impl existing))) /\
     forall j, j <> b ->
       nth j (sampler_bindings c') None = nth j (sampler_bindings c) None /\
       nth j (texture_bindings c') None = nth j (texture_bindings c) None).
Proof.
  intros F. cbv zeta. unfold visit_sampler, bind, get. cbn [fst snd]. rewrite F.
  set (h := desc_hash (sampler_desc_bytes info)).
  assert (Bind : forall {A} (l : list (option A)) (x : option A) j,
            j <> si_binding info ->
            nth j (list_set (grow (Nat.max (List.length l) (S (si_binding info))) None l)
                     (si_binding info) x) None = nth j l None).
  { intros A l x j Hj.
    assert (Hl : (si_binding info < List.length (grow (Nat.max (List.length l) (S (si_binding info))) None l))%nat)
      by (rewrite grow_length; lia).
    rewrite <- !nth_default_eq. unfold nth_default.
    rewrite list_set_nth by exact Hl.
    apply Nat.eqb_neq in Hj. rewrite Hj. unfold grow.
    destruct (Nat.lt_ge_cases j (List.length l)) as [L | L].
    - rewrite nth_error_app1 by exact L. reflexivity.
    - rewrite nth_error_app2 by exact L. rewrite (proj2 (nth_error_None l j)) by exact L.
      destruct (nth_error (repeat None _) (j - List.length l)) eqn:E; [|reflexivity].
      apply nth_error_In, repeat_spec in E. subst. reflexivity. }
  assert (Done : forall smp c1, sampler_bindings c1 = sampler_bindings c ->
                  texture_bindings c1 = texture_bindings c ->
     let c' := snd (modify (fun c0 =>
        let b := si_binding info in
        let sb := grow (Nat.max (List.length (sampler_bindings c0)) (S b)) None (sampler_bindings c0) in
        let tb := grow (Nat.max (List.length (texture_bindings c0)) (S b)) None (texture_bindings c0) in
        set_bindings c0 (list_set sb b (Some smp))
          (list_set tb b (pick (si_srgb info) (srv (t_impl existing))))) c1) in
     List.length (sampler_bindings c') = Nat.max (List.length (sampler_bindings c)) (S (si_binding info)) /\
     List.length (texture_bindings c') = Nat.max (List.length (texture_bindings c)) (S (si_binding info)) /\
     nth_error (sampler_bindings c') (si_binding info) = Some (Some smp) /\
     nth_error (texture_bindings c') (si_binding info) = Some (pick (si_srgb info) (srv (t_impl existing))) /\
     forall j, j <> si_binding info ->
       nth j (sampler_bindings c') None = nth j (sampler_bindings c) None /\
       nth j (texture_bindings c') None = nth j (texture_bindings c) None).
  { intros smp c1 E1 E2. cbn. rewrite E1, E2.
    split; [rewrite list_set_length, grow_length by (rewrite ?grow_length; lia); reflexivity|].
    split; [rewrite list_set_length, grow_length by (rewrite ?grow_length; lia); reflexivity|].
    split; [apply grow_set_nth|]. split; [apply grow_set_nth|].
    intros j Hj. split; apply Bind; exact Hj. }
  destruct (assoc_find h (effect_sampler_states (rt c))) as [smp|].
  - right. cbn [ret]. exact (Done smp c eq_refl eq_refl).
  - destruct (CreateSamplerState e (sampler_desc_bytes info)) as [hr smp]. cbn [fst snd].
    destruct (FAILED hr) eqn:Fh.
    + left. cbn. repeat split; reflexivity.
    + right. cbn [modify ret]. exact (Done smp _ eq_refl eq_refl).
Qed.

Lemma map_find_set (k k' : string) (v : Z) (l : list (string * Z)) :
  map_find k' (map_set k v l) = if String.eqb k' k then Some v else map_find k' l.
Proof.
  unfold map_find, map_set. cbn [Codegen.find_first fst].
  rewrite (String.eqb_sym k k'). destruct (String.eqb k' k) eqn:E; [reflexivity|].
  apply String.eqb_neq in E.
  induction l as [|[k0 v0] l IH]; [reflexivity|]. cbn [filter fst Codegen.find_first].
  destruct (String.eqb k0 k) eqn:E0; cbn [negb].
  - apply String.eqb_eq in E0. subst k0. rewrite (proj2 (String.eqb_neq k k')) by congruence. exact IH.
  - cbn [Codegen.find_first fst]. destruct (String.eqb k0 k'); [reflexivity | exact IH].
Qed.

(** Compiling an entry point touches only the entry-point map of its own
    stage, and there only its own name. If HLSL compilation fails, an error
    is recorded and the map is unchanged. Otherwise the entry point's name is
    entered with the shader the device wrote, whether or not shader creation
    succeeds, and the success flag is cleared exactly when shader creation
    fails. *)
Theorem compile_entry_point_maps (e : env) (name : string) (is_ps : bool) (c : compiler) :
  let c' := snd (compile_entry_point e name is_ps c) in
  let stage := fun c0 => if is_ps then ps_entry_points c0 else vs_entry_points c0 in
  let other := fun c0 => if is_ps then vs_entry_points c0 else ps_entry_points c0 in
  other c' = other c /\
  (forall n, n <> name -> map_find n (stage c') = map_find n (stage c)) /\
  (FAILED (fst (D3DCompile e name is_ps)) = true ->
   stage c' = stage c /\ success c' = false) /\
  (FAILED (fst (D3DCompile e name is_ps)) = false ->
   map_find name (stage c') = Some (snd (CreateShader e name is_ps)) /\
   success c' = success c && negb (FAILED (fst (CreateShader e name is_ps)))).
Proof.
  cbv zeta. unfold compile_entry_point.
  destruct (D3DCompile e name is_ps) as [hr errs]. cbn [fst].
  destruct (CreateShader e name is_ps) as [hr2 shader]. cbn [fst snd].
  destruct errs as [text|], (FAILED hr), (FAILED hr2), is_ps; cbn;
    (split; [reflexivity | split]);
    try (intros n Hn; rewrite map_find_set; apply String.eqb_neq in Hn; rewrite Hn; reflexivity);
    try (intros n Hn; reflexivity);
    (split; intro H; [try discriminate H | try discriminate H]);
    try (split; reflexivity);
    (rewrite map_find_set, String.eqb_refl; split; [reflexivity|]);
    rewrite ?andb_false_r, ?andb_true_r; reflexivity.
Qed.

Lemma pass_loop_length (e : env) (l : list pass_info) :
  forall acc c ps c', pass_loop e l acc c = (Some ps, c') ->
  List.length ps = (List.length acc + List.length l)%nat.
Proof.
  induction l as [|pi l IH]; intros acc c ps c' H.
  - cbn in H. injection H as <- _. cbn. lia.
  - cbn [pass_loop] in H. apply bind_inv in H. destruct H as (o & c1 & _ & H).
    destruct o as [p|]; [|cbn in H; discriminate].
    apply IH in H. rewrite length_app in H. cbn in *. lia.
Qed.

(** [visit_technique] either leaves the technique list as it is (a pass
    stopped early) or appends exactly one technique, with the declared name,
    the sampler bindings current at its start, and one pass per declared
    pass. *)
Theorem visit_technique_appends (e : env) (info : technique_info) (c : compiler) :
  let c' := snd (visit_technique e info c) in
  techniques (rt c') = techniques (rt c) \/
  exists ps,
    techniques (rt c') = techniques (rt c) ++ [mk_technique (tq_name info) (sampler_bindings c) ps] /\
    List.length ps = List.length (tq_passes info).
Proof.
  cbv zeta. unfold visit_technique, bind, get.
  pose proof (keeps_pass_loop e (tq_passes info) [] c) as Kp.
  destruct (pass_loop e (tq_passes info) [] c) as [o c1] eqn:Ep. cbn [snd] in Kp.
  destruct o as [ps|].
  - right. exists ps. cbn. rewrite Kp. split; [reflexivity|].
    apply pass_loop_length in Ep. cbn in Ep. exact Ep.
  - left. exact Kp.
Qed.

End LinkerRegistry.

Module ErrorCodeText.
Import Linker.

(** Reading back a string of decimal digits, most significant first. *)
Fixpoint read_decimal (s : string) (acc : Z) : option Z :=
  match s with
  | EmptyString => Some acc
  | String.String c r =>
    let d := Z.of_nat (Ascii.nat_of_ascii c) - 48 in
    if (0 <=? d) && (d <? 10) then read_decimal r (acc * 10 + d) else None
  end.

Lemma digits_read (fuel : nat) (n : Z) (acc : string) :
  0 <= n < 10 ^ Z.of_nat fuel ->
  read_decimal (digits fuel n acc) 0 = read_decimal acc n.
Proof.
  revert n acc. induction fuel as [|f IH]; intros n acc Hn.
  - simpl in Hn. assert (n = 0) by lia. subst. reflexivity.
  - assert (Hd : Z.of_nat (Ascii.nat_of_ascii (Ascii.ascii_of_nat (48 + Z.to_nat (n mod 10)))) - 48
                 = n mod 10).
    { rewrite Ascii.nat_ascii_embedding.
      - rewrite Nat2Z.inj_add, Z2Nat.id by (pose proof (Z.mod_pos_bound n 10); lia). lia.
      - pose proof (Z.mod_pos_bound n 10).
        assert (Z.to_nat (n mod 10) < 10)%nat by (apply Nat2Z.inj_lt; rewrite Z2Nat.id; lia).
        lia. }
    assert (Hm := Z.mod_pos_bound n 10).
    cbn [digits]. destruct (n <? 10) eqn:E.
    + apply Z.ltb_lt in E. cbn [read_decimal]. rewrite Hd.
      replace ((0 <=? n mod 10) && (n mod 10 <? 10)) with true by (symmetry; apply andb_true_iff; split; [apply Z.leb_le | apply Z.ltb_lt]; lia).
      rewrite Z.mod_small by lia. f_equal; lia.
    + apply Z.ltb_ge in E. rewrite IH.
      * cbn [read_decimal]. rewrite Hd.
        replace ((0 <=? n mod 10) && (n mod 10 <? 10)) with true by (symmetry; apply andb_true_iff; split; [apply Z.leb_le | apply Z.ltb_lt]; lia).
        pose proof (Z.div_mod n 10). f_equal; lia.
      * rewrite Nat2Z.inj_succ, Z.pow_succ_r in Hn by lia.
        split; [apply Z.div_pos; lia | apply Z.div_lt_upper_bound; lia].
Qed.

(** The error code written into a failure message consists of decimal
    digits that read back to the [HRESULT] taken as a 32-bit unsigned
    value. *)
Theorem to_string_ul_round_trip (hr : Z) :
  read_decimal (to_string_ul hr) 0 = Some (hr mod 2 ^ 32).
Proof.
  unfold to_string_ul. rewrite digits_read.
  - reflexivity.
  - pose proof (Z.mod_pos_bound hr (2 ^ 32)). change (10 ^ Z.of_nat 10) with 10000000000. lia.
Qed.

Lemma string_app_cancel_l (p a b : string) : (p ++ a = p ++ b)%string -> a = b.
Proof. induction p as [|c p IH]; simpl; [auto | intro E; injection E; auto]. Qed.

Lemma list_ascii_of_string_app (a b : string) :
  list_ascii_of_string (a ++ b) = list_ascii_of_string a ++ list_ascii_of_string b.
Proof. induction a as [|c a IH]; simpl; [reflexivity | now rewrite IH]. Qed.

Lemma string_app_cancel_r (a b q : string) : (a ++ q = b ++ q)%string -> a = b.
Proof.
  intro E. apply (f_equal list_ascii_of_string) in E.
  rewrite !list_ascii_of_string_app in E. apply app_inv_tail in E.
  rewrite <- (string_of_list_ascii_of_string a), <- (string_of_list_ascii_of_string b), E.
  reflexivity.
Qed.

(** Two failure messages for the same call are equal exactly when the two
    [HRESULT]s are equal as 32-bit unsigned values. *)
Theorem failed_text_code (call : string) (a b : Z) :
  failed_text call a = failed_text call b <-> a mod 2 ^ 32 = b mod 2 ^ 32.
Proof.
  unfold failed_text. split.
  - intro E. apply string_app_cancel_l, string_app_cancel_l, string_app_cancel_l in E.
    apply string_app_cancel_r in E.
    pose proof (to_string_ul_round_trip a) as Ra. pose proof (to_string_ul_round_trip b) as Rb.
    rewrite E in Ra. congruence.
  - intro E. unfold to_string_ul. rewrite E. reflexivity.
Qed.
End ErrorCodeText.

Module HlslNames.
Import Codegen Hlsl.

(** The base types [write_type] has a name for. *)
Definition named_base (b : base_t) : bool :=
  match b with t_void | t_bool | t_int | t_uint | t_float | t_sampler => true | _ => false end.

(** Reading a type name back: the digits of the row count, then [x] and the
    digits of the column count. *)
Fixpoint read_digits (s : string) (acc : Z) (seen : bool) : Z * bool * string :=
  match s with
  | String.String c r =>
    let d := Z.of_nat (Ascii.nat_of_ascii c) - 48 in
    if (0 <=? d) && (d <? 10) then read_digits r (acc * 10 + d) true else (acc, seen, s)
  | EmptyString => (acc, seen, s)
  end.

Definition read_dims (s : string) : option (Z * Z) :=
  match read_digits s 0 false with
  | (r, seen, rest) =>
    let rows := if seen then r else 1 in
    match rest with
    | EmptyString => Some (rows, 1)
    | String.String c rest' =>
      if Ascii.eqb c x_char then
        match read_digits rest' 0 false with
        | (cl, true, EmptyString) => Some (rows, cl)
        | _ => None
        end
      else None
    end
  end.

(** The name [write_type] starts with. *)
Definition base_name (b : base_t) : string :=
  match b with
  | t_void => "void"
  | t_bool => "bool"
  | t_int => "int"
  | t_uint => "uint"
  | t_float => "float"
  | t_sampler => "__sampler"
  | _ => EmptyString
  end%string.

Definition dims_suffix (r c : Z) : string :=
  String.append (if 1 <? r then to_string_uint r else EmptyString)
    (if 1 <? c then String.String x_char (to_string_uint c) else EmptyString).

Lemma string_app_assoc (a b c : string) : ((a ++ b) ++ c = a ++ (b ++ c))%string.
Proof. induction a as [|ch a IH]; simpl; [reflexivity | now rewrite IH]. Qed.

Lemma string_app_nil_r (a : string) : (a ++ EmptyString)%string = a.
Proof. induction a as [|ch a IH]; simpl; [reflexivity | now rewrite IH]. Qed.

Lemma write_type_split (t : type) :
  write_type t = (base_name (base t) ++ dims_suffix (rows t) (cols t))%string.
Proof.
  unfold write_type, dims_suffix.
  replace (match base t with
           | t_void => "void" | t_bool => "bool" | t_int => "int" | t_uint => "uint"
           | t_float => "float" | t_sampler => "__sampler" | _ => EmptyString end%string)
    with (base_name (base t)) by reflexivity.
  destruct (1 <? rows t), (1 <? cols t); simpl;
    rewrite ?string_app_assoc, ?string_app_nil_r; reflexivity.
Qed.

Lemma digits_app (f : nat) (n : Z) (acc : string) :
  Linker.digits f n acc = (Linker.digits f n EmptyString ++ acc)%string.
Proof.
  revert n acc. induction f as [|f IH]; intros n acc; [reflexivity|].
  cbn [Linker.digits]. destruct (n <? 10); [reflexivity|].
  rewrite IH, (IH _ (String.String _ EmptyString)), string_app_assoc. reflexivity.
Qed.

Lemma digit_char (n : Z) :
  Z.of_nat (Ascii.nat_of_ascii (Ascii.ascii_of_nat (48 + Z.to_nat (n mod 10)))) - 48 = n mod 10.
Proof.
  pose proof (Z.mod_pos_bound n 10).
  rewrite Ascii.nat_ascii_embedding.
  - rewrite Nat2Z.inj_add, Z2Nat.id by lia. lia.
  - assert (Z.to_nat (n mod 10) < 10)%nat by (apply Nat2Z.inj_lt; rewrite Z2Nat.id; lia).
    lia.
Qed.

Lemma digits_S (f : nat) (n : Z) (acc : string) :
  Linker.digits (S f) n acc =
  if n <? 10 then String.String (Ascii.ascii_of_nat (48 + Z.to_nat (n mod 10))) acc
  else Linker.digits f (n / 10) (String.String (Ascii.ascii_of_nat (48 + Z.to_nat (n mod 10))) acc).
Proof. reflexivity. Qed.

Lemma digits_read_digits (f : nat) (n : Z) (acc : string) (seen : bool) :
  0 <= n < 10 ^ Z.of_nat (S f) ->
  read_digits (Linker.digits (S f) n acc) 0 seen = read_digits acc n true.
Proof.
  revert n acc seen. induction f as [|f IH]; intros n acc seen Hn;
    pose proof (Z.mod_pos_bound n 10) as Hm;
    assert (Hok : (0 <=? n mod 10) && (n mod 10 <? 10) = true)
      by (apply andb_true_iff; split; [apply Z.leb_le | apply Z.ltb_lt]; lia);
    rewrite digits_S; destruct (n <? 10) eqn:E.
  - apply Z.ltb_lt in E. cbn [read_digits]. rewrite digit_char, Hok.
    rewrite Z.mod_small by lia. f_equal; f_equal; f_equal; lia.
  - apply Z.ltb_ge in E. simpl in Hn. lia.
  - apply Z.ltb_lt in E. cbn [read_digits]. rewrite digit_char, Hok.
    rewrite Z.mod_small by lia. f_equal; f_equal; f_equal; lia.
  - apply Z.ltb_ge in E. rewrite IH.
    + cbn [read_digits]. rewrite digit_char, Hok.
      pose proof (Z.div_mod n 10). f_equal; f_equal; f_equal; lia.
    + rewrite Nat2Z.inj_succ, Z.pow_succ_r in Hn by lia.
      split; [apply Z.div_pos; lia | apply Z.div_lt_upper_bound; lia].
Qed.

Lemma read_digits_stop (acc : Z) (seen : bool) (rest : string) :
  read_digits (String.String x_char rest) acc seen = (acc, seen, String.String x_char rest).
Proof. reflexivity. Qed.

Lemma read_to_string_uint (n : Z) (rest : string) (seen : bool) :
  read_digits (to_string_uint n ++ rest) 0 seen = read_digits rest (n mod 2 ^ 32) true.
Proof.
  unfold to_string_uint. rewrite <- digits_app. apply digits_read_digits.
  pose proof (Z.mod_pos_bound n (2 ^ 32)).
  change (10 ^ Z.of_nat 10) with 10000000000. lia.
Qed.

Lemma read_dims_suffix (r c : Z) :
  1 <= r < 2 ^ 32 -> 1 <= c < 2 ^ 32 -> read_dims (dims_suffix r c) = Some (r, c).
Proof.
  intros Hr Hc. unfold dims_suffix, read_dims.
  destruct (1 <? r) eqn:Er, (1 <? c) eqn:Ec;
    rewrite ?Z.ltb_lt, ?Z.ltb_ge in Er, Ec.
  - rewrite read_to_string_uint, read_digits_stop, Ascii.eqb_refl.
    rewrite <- (string_app_nil_r (to_string_uint c)), read_to_string_uint.
    rewrite !Z.mod_small by lia. reflexivity.
  - rewrite string_app_nil_r.
    rewrite <- (string_app_nil_r (to_string_uint r)), read_to_string_uint.
    rewrite Z.mod_small by lia. simpl. f_equal. f_equal. lia.
  - cbn [String.append]. rewrite read_digits_stop, Ascii.eqb_refl.
    rewrite <- (string_app_nil_r (to_string_uint c)), read_to_string_uint.
    rewrite Z.mod_small by lia. simpl. f_equal. f_equal. lia.
  - simpl. f_equal. f_equal; lia.
Qed.
Lemma base_name_app_inj (a b : base_t) (x y : string) :
  named_base a = true -> named_base b = true ->
  (base_name a ++ x = base_name b ++ y)%string -> a = b /\ x = y.
Proof.
  intros Ha Hb E.
  destruct a, b; try discriminate Ha; try discriminate Hb;
    try (simpl in E; discriminate E);
    (split; [reflexivity | exact (ErrorCodeText.string_app_cancel_l _ _ _ E)]).
Qed.

(** [codegen_hlsl::write_type] names distinct types distinctly: two types
    with a named base type and row and column counts in [1, 2^32) that are
    written as the same HLSL type name have the same base type, rows and
    columns. *)
Theorem write_type_injective (a b : type) :
  named_base (base a) = true -> named_base (base b) = true ->
  1 <= rows a < 2 ^ 32 -> 1 <= cols a < 2 ^ 32 ->
  1 <= rows b < 2 ^ 32 -> 1 <= cols b < 2 ^ 32 ->
  write_type a = write_type b ->
  base a = base b /\ rows a = rows b /\ cols a = cols b.
Proof.
  intros Ha Hb Hra Hca Hrb Hcb E.
  rewrite !write_type_split in E.
  destruct (base_name_app_inj _ _ _ _ Ha Hb E) as [Eb Es].
  apply (f_equal read_dims) in Es.
  rewrite !read_dims_suffix in Es by assumption.
  injection Es as Er Ec. auto.
Qed.
End HlslNames.

Module ArrayConstants.
Import Spirv Codegen CodegenFacts.

Lemma mapM_length_st {S A B} (f : A -> M S B) (l : list A) (s : S) :
  List.length (fst (mapM f l s)) = List.length l.
Proof.
  revert s. induction l as [|x l IH]; intro s; [reflexivity|].
  cbn [mapM]. unfold bind at 1. destruct (f x s) as [y s1].
  unfold bind. specialize (IH s1). destruct (mapM f l s1) as [ys s2]. cbn in *. lia.
Qed.

Lemma repeatM_length_st {S A} (n : nat) (c : M S A) (s : S) :
  List.length (fst (repeatM n c s)) = n.
Proof.
  revert s. induction n as [|n IH]; intro s; [reflexivity|].
  cbn [repeatM]. unfold bind at 1. destruct (c s) as [y s1].
  unfold bind. specialize (IH s1). destruct (repeatM n c s1) as [ys s2]. cbn in *. lia.
Qed.

(** When [emit_constant] does not find an array constant in its lookup, it
    appends an [OpConstantComposite] as the last instruction of the types and
    constants section, whose result is the returned id and whose operands are
    as many as the larger of the array length and the number of given
    elements (missing elements are zero constants); the constant is then
    recorded at the end of the lookup. *)
Theorem emit_constant_array_composite (f : nat) (t : type) (d : constant) (s : state) :
  is_array t = true ->
  find_first (constant_entry_matches t d) (constant_lookup s) = None ->
  exists ty ops pre,
    types_and_constants (secs (snd (emit_constant (S f) t d s))) =
      pre ++ [mk_instruction OpConstantComposite ty (fst (emit_constant (S f) t d s)) ops] /\
    List.length ops = Nat.max (List.length (array_data d)) (Z.to_nat (array_length t)) /\
    exists cpre, constant_lookup (snd (emit_constant (S f) t d s)) =
      cpre ++ [(t, d, fst (emit_constant (S f) t d s))].
Proof.
  intros Ha H.
  destruct (emit_constant (S f) t d s) as [r s'] eqn:EC. cbn [fst snd].
  cbn [emit_constant] in EC. unfold bind at 1, get in EC. rewrite H in EC.
  unfold emit_constant_new in EC. rewrite Ha in EC.
  set (et := with_array_length t 0) in EC.
  pose proof (mapM_length_st (emit_constant f et) (array_data d) s) as L1.
  unfold bind at 1 2 in EC.
  destruct (mapM (emit_constant f et) (array_data d) s) as [elems s1] eqn:E1.
  cbn [fst] in L1.
  set (n := Z.to_nat (array_length t - Z.of_nat (List.length elems))) in EC.
  pose proof (repeatM_length_st n (emit_constant f et zero_constant) s1) as L2.
  unfold bind at 1 in EC.
  destruct (repeatM n (emit_constant f et zero_constant) s1) as [pad s2] eqn:E2.
  cbn [fst] in L2.
  unfold bind at 1 in EC.
  destruct (convert_type f t s2) as [ty s3] eqn:E3.
  unfold add_instruction, bind, make_id, append, modify, push_constant, ret in EC. cbn in EC.
  injection EC as <- <-. cbn.
  exists ty, (elems ++ pad), (types_and_constants (secs s3)).
  split; [reflexivity|]. split.
  - rewrite length_app, L2. unfold n. rewrite L1. lia.
  - eexists. reflexivity.
Qed.
End ArrayConstants.

Module ExtraWitnesses.
Import Codegen Linker Examples.

Lemma literal_to_format_injective_witness :
  Formats.literal_to_format (Formats.unnamed 3) = Formats.literal_to_format (Formats.unnamed 5) /\
  (Formats.unnamed 3 = Formats.unnamed 5 \/
   (exists x y, Formats.unnamed 3 = Formats.unnamed x /\ Formats.unnamed 5 = Formats.unnamed y)).
Proof.
  split; [reflexivity|].
  apply (FormatFacts.literal_to_format_injective (Formats.unnamed 3) (Formats.unnamed 5)).
  reflexivity.
Defined.

Lemma roundto16_bounds_witness :
  (0 <= 20 /\ 20 + 15 < 2 ^ 64) /\
  Formats.roundto16 20 mod 16 = 0 /\ 20 <= Formats.roundto16 20 < 20 + 16.
Proof.
  split; [lia|]. apply (FormatFacts.roundto16_bounds 20); lia.
Defined.

Lemma roundto16_wraps_witness :
  2 ^ 64 - 16 < 2 ^ 64 - 1 < 2 ^ 64 /\ Formats.roundto16 (2 ^ 64 - 1) = 0.
Proof.
  split; [lia|]. apply (FormatFacts.roundto16_wraps (2 ^ 64 - 1)); lia.
Defined.

Lemma align_bounds_witness :
  (0 < 16 /\ 0 <= 20 /\ 20 + 16 <= 2 ^ 32) /\
  align 20 16 mod 16 = 0 /\ 20 <= align 20 16 < 20 + 16 /\
  (20 mod 16 = 0 -> align 20 16 = 20).
Proof.
  split; [lia|]. apply (StreamFacts.align_bounds 20 16); lia.
Defined.


Lemma write_result_stream_witness :
  let r := write_result abc_state in
  (write_result abc_state = (fst r, snd r) /\
   Forall StreamFacts.well_sized (module_instructions (snd r))) /\
  firstn 5 (fst r) = header (snd r) /\
  Reader.split_by_word_count (List.length (module_instructions (snd r))) (skipn 5 (fst r)) =
    Some (map encode (module_instructions (snd r))) /\
  map Reader.opcode_of (map encode (module_instructions (snd r))) =
    map Spirv.op (module_instructions (snd r)).
Proof.
  cbv zeta.
  assert (HF : Forall StreamFacts.well_sized (module_instructions (snd (write_result abc_state)))).
  { apply Forall_forall. intros x Hx. vm_compute in Hx.
    repeat destruct Hx as [<- | Hx]; try contradiction;
      unfold StreamFacts.well_sized; (split; [split|]); vm_compute; congruence. }
  split; [split; [apply surjective_pairing | exact HF]|].
  apply (StreamFacts.write_result_stream abc_state); [apply surjective_pairing | exact HF].
Defined.

Lemma define_uniforms_layout_witness :
  (uniforms initial_state = [] /\ 0 <= global_ubo_offset initial_state /\
   Forall (fun i => 0 < uniform_size (u_type i)) abc_infos /\
   global_ubo_offset initial_state + 2 * UniformFacts.total_size abc_infos < 2 ^ 32) /\
  let s' := snd (mapM define_uniform abc_infos initial_state) in
  map (fun u => (u_name u, u_type u)) (uniforms s') = map (fun i => (u_name i, u_type i)) abc_infos /\
  (forall k u, nth_error (uniforms s') k = Some u ->
     u_member_index u = Z.of_nat k /\ u_offset u mod uniform_size (u_type u) = 0 /\
     global_ubo_offset initial_state <= u_offset u /\
     u_offset u + uniform_size (u_type u) <= global_ubo_offset s') /\
  (forall i j ui uj, (i < j)%nat ->
     nth_error (uniforms s') i = Some ui -> nth_error (uniforms s') j = Some uj ->
     u_offset ui + uniform_size (u_type ui) <= u_offset uj).
Proof.
  assert (H1 : uniforms initial_state = []) by reflexivity.
  assert (H2 : 0 <= global_ubo_offset initial_state) by (vm_compute; congruence).
  assert (H3 : Forall (fun i => 0 < uniform_size (u_type i)) abc_infos)
    by (repeat constructor).
  assert (H4 : global_ubo_offset initial_state + 2 * UniformFacts.total_size abc_infos < 2 ^ 32)
    by reflexivity.
  split; [auto|].
  exact (UniformFacts.define_uniforms_layout abc_infos initial_state H1 H2 H3 H4).
Defined.

Lemma define_uniform_ids_witness :
  (global_ubo_type initial_state = 0 /\ global_ubo_variable initial_state = 0 /\
   1 <= next_id initial_state /\ abc_infos <> []) /\
  let r := mapM define_uniform abc_infos initial_state in
  fst r = repeat (next_id initial_state + 1) (List.length abc_infos) /\
  global_ubo_type (snd r) = next_id initial_state /\
  global_ubo_variable (snd r) = next_id initial_state + 1 /\
  next_id (snd r) = next_id initial_state + 2 /\
  exists new, uniforms (snd r) = uniforms initial_state ++ new /\
    List.length new = List.length abc_infos /\
    Forall (fun u => u_struct_type_id u = next_id initial_state) new.
Proof.
  assert (H1 : global_ubo_type initial_state = 0) by reflexivity.
  assert (H2 : global_ubo_variable initial_state = 0) by reflexivity.
  assert (H3 : 1 <= next_id initial_state) by (vm_compute; congruence).
  assert (H4 : abc_infos <> []) by discriminate.
  split; [auto|].
  exact (UniformIds.define_uniform_ids abc_infos initial_state H1 H2 H3 H4).
Defined.


Lemma visit_texture_registers_witness :
  find_texture (rt compiler0) (ti_unique_name U_decl) = None /\
  let c' := snd (visit_texture ok_dev U_decl compiler0) in
  (textures (rt c') = textures (rt compiler0) /\ success c' = false /\
   exists msg, errors c' = errors compiler0 ++ [Error msg]) \/
  (exists t,
     textures (rt c') = textures (rt compiler0) ++ [t] /\
     find_texture (rt c') (ti_unique_name U_decl) = Some t /\
     t_levels t = ti_levels U_decl /\ t_format t = ti_format U_decl /\
     errors c' = errors compiler0 /\ success c' = success compiler0 /\
     if String.eqb (ti_semantic U_decl) "COLOR" || String.eqb (ti_semantic U_decl) "DEPTH"
     then t_width t = frame_width (rt compiler0) /\ t_height t = frame_height (rt compiler0) /\
          texture (t_impl t) = None
     else t_width t = ti_width U_decl /\ t_height t = ti_height U_decl /\
          texture (t_impl t) <> None).
Proof.
  assert (H : find_texture (rt compiler0) (ti_unique_name U_decl) = None) by reflexivity.
  split; [exact H|].
  exact (LinkerRegistry.visit_texture_registers ok_dev U_decl compiler0 H).
Defined.

Lemma visit_sampler_bindings_witness :
  find_texture (rt compiler0) (si_texture_name (sampler_on "T" 2)) = Some T_tex /\
  let c' := snd (visit_sampler ok_dev (sampler_on "T" 2) compiler0) in
  let b := si_binding (sampler_on "T" 2) in
  let cached := assoc_find (desc_hash (sampler_desc_bytes (sampler_on "T" 2)))
                  (effect_sampler_states (rt compiler0)) in
  let smp := match cached with
             | Some smp => smp
             | None => snd (CreateSamplerState ok_dev (sampler_desc_bytes (sampler_on "T" 2)))
             end in
  (cached = None /\
   FAILED (fst (CreateSamplerState ok_dev (sampler_desc_bytes (sampler_on "T" 2)))) = true /\
   sampler_bindings c' = sampler_bindings compiler0 /\
   texture_bindings c' = texture_bindings compiler0 /\ success c' = false) \/
  (List.length (sampler_bindings c') = Nat.max (List.length (sampler_bindings compiler0)) (S b) /\
     List.length (texture_bindings c') = Nat.max (List.length (texture_bindings compiler0)) (S b) /\
     nth_error (sampler_bindings c') b = Some (Some smp) /\
     nth_error (texture_bindings c') b =
       Some (pick (si_srgb (sampler_on "T" 2)) (srv (t_impl T_tex))) /\
     forall j, j <> b ->
       nth j (sampler_bindings c') None = nth j (sampler_bindings compiler0) None /\
       nth j (texture_bindings c') None = nth j (texture_bindings compiler0) None).
Proof.
  assert (H : find_texture (rt compiler0) (si_texture_name (sampler_on "T" 2)) = Some T_tex)
    by reflexivity.
  split; [exact H|].
  exact (LinkerRegistry.visit_sampler_bindings ok_dev (sampler_on "T" 2) compiler0 T_tex H).
Defined.

Lemma write_type_injective_witness :
  (HlslNames.named_base (base (float_t 2 3)) = true /\
   HlslNames.named_base (base (float_t 2 3)) = true /\
   1 <= rows (float_t 2 3) < 2 ^ 32 /\ 1 <= cols (float_t 2 3) < 2 ^ 32 /\
   Hlsl.write_type (float_t 2 3) = Hlsl.write_type (float_t 2 3)) /\
  base (float_t 2 3) = base (float_t 2 3) /\ rows (float_t 2 3) = rows (float_t 2 3) /\
  cols (float_t 2 3) = cols (float_t 2 3).
Proof.
  assert (Hr : 1 <= rows (float_t 2 3) < 2 ^ 32) by (cbn; lia).
  assert (Hc : 1 <= cols (float_t 2 3) < 2 ^ 32) by (cbn; lia).
  split; [repeat split; try reflexivity; lia|].
  exact (HlslNames.write_type_injective (float_t 2 3) (float_t 2 3)
           eq_refl eq_refl Hr Hc Hr Hc eq_refl).
Defined.


Lemma emit_constant_array_composite_witness :
  (is_array float3_array = true /\
   find_first (constant_entry_matches float3_array two_elements) (constant_lookup initial_state) = None) /\
  exists ty ops pre,
    types_and_constants (secs (snd (emit_constant (S 9) float3_array two_elements initial_state))) =
      pre ++ [Spirv.mk_instruction OpConstantComposite ty
                (fst (emit_constant (S 9) float3_array two_elements initial_state)) ops] /\
    List.length ops = Nat.max (List.length (array_data two_elements)) (Z.to_nat (array_length float3_array)) /\
    exists cpre, constant_lookup (snd (emit_constant (S 9) float3_array two_elements initial_state)) =
      cpre ++ [(float3_array, two_elements, fst (emit_constant (S 9) float3_array two_elements initial_state))].
Proof.
  assert (H1 : is_array float3_array = true) by reflexivity.
  assert (H2 : find_first (constant_entry_matches float3_array two_elements)
                 (constant_lookup initial_state) = None) by reflexivity.
  split; [auto|].
  exact (ArrayConstants.emit_constant_array_composite 9 float3_array two_elements initial_state H1 H2).
Defined.
End ExtraWitnesses.
